(** * financial_rag: a shallow embedding of the chunker, the index builder,
      the retriever and the question-answering orchestrator

    Sources embedded here: [utils.py] (chunk_text, chunk_by_sections),
    [ingest.py] (extract_year_from_filename, embed_texts, build_index, the
    ingestion script), [query.py] (retrieve, answer_sub_question,
    answer_sub_question_with_fallback, analyze_missing_information,
    synthesize_final_answer, generate_answer) and the orchestration written
    inline in [streamlit_app.py].

    Conventions.
    - A Python [str] is a list of characters; a character is an [ascii]
      (code points 0..255).  Python integers are [Z].
    - [print] and the Streamlit display calls write to the screen only and
      are left out.
    - Everything outside the repository (language model, embedding service,
      FAISS, the PDF extractor, the file system) is an operation of the class
      [Externals]; it may change the outside world and may raise. *)

From Stdlib Require Import ZArith Ascii String List Lia QArith.
From stdpp Require Import gmap strings list pretty sorting.
From Equations Require Import Equations.

Local Open Scope Z_scope.

(** ** Python strings and slices *)

Abbreviation str := (list ascii).

Definition lit (s : string) : str := list_ascii_of_string s.

(** [len(s)] *)
Definition len {A} (s : list A) : Z := Z.of_nat (length s).

(** The index normalisation of a slice bound: negative bounds count from the
    end, and every bound is clamped to [0, len]. *)
Definition clamp_index (n i : Z) : Z :=
  if i <? 0 then Z.max (i + n) 0 else Z.min i n.

(** [s[lo:hi]] *)
Definition slice {A} (s : list A) (lo hi : Z) : list A :=
  let l := clamp_index (len s) lo in
  let h := clamp_index (len s) hi in
  take (Z.to_nat (h - l)) (drop (Z.to_nat l) s).

(** [s[lo:]] *)
Definition slice_from {A} (s : list A) (lo : Z) : list A := slice s lo (len s).

(** [s[:hi]] *)
Definition slice_to {A} (s : list A) (hi : Z) : list A := slice s 0 hi.

(** [c.isspace()] on code points below 256: tab, LF, VT, FF, CR, the four
    separators 0x1c..0x1f, space, NEL (0x85) and NBSP (0xa0). *)
Definition isspace (c : ascii) : bool :=
  let n := N_of_ascii c in
  (((9 <=? n) && (n <=? 13)) || ((28 <=? n) && (n <=? 32))
   || (n =? 133) || (n =? 160))%N.

Fixpoint lstrip (s : str) : str :=
  match s with
  | c :: r => if isspace c then lstrip r else s
  | [] => []
  end.

Definition rstrip (s : str) : str := reverse (lstrip (reverse s)).

(** [s.strip()] *)
Definition strip (s : str) : str := rstrip (lstrip s).

(** [s] has no white space at either end. *)
Definition trimmed (s : str) : Prop := lstrip s = s /\ rstrip s = s.

(** [s.startswith(p)] *)
Fixpoint startswith (p s : str) : bool :=
  match p, s with
  | [], _ => true
  | a :: p', b :: s' => if Ascii.eqb a b then startswith p' s' else false
  | _ :: _, [] => false
  end.

(** [needle in hay] *)
Fixpoint contains (needle hay : str) : bool :=
  startswith needle hay
  || match hay with [] => false | _ :: r => contains needle r end.

(** [s.split(sep)] for a non-empty separator: the occurrences of [sep] are
    found left to right and do not overlap.  [skip] counts the characters of
    a matched separator still to be passed over. *)
Fixpoint split_go (sep s : str) (skip : nat) (cur : str) : list str :=
  match s with
  | [] => [cur]
  | c :: r =>
      match skip with
      | S k => split_go sep r k cur
      | O =>
          if startswith sep s
          then cur :: split_go sep r (length sep - 1) []
          else split_go sep r 0 (cur ++ [c])
      end
  end.

Definition split (s sep : str) : list str := split_go sep s 0 [].

(** [sep.join(parts)] *)
Fixpoint join (sep : str) (parts : list str) : str :=
  match parts with
  | [] => []
  | [p] => p
  | p :: rest => p ++ sep ++ join sep rest
  end.

(** The lower-case form of a character below 256: A..Z and the accented
    capitals 0xC0..0xDE (the sign 0xD7 apart) move up by 32. *)
Definition lower_char (c : ascii) : ascii :=
  let n := N_of_ascii c in
  if (((65 <=? n) && (n <=? 90))
      || ((192 <=? n) && (n <=? 222) && negb (n =? 215)))%N
  then ascii_of_N (n + 32) else c.

(** [s.lower()] *)
Definition lower (s : str) : str := map lower_char s.


Definition isdigit (c : ascii) : bool :=
  let n := N_of_ascii c in ((48 <=? n) && (n <=? 57))%N.

Definition digit_value (c : ascii) : Z := Z.of_N (N_of_ascii c) - 48.

(** [re.search(r'20\d{2}', s)]: the first match of the pattern. *)
Fixpoint search_year (s : str) : option str :=
  match s with
  | [] => None
  | c1 :: r =>
      match r with
      | c2 :: c3 :: c4 :: _ =>
          if Ascii.eqb c1 "2" && Ascii.eqb c2 "0" && isdigit c3 && isdigit c4
          then Some [c1; c2; c3; c4]
          else search_year r
      | _ => None
      end
  end.

(** [int(s)] on a string of decimal digits *)
Definition int_of_digits (ds : str) : Z :=
  fold_left (fun acc c => acc * 10 + digit_value c) ds 0.

(** [str(n)] for an integer *)
Definition py_str (n : Z) : str := lit (pretty n).

Definition nl : str := lit (String "010" EmptyString).
Definition nlnl : str := nl ++ nl.
Definition dq : str := lit (String "034" EmptyString).

(** [s.endswith(p)] *)
Definition endswith (p s : str) : bool := startswith (reverse p) (reverse s).

(** [range(start, stop, step)]; a zero step raises ValueError. *)
Definition py_range (start stop step : Z) : option (list Z) :=
  if step =? 0 then None
  else
    let n := if 0 <? step
             then (stop - start + step - 1) / step
             else (start - stop - step - 1) / (- step) in
    Some (map (fun j => start + Z.of_nat j * step) (seq 0 (Z.to_nat n))).

(** ** utils.py: the chunker *)

Module Utils.

(** The [while start < text_len] loop of [chunk_text].  [fuel] bounds the
    number of iterations; [None] means the bound was reached with the loop
    condition still true. *)
Fixpoint chunk_text_loop (fuel : nat) (text : str) (chunk_size overlap : Z)
    (start : Z) (chunks : list str) : option (list str) :=
  match fuel with
  | O => None
  | S fuel' =>
      let text_len := len text in
      if start <? text_len then
        let end_ := Z.min (start + chunk_size) text_len in
        let chunk := slice text start end_ in
        chunk_text_loop fuel' text chunk_size overlap
          (start + (chunk_size - overlap)) (chunks ++ [strip chunk])
      else Some chunks
  end.

(** [chunk_text(text, chunk_size, overlap)] with the loop allowed [fuel]
    iterations more than [text] has characters. *)
Definition chunk_text (fuel : nat) (text : str) (chunk_size overlap : Z)
    : option (list str) :=
  chunk_text_loop (fuel + length text) text chunk_size overlap 0 [].

(** The same loop by well-founded recursion on the number of characters
    from [start] to the end of the text, which an iteration lowers when
    [overlap < chunk_size]. *)
Equations? chunk_text_wf (text : str) (chunk_size overlap : Z)
    (Hstep : overlap < chunk_size) (start : Z) (chunks : list str)
    : list str by wf (Z.to_nat (len text - start)) lt :=
  chunk_text_wf text chunk_size overlap Hstep start chunks
    with Z_lt_dec start (len text) := {
    | left _ =>
        chunk_text_wf text chunk_size overlap Hstep
          (start + (chunk_size - overlap))
          (chunks ++ [strip (slice text start
                               (Z.min (start + chunk_size) (len text)))]);
    | right _ => chunks }.
Proof. lia. Qed.

Definition section_headers : list str :=
  map lit
    ["Financial Results"; "Revenue"; "Income Statement"; "Financial Performance";
     "Key Metrics"; "Financial Highlights"; "Revenue and Sales"; "Financial Summary";
     "Consolidated Statements"; "Management Discussion"; "Results of Operations";
     "Financial Condition"; "Cash Flow"; "Balance Sheet"; "Profit and Loss";
     "Earnings"; "EBIT"; "EBITDA"; "Net Income"; "Gross Revenue"; "Total Revenue"]%string.

(** Computed for every paragraph by [chunk_by_sections] and never read. *)
Definition is_section_header (paragraph : str) : bool :=
  existsb (fun header => contains (lower header) (lower paragraph)) section_headers.

Definition nonempty {A} (s : list A) : bool :=
  match s with [] => false | _ => true end.

(** One iteration of the paragraph loop; the state is
    [(chunks, current_chunk)]. *)
Definition paragraph_step (chunk_size overlap : Z)
    (st : list str * str) (paragraph : str) : list str * str :=
  let '(chunks, current_chunk) := st in
  let paragraph := strip paragraph in
  if negb (nonempty paragraph) then st
  else
    if (len current_chunk + len paragraph >? chunk_size) && nonempty current_chunk
    then
      let overlap_text :=
        if len current_chunk >? overlap
        then slice_from current_chunk (- overlap)
        else current_chunk in
      (chunks ++ [strip current_chunk], overlap_text ++ nlnl ++ paragraph)
    else
      if nonempty current_chunk
      then (chunks, current_chunk ++ nlnl ++ paragraph)
      else (chunks, paragraph).

(** The paragraph loop followed by "add the last chunk". *)
Definition semantic_chunks (text : str) (chunk_size overlap : Z) : list str :=
  let paragraphs := split text nlnl in
  let '(chunks, current_chunk) :=
    fold_left (paragraph_step chunk_size overlap) paragraphs ([], []) in
  if nonempty current_chunk then chunks ++ [strip current_chunk] else chunks.

(** The oversize pass: [for chunk in chunks]. *)
Fixpoint split_oversize (fuel : nat) (chunk_size overlap : Z)
    (chunks final_chunks : list str) : option (list str) :=
  match chunks with
  | [] => Some final_chunks
  | chunk :: rest =>
      if len chunk >? chunk_size * 2 then
        match chunk_text fuel chunk chunk_size overlap with
        | Some sub_chunks =>
            split_oversize fuel chunk_size overlap rest (final_chunks ++ sub_chunks)
        | None => None
        end
      else split_oversize fuel chunk_size overlap rest (final_chunks ++ [chunk])
  end.

(** What the oversize pass makes of one chunk, once [chunk_text] ends. *)
Definition resplit (chunk_size overlap : Z) (chunk : str) : list str :=
  if len chunk >? chunk_size * 2
  then default [] (chunk_text 1 chunk chunk_size overlap)
  else [chunk].

Definition chunk_by_sections (fuel : nat) (text : str) (chunk_size overlap : Z)
    : option (list str) :=
  match split_oversize fuel chunk_size overlap
          (semantic_chunks text chunk_size overlap) [] with
  | Some final_chunks =>
      if negb (nonempty final_chunks)
      then chunk_text fuel text chunk_size overlap
      else Some final_chunks
  | None => None
  end.

(** The window [chunk_text] cuts at [start]. *)
Definition window (text : str) (chunk_size start : Z) : str :=
  strip (slice text start (Z.min (start + chunk_size) (len text))).

(** [p] occurs in [s] as a run of consecutive characters. *)
Definition infix (p s : str) : Prop := exists a b, s = a ++ p ++ b.

(** [q] is inside a chunk closed so far or inside the chunk being built,
    for a state [(chunks, current_chunk)] of the paragraph loop. *)
Definition covered (q : str) (st : list str * str) : Prop :=
  (exists c, c ∈ fst st /\ infix q c) \/ infix q (snd st).

(** [re.sub(r"\n{2,}", "\n\n", s)]: every maximal run of two or more
    newlines becomes two newlines.  [run] counts the newlines read and not
    yet written. *)
Fixpoint collapse_newlines (s : str) (run : nat) : str :=
  match s with
  | [] => repeat "010"%char (Nat.min run 2)
  | c :: r =>
      if Ascii.eqb c "010" then collapse_newlines r (S run)
      else repeat "010"%char (Nat.min run 2) ++ c :: collapse_newlines r 0
  end.

(** No run of newlines in [s] is longer than two, [k] newlines standing
    just before [s]. *)
Fixpoint short_runs (s : str) (k : nat) : bool :=
  match s with
  | [] => true
  | c :: r =>
      if Ascii.eqb c "010" then (k <? 2)%nat && short_runs r (S k)
      else short_runs r 0
  end.

(** The part of [extract_text_from_pdf] after the pages are read:
    [page_texts] holds what [p.extract_text()] gave for each page ([None]
    or a string); empty texts are left out, the rest joined and cleaned. *)
Definition text_of_pages (page_texts : list (option str)) : str :=
  let texts := omap (fun txt => match txt with
                                | Some t => if nonempty t then Some t else None
                                | None => None
                                end) page_texts in
  let full := join nl texts in
  collapse_newlines full 0.

(** A cell of a table is a string or [None]; [if cell]. *)
Definition cell_truthy (cell : option str) : bool :=
  match cell with
  | Some t => nonempty t
  | None => false
  end.

(** [str(cell).strip() if cell else ""] *)
Definition clean_cell (cell : option str) : str :=
  if cell_truthy cell then strip (default [] cell) else [].

(** The heading [f"Table {table_num + 1} from page {page_num + 1}:"]. *)
Definition table_heading (page_num table_num : Z) : str :=
  lit "Table " ++ py_str (table_num + 1) ++ lit " from page "
  ++ py_str (page_num + 1) ++ lit ":".

(** The lines of the rows: a row that is empty or has no cell with text is
    skipped. *)
Definition table_rows (table : list (list (option str))) : list str :=
  flat_map
    (fun row =>
       if nonempty row && existsb cell_truthy row
       then [join (lit " | ") (map clean_cell row)]
       else [])
    table.

Definition format_table_as_text (table : list (list (option str)))
    (page_num table_num : Z) : str :=
  if negb (nonempty table) || (len table <? 2) then []
  else
    let table_lines :=
      [table_heading page_num table_num; repeat "="%char 50]
      ++ table_rows table
      ++ [repeat "="%char 50] in
    join nl table_lines.

(** The part of [extract_tables_from_pdf] after the pages are read:
    [pages] holds what [page.extract_tables()] gave for each page. *)
Definition tables_of_pages (pages : list (list (list (list (option str)))))
    : list str :=
  concat
    (imap
       (fun page_num page_tables =>
          concat
            (imap
               (fun table_num table =>
                  if nonempty table && (len table >? 1) then
                    let table_str :=
                      format_table_as_text table (Z.of_nat page_num)
                        (Z.of_nat table_num) in
                    if nonempty table_str then [table_str] else []
                  else [])
               page_tables))
       pages).

(** The part of [extract_text_and_tables_from_pdf] after [text] and
    [tables] are extracted. *)
Definition combine_text_and_tables (text : str) (tables : list str) : str :=
  let combined_content :=
    [text]
    ++ (if nonempty tables
        then [nlnl ++ repeat "="%char 80; lit "FINANCIAL TABLES AND DATA:";
              repeat "="%char 80] ++ tables
        else []) in
  join nl combined_content.

End Utils.

(** ** Effects: the outside world, exceptions and [exit] *)

(** An exception of class [Exception]: its class name and its message. *)
Record exn := Exception { exn_class : str; exn_msg : str }.

(** What an operation outside the repository answers. *)
Inductive reply (A : Type) :=
  | Reply (a : A)
  | Failure (e : exn).
Arguments Reply {A} a.
Arguments Failure {A} e.

(** How a computation of the repository ends: with a value, with an
    exception that nobody caught, or with [exit(code)]. *)
Inductive result (A : Type) :=
  | Ok (a : A)
  | Raise (e : exn)
  | Exit (code : Z).
Arguments Ok {A} a.
Arguments Raise {A} e.
Arguments Exit {A} code.

Definition M (World A : Type) : Type := World -> result A * World.

Definition ret {World A} (a : A) : M World A := fun w => (Ok a, w).

Definition bind {World A B} (c : M World A) (k : A -> M World B) : M World B :=
  fun w =>
    match c w with
    | (Ok a, w') => k a w'
    | (Raise e, w') => (Raise e, w')
    | (Exit n, w') => (Exit n, w')
    end.

Definition raise {World A} (e : exn) : M World A := fun w => (Raise e, w).

Definition exit {World A} (code : Z) : M World A := fun w => (Exit code, w).

(** A call of an outside operation. *)
Definition call {World A} (op : World -> reply A * World) : M World A :=
  fun w =>
    match op w with
    | (Reply a, w') => (Ok a, w')
    | (Failure e, w') => (Raise e, w')
    end.

(** [try: body  except Exception as e: handler(e)]; [exit] is not caught. *)
Definition try_except {World A} (body : M World A) (handler : exn -> M World A)
    : M World A :=
  fun w =>
    match body w with
    | (Ok a, w') => (Ok a, w')
    | (Raise e, w') => handler e w'
    | (Exit n, w') => (Exit n, w')
    end.

Notation "x <- c ;; k" := (bind c (fun x => k))
  (at level 100, c at next level, right associativity).

(** [c] never ends with [exit]. *)
Definition never_exits {World A} (c : M World A) : Prop :=
  forall w n w', c w <> (Exit n, w').

(** ** The data of the query side *)

(** An entry of [meta.json] as [query.py] reads it: [year] is read with
    [chunk.get('year', 0)], so the key may be absent. *)
Record chunk := {
  source : str;
  chunk_index : Z;
  text : str;
  year : option Z;
  report_year : option Z
}.

(** The dict returned by [answer_sub_question]. *)
Record answer_result := {
  question : str;
  answer : str;
  chunks : list chunk;
  sources : list str
}.

(** The arguments of [client.chat.completions.create]; [messages] lists the
    (role, content) pairs. *)
Record chat_request := {
  model : str;
  messages : list (str * str);
  max_tokens : Z;
  temperature : Q
}.

(** A flat L2 index: its dimension and the vectors in the order they were
    added (row [i] is the [i]-th vector added). *)
Record index (float : Type) := {
  index_d : Z;
  index_rows : list (list float)
}.
Arguments index_d {float} _.
Arguments index_rows {float} _.

(** The operations outside the repository.  [float] is the type of a vector
    component. *)
Class Externals (World float : Type) := {
  (** [0.0] *)
  zero : float;
  (** [client.chat.completions.create(...).choices[0].message.content] *)
  chat_completions_create : chat_request -> World -> reply str * World;
  (** [[r.embedding for r in client.embeddings.create(model, input).data]] *)
  embeddings_create : str -> list str -> World -> reply (list (list float)) * World;
  (** [os.path.exists(path)] *)
  os_path_exists : str -> World -> reply bool * World;
  (** [faiss.read_index(path)] *)
  faiss_read_index : str -> World -> reply (index float) * World;
  (** [faiss.write_index(index, path)] *)
  faiss_write_index : index float -> str -> World -> reply unit * World;
  (** [json.load] of the metadata file *)
  json_load_meta : str -> World -> reply (gmap str chunk) * World;
  (** [json.dump] of the metadata mapping *)
  json_dump_meta : gmap str chunk -> str -> World -> reply unit * World;
  (** [index.search(q, k)]: the pairs of [zip(D[0], I[0])] *)
  index_search : index float -> list float -> Z -> World -> reply (list (float * Z)) * World;
  (** [os.listdir(path)] *)
  os_listdir : str -> World -> reply (list str) * World;
  (** [utils.extract_text_and_tables_from_pdf(path)], which drives pdfplumber *)
  extract_text_and_tables_from_pdf : str -> World -> reply str * World
}.

(** ** query.py *)

Module Query.

Section WithExternals.
Context {World float : Type} `{!Externals World float}.

Definition EMBED_MODEL : str := lit "text-embedding-3-large".
Definition LLM_MODEL : str := lit "gpt-4o-mini".
Definition INDEX_PATH : str := lit "faiss_index.bin".
Definition META_PATH : str := lit "meta.json".

(** [PROMPT_TEMPLATE.format(passages=passages, question=question)] *)
Definition PROMPT_TEMPLATE (passages question : str) : str :=
  lit "
You are a helpful financial analyst assistant. Use only the provided source passages to answer the user's question. 
Cite sources using numbered references like [1], [2], [3] etc. 

IMPORTANT: When answering financial questions, provide comprehensive, detailed answers that include:
- Specific numbers and figures from the passages
- Year-over-year comparisons when available
- Key financial metrics and ratios
- Detailed breakdowns by segment or category
- Tables or structured data when relevant
- All relevant financial data found in the passages

If the answer is not in the passages, say " ++ dq ++ lit "I don't know based on the provided documents." ++ dq ++ lit "

Passages:
" ++ passages ++ lit "

Question: " ++ question ++ lit "

Provide a comprehensive, detailed answer that extracts all relevant financial information from the passages. Use numbered citations [1], [2], [3] etc. in your answer. Do NOT include a " ++ dq ++ lit "Sources:" ++ dq ++ lit " section at the end - just provide the answer with inline citations.
".

Definition load_index (index_path : str) : M World (index float) :=
  present <- call (os_path_exists index_path) ;;
  if negb present
  then raise (Exception (lit "FileNotFoundError")
                (lit "Index file not found: " ++ index_path))
  else call (faiss_read_index index_path).

Definition load_meta (meta_path : str) : M World (gmap str chunk) :=
  present <- call (os_path_exists meta_path) ;;
  if negb present
  then raise (Exception (lit "FileNotFoundError")
                (lit "Metadata file not found: " ++ meta_path))
  else call (json_load_meta meta_path).

Definition embed_query (q : str) : M World (list float) :=
  data <- call (embeddings_create EMBED_MODEL [q]) ;;
  match data with
  | embedding :: _ => ret embedding
  | [] => raise (Exception (lit "IndexError") (lit "list index out of range"))
  end.

(** The truth value of [target_year]: [None] and [0] are false. *)
Definition truthy (target_year : option Z) : bool :=
  match target_year with
  | Some y => negb (y =? 0)
  | None => false
  end.

(** [k * 3 if target_year else k] *)
Definition search_k (k : Z) (target_year : option Z) : Z :=
  if truthy target_year then k * 3 else k.

(** [chunk.get('year', 0)] *)
Definition get_year (c : chunk) : Z := default 0 (year c).

(** The body of [if sid in meta:] up to the [break] test: the results after
    looking at [chunk]. *)
Definition consider (target_year : option Z) (results : list chunk) (c : chunk)
    : list chunk :=
  match target_year with
  | Some ty =>
      if negb (ty =? 0) then
        let chunk_year := get_year c in
        if chunk_year =? ty then results ++ [c]
        else if Z.abs (chunk_year - ty) <=? 1 then results ++ [c]
        else results
      else results ++ [c]
  | None => results ++ [c]
  end.

(** [for idx in I[0]: ...], with its [break]. *)
Fixpoint retrieve_loop (meta : gmap str chunk) (k : Z) (target_year : option Z)
    (I0 : list Z) (results : list chunk) : list chunk :=
  match I0 with
  | [] => results
  | idx :: rest =>
      let sid := py_str idx in
      match meta !! sid with
      | Some c =>
          let results := consider target_year results c in
          if len results >=? k then results
          else retrieve_loop meta k target_year rest results
      | None => retrieve_loop meta k target_year rest results
      end
  end.

Definition retrieve (query : str) (k : Z) (target_year : option Z)
    : M World (list chunk) :=
  index <- load_index INDEX_PATH ;;
  meta <- load_meta META_PATH ;;
  q_emb <- embed_query query ;;
  DI <- call (index_search index q_emb (search_k k target_year)) ;;
  let results := retrieve_loop meta k target_year (map snd DI) [] in
  ret (slice_to results k).

(** Whether the year test of the loop lets [c] through. *)
Definition accepts (target_year : option Z) (c : chunk) : bool :=
  match target_year with
  | Some ty => if negb (ty =? 0) then Z.abs (get_year c - ty) <=? 1 else true
  | None => true
  end.

(** The neighbours whose id is a key of [meta], in search order. *)
Definition resolved (meta : gmap str chunk) (I0 : list Z) : list chunk :=
  omap (fun idx => meta !! py_str idx) I0.

(** The same with the distance of each neighbour kept beside its chunk. *)
Definition resolved_ranked (meta : gmap str chunk) (DI : list (float * Z))
    : list (float * chunk) :=
  omap (fun di => pair (fst di) <$> meta !! py_str (snd di)) DI.

Definition extract_year_from_query (query : str) : option Z :=
  match search_year query with
  | Some group => Some (int_of_digits group)
  | None => None
  end.

Definition chat (m : str) (user : str) (mt : Z) (temp : Q) : M World str :=
  call (chat_completions_create
          {| model := m;
             messages := [(lit "system", lit "You are a helpful financial analyst assistant.");
                          (lit "user", user)];
             max_tokens := mt;
             temperature := temp |}).

(** The lines of [response_text] that start with "- ", without the prefix. *)
Definition dash_items (response_text : str) : list str :=
  flat_map
    (fun line =>
       let line := strip line in
       if startswith (lit "- ") line then [strip (slice_from line 2)] else [])
    (split response_text nl).

Definition alternatives_prompt (original_question : str) : str :=
  lit "
You are a financial analyst assistant. The original question failed to find relevant data. Generate 3 alternative ways to ask the same question that might find the information in financial reports.

Original question: " ++ original_question ++ lit "

Generate alternative questions that:
1. Use different terminology (e.g., " ++ dq ++ lit "revenue" ++ dq ++ lit " vs " ++ dq ++ lit "sales" ++ dq ++ lit " vs " ++ dq ++ lit "income" ++ dq ++ lit ")
2. Focus on different aspects (e.g., segment revenue vs total revenue)
3. Use different time references (e.g., " ++ dq ++ lit "2020" ++ dq ++ lit " vs " ++ dq ++ lit "full year 2020" ++ dq ++ lit ")
4. Ask for specific metrics (e.g., " ++ dq ++ lit "total revenue" ++ dq ++ lit " vs " ++ dq ++ lit "consolidated revenue" ++ dq ++ lit ")

Provide 3 alternative questions, one per line, starting with " ++ dq ++ lit "- " ++ dq ++ lit ":
".

Definition generate_alternative_questions (original_question : str)
    : M World (list str) :=
  response_text <-
    chat (lit "gpt-4o") (alternatives_prompt original_question) 200 (3 # 10) ;;
  ret (dash_items response_text).

(** The matches of the pattern [\[(\d+)\]], left to right: [open] holds the
    digits read since the last opening bracket, if one is pending. *)
Fixpoint findall_markers (s : str) (open : option str) : list str :=
  match s with
  | [] => []
  | c :: r =>
      if Ascii.eqb c "[" then findall_markers r (Some [])
      else
        match open with
        | Some ds =>
            if isdigit c then findall_markers r (Some (ds ++ [c]))
            else if Ascii.eqb c "]" && Utils.nonempty ds
                 then ds :: findall_markers r None
                 else findall_markers r None
        | None => findall_markers r None
        end
  end.

(** [[int(num) for num in re.findall(r'\[(\d+)\]', answer)]] *)
Definition cited_numbers (answer : str) : list Z :=
  map int_of_digits (findall_markers answer None).

(** [f"[{num}] {chunk['source']}, chunk {chunk['chunk_index']}"] *)
Definition citation (num : Z) (c : chunk) : str :=
  lit "[" ++ py_str num ++ lit "] " ++ source c ++ lit ", chunk "
  ++ py_str (chunk_index c).

(** One iteration of [for num in cited_numbers].  Inside the guard
    [hits[num - 1]] is a valid index. *)
Definition cite_step (hits : list chunk) (sources : list str) (num : Z)
    : list str :=
  if (1 <=? num) && (num <=? len hits) then
    match hits !! Z.to_nat (num - 1) with
    | Some c => sources ++ [citation num c]
    | None => sources
    end
  else sources.

(** [f"[{i}] {chunk['text']}"] for [i, chunk in enumerate(hits, 1)] *)
Definition numbered_passages (hits : list chunk) : list str :=
  imap (fun i c => lit "[" ++ py_str (Z.of_nat i + 1) ++ lit "] " ++ text c) hits.

(** The request [answer_sub_question] sends for the chunks [hits]. *)
Definition answer_request (sub_question : str) (hits : list chunk) : chat_request :=
  let passages := join nlnl (numbered_passages hits) in
  let prompt := PROMPT_TEMPLATE passages sub_question in
  {| model := LLM_MODEL;
     messages := [(lit "system", lit "You are a helpful assistant.");
                  (lit "user", prompt)];
     max_tokens := 1000;
     temperature := 0 |}.

Definition answer_sub_question (sub_question : str) (target_year : option Z)
    : M World answer_result :=
  hits <- retrieve sub_question 4 target_year ;;
  if negb (Utils.nonempty hits) then
    ret {| question := sub_question;
           answer := lit "No relevant information found.";
           chunks := [];
           sources := [] |}
  else
    answer <- call (chat_completions_create (answer_request sub_question hits)) ;;
    let sources := fold_left (cite_step hits) (cited_numbers answer) [] in
    ret {| question := sub_question;
           answer := answer;
           chunks := hits;
           sources := sources |}.

(** ["I don't know" in a or "No relevant information found" in a] *)
Definition no_data (a : str) : bool :=
  contains (lit "I don't know") a || contains (lit "No relevant information found") a.

(** [f"{sub_question} (tried alternative: {alt_question})"] *)
Definition annotate (sub_question alt_question : str) : str :=
  sub_question ++ lit " (tried alternative: " ++ alt_question ++ lit ")".

(** [for alt_question in alternatives: ...] followed by [return result]. *)
Fixpoint try_alternatives (sub_question : str) (target_year : option Z)
    (result : answer_result) (alternatives : list str) : M World answer_result :=
  match alternatives with
  | [] => ret result
  | alt_question :: rest =>
      alt_result <- answer_sub_question alt_question target_year ;;
      if negb (contains (lit "I don't know") (answer alt_result))
         && negb (contains (lit "No relevant information found") (answer alt_result))
      then
        ret {| question := annotate sub_question alt_question;
               answer := answer alt_result;
               chunks := chunks alt_result;
               sources := sources alt_result |}
      else try_alternatives sub_question target_year result rest
  end.

(** The alternatives of [alts] are tried in order from world [w], each one
    is answered, each answer carries a failure sentinel, and the world is
    [w'] afterwards. *)
Inductive all_fail (target_year : option Z) : list str -> World -> World -> Prop :=
  | all_fail_nil w : all_fail target_year [] w w
  | all_fail_cons alt rest w r w1 w2 :
      answer_sub_question alt target_year w = (Ok r, w1) ->
      no_data (answer r) = true ->
      all_fail target_year rest w1 w2 ->
      all_fail target_year (alt :: rest) w w2.

Definition answer_sub_question_with_fallback (sub_question : str)
    (target_year : option Z) : M World answer_result :=
  result <- answer_sub_question sub_question target_year ;;
  if no_data (answer result) then
    alternatives <- generate_alternative_questions sub_question ;;
    try_alternatives sub_question target_year result alternatives
  else ret result.

(** [context] of [synthesize_final_answer]: the lines contributed by the
    [i]-th result (counted from 1). *)
Definition context_part (i : nat) (r : answer_result) : list str :=
  [lit "Sub-question " ++ py_str (Z.of_nat i + 1) ++ lit ": " ++ question r;
   lit "Answer: " ++ answer r]
  ++ (if Utils.nonempty (sources r)
      then [lit "Sources: " ++ join (lit "; ") (sources r)]
      else [])
  ++ [[]].

Definition synthesis_prompt (original_question context : str) : str :=
  lit "
You are a financial analyst assistant. Based on the sub-question answers below, provide a comprehensive answer to the original question.

Original question: " ++ original_question ++ lit "

Sub-question analysis:
" ++ context ++ lit "

Provide a clear, comprehensive answer that:
1. Directly answers the original question
2. Synthesizes information from all sub-questions
3. Includes specific data and metrics where available
4. Creates tables or structured data when relevant
5. Provides year-over-year comparisons
6. Includes detailed breakdowns by segment or category
7. Cites sources appropriately
8. Is well-structured and easy to understand

IMPORTANT: Extract ALL relevant financial data from the sub-question answers. Include specific numbers, percentages, and detailed breakdowns. Create tables when comparing multiple years or metrics.

If the sub-questions don't provide enough information to answer the original question, say so clearly.
".

Definition synthesize_final_answer (original_question : str)
    (sub_question_results : list answer_result) : M World str :=
  let context_parts := concat (imap context_part sub_question_results) in
  let context := join nl context_parts in
  chat (lit "gpt-4o") (synthesis_prompt original_question context) 1500 (1 # 10).

Definition analysis_prompt (original_question main_answer context : str) : str :=
  lit "
You are a financial analyst assistant. I have provided an initial answer to the user's question, but I need to analyze what information is missing and what additional data would make the answer more comprehensive.

Original question: " ++ original_question ++ lit "

Main answer provided: " ++ main_answer ++ lit "

Available context from retrieved documents:
" ++ context ++ lit "

Please analyze and provide:

1. What specific information is MISSING from the main answer that would be valuable to include?
2. What additional data points, metrics, or details would strengthen the answer?
3. What follow-up questions should be asked to collect this missing information?

Focus on identifying gaps in:
- Specific financial numbers or metrics
- Year-over-year comparisons
- Segment breakdowns
- Key factors or explanations
- Detailed analysis or context

Provide your analysis in this format:
MISSING INFORMATION:
- [List specific missing information]

FOLLOW-UP QUESTIONS NEEDED:
- [Question 1 to collect missing info]
- [Question 2 to collect missing info]
- [Question 3 to collect missing info]
".

(** [current_section]: [None], ['missing'] or ['questions']. *)
Inductive section_tag := NoSection | MissingSection | QuestionsSection.

(** The dict returned by [analyze_missing_information]. *)
Record analysis := {
  missing_info : list str;
  follow_up_questions : list str
}.

(** One iteration of [for line in lines] in [analyze_missing_information]. *)
Definition analysis_step (st : section_tag * analysis) (line : str)
    : section_tag * analysis :=
  let '(current_section, a) := st in
  let line := strip line in
  if startswith (lit "MISSING INFORMATION:") line then (MissingSection, a)
  else if startswith (lit "FOLLOW-UP QUESTIONS NEEDED:") line then (QuestionsSection, a)
  else if startswith (lit "- ") line then
    match current_section with
    | MissingSection =>
        (current_section,
         {| missing_info := missing_info a ++ [strip (slice_from line 2)];
            follow_up_questions := follow_up_questions a |})
    | QuestionsSection =>
        (current_section,
         {| missing_info := missing_info a;
            follow_up_questions := follow_up_questions a ++ [strip (slice_from line 2)] |})
    | NoSection => st
    end
  else st.

Definition parse_analysis (response_text : str) : analysis :=
  snd (fold_left analysis_step (split response_text nl)
         (NoSection, {| missing_info := []; follow_up_questions := [] |})).

Definition analyze_missing_information (original_question main_answer : str)
    (available_chunks : list chunk) : M World analysis :=
  let chunk_summaries :=
    map (fun c => slice_to (text c) 300) (slice_to available_chunks 3) in
  let context := join nl chunk_summaries in
  response_text <-
    chat (lit "gpt-4o") (analysis_prompt original_question main_answer context)
      300 (1 # 10) ;;
  ret (parse_analysis response_text).

(** [for i, follow_up_q in enumerate(follow_up_questions, 1): ...] *)
Fixpoint answer_follow_ups (target_year : option Z) (follow_up_questions : list str)
    (follow_up_results : list answer_result) : M World (list answer_result) :=
  match follow_up_questions with
  | [] => ret follow_up_results
  | follow_up_q :: rest =>
      result <- answer_sub_question_with_fallback follow_up_q target_year ;;
      answer_follow_ups target_year rest (follow_up_results ++ [result])
  end.

(** [retrieved_chunks] is "not used in new approach". *)
Definition generate_answer (question : str) (retrieved_chunks : list chunk)
    : M World str :=
  let target_year := extract_year_from_query question in
  main_result <- answer_sub_question_with_fallback question target_year ;;
  let main_chunks := chunks main_result in
  a <- analyze_missing_information question (answer main_result) main_chunks ;;
  follow_up_results <- answer_follow_ups target_year (follow_up_questions a) [] ;;
  let all_results := [main_result] ++ follow_up_results in
  synthesize_final_answer question all_results.

Definition decomposition_prompt (question : str) : str :=
  lit "
You are a financial analyst assistant. Given a complex question about financial data, break it down into 2-4 simple, independent sub-questions that can be answered separately but together help answer the main question.

IMPORTANT RULES:
- Each sub-question should focus on ONE company at a time
- Each sub-question should focus on ONE specific metric
- Keep sub-questions simple and focused
- Avoid asking for multiple companies in one question

Examples of GOOD sub-questions:
- " ++ dq ++ lit "What was Ford's net profit margin in 2022?" ++ dq ++ lit "
- " ++ dq ++ lit "What was Tesla's EBIT margin in 2022?" ++ dq ++ lit "
- " ++ dq ++ lit "What was BMW's revenue in 2022?" ++ dq ++ lit "

Examples of BAD sub-questions:
- " ++ dq ++ lit "What was the net profit margin for Ford, Tesla, and BMW in 2022?" ++ dq ++ lit "
- " ++ dq ++ lit "How did Ford, Tesla, and BMW compare in 2022?" ++ dq ++ lit "

Original question: " ++ question ++ lit "

Provide 2-4 simple sub-questions, one per line, that are:
1. Focused on ONE company at a time
2. Focused on ONE specific metric
3. Independent and can be answered separately
4. Helpful for answering the main question

Format each sub-question on a new line starting with " ++ dq ++ lit "- " ++ dq ++ lit "
".

Definition decompose_question (question : str) : M World (list str) :=
  response_text <- chat (lit "gpt-4o") (decomposition_prompt question) 300 (1 # 10) ;;
  ret (dash_items response_text).

Definition context_prompt (original_question context : str) : str :=
  lit "
You are a financial analyst assistant. The main question failed to find sufficient data, but we have some context. Generate 2-3 targeted sub-questions that would help answer the original question based on the available context.

Original question: " ++ original_question ++ lit "

Available context:
" ++ context ++ lit "

Generate 2-3 specific sub-questions that:
1. Focus on specific aspects mentioned in the context
2. Ask for specific metrics or data points
3. Target the most relevant information for answering the original question

Provide 2-3 sub-questions, one per line, starting with " ++ dq ++ lit "- " ++ dq ++ lit ":
".

(** [context] of [analyze_missing_information] and of
    [generate_context_driven_sub_questions]: the first 300 characters of
    the first 3 chunks, one per line. *)
Definition chunk_context (available_chunks : list chunk) : str :=
  join nl (map (fun c => slice_to (text c) 300) (slice_to available_chunks 3)).

Definition generate_context_driven_sub_questions (original_question : str)
    (available_chunks : list chunk) : M World (list str) :=
  let context := chunk_context available_chunks in
  response_text <-
    chat (lit "gpt-4o") (context_prompt original_question context) 200 (2 # 10) ;;
  ret (dash_items response_text).

(** One turn of the loop of [__main__] for a question [q] that is not empty
    and is no word for leaving: the text it prints last, the answer or the
    error of the handler around the turn. *)
Definition repl_turn (q : str) : M World str :=
  try_except
    (let target_year := extract_year_from_query q in
     retrieved <- retrieve q 4 target_year ;;
     answer <- generate_answer q retrieved ;;
     ret (nl ++ lit "Answer:" ++ nl ++ answer))
    (fun e => ret (lit "Error: " ++ exn_msg e)).

End WithExternals.

End Query.

(** ** streamlit_app.py: the orchestration of the chat page *)

Module StreamlitApp.

Section WithExternals.
Context {World float : Type} `{!Externals World float}.

(** The computation of [final_answer] for a chat [prompt]; here the
    synthesis is under [if follow_up_questions:] and the [else] branch uses
    the main answer as the final answer. *)
Definition final_answer (prompt : str) : M World str :=
  let target_year := Query.extract_year_from_query prompt in
  main_result <- Query.answer_sub_question_with_fallback prompt target_year ;;
  let main_chunks := chunks main_result in
  a <- Query.analyze_missing_information prompt (answer main_result) main_chunks ;;
  if Utils.nonempty (Query.follow_up_questions a) then
    follow_up_results <-
      Query.answer_follow_ups target_year (Query.follow_up_questions a) [] ;;
    let all_results := [main_result] ++ follow_up_results in
    Query.synthesize_final_answer prompt all_results
  else ret (answer main_result).

(** The message the page shows and stores as the assistant's for a chat
    [prompt]: the final answer, or the error message of the handler around
    the whole turn. *)
Definition assistant_message (prompt : str) : M World str :=
  try_except (final_answer prompt)
    (fun e => ret (lit "Sorry, I encountered an error: " ++ exn_msg e)).

End WithExternals.

End StreamlitApp.

(** ** ingest.py *)

Module Ingest.

Section WithExternals.
Context {World float : Type} `{!Externals World float}.

Definition EMBED_MODEL : str := lit "text-embedding-3-large".

Definition extract_year_from_filename (filename : str) : Z :=
  match search_year filename with
  | Some group => int_of_digits group
  | None => 0
  end.

(** [[[0.0] * 3072 for _ in batch]] *)
Definition zero_embeddings {A} (batch : list A) : list (list float) :=
  map (fun _ => repeat zero 3072) batch.

(** The contract of the embedding service for the model used: a call that
    succeeds gives one vector per input text, each of 3072 components. *)
Definition embedding_contract : Prop :=
  forall input w rows w',
    embeddings_create EMBED_MODEL input w = (Reply rows, w') ->
    length rows = length input /\ Forall (fun r => len r = 3072) rows.

(** What a batch contributes to [all_embeddings]: the rows of a call that
    succeeded, or zero rows after a call that failed. *)
Definition batch_rows (batch : list str) (out : list (list float)) : Prop :=
  (exists w w', embeddings_create EMBED_MODEL batch w = (Reply out, w'))
  \/ (exists e w w', embeddings_create EMBED_MODEL batch w = (Failure e, w'))
     /\ out = zero_embeddings batch.

(** The body of [for i in range(0, len(texts), batch_size)]. *)
Definition embed_batch (texts : list str) (batch_size : Z)
    (all_embeddings : list (list float)) (i : Z) : M World (list (list float)) :=
  let batch := slice texts i (i + batch_size) in
  try_except
    (batch_embs <- call (embeddings_create EMBED_MODEL batch) ;;
     ret (all_embeddings ++ batch_embs))
    (fun e => ret (all_embeddings ++ zero_embeddings batch)).

Fixpoint for_each {S A} (body : S -> A -> M World S) (items : list A) (st : S)
    : M World S :=
  match items with
  | [] => ret st
  | x :: rest => st' <- body st x ;; for_each body rest st'
  end.

(** [np.array(rows, dtype="float32")]: the rows of a nested list must have
    one length. *)
Definition np_array (rows : list (list float)) : M World (list (list float)) :=
  match rows with
  | [] => ret []
  | r :: rest =>
      if forallb (fun r' => len r' =? len r) rest then ret rows
      else raise (Exception (lit "ValueError")
                    (lit "setting an array element with a sequence."))
  end.

Definition embed_texts (texts : list str) (batch_size : Z)
    : M World (list (list float)) :=
  match py_range 0 (len texts) batch_size with
  | None => raise (Exception (lit "ValueError") (lit "range() arg 3 must not be zero"))
  | Some starts =>
      all_embeddings <- for_each (embed_batch texts batch_size) starts [] ;;
      np_array all_embeddings
  end.

(** [build_index(embeddings, ids, index_path, meta_path)]:
    [embeddings.shape[1]] needs a two-dimensional array, and [index.add]
    appends the rows to the empty index. *)
Definition build_index (embeddings : list (list float)) (ids : gmap str chunk)
    (index_path meta_path : str) : M World unit :=
  match embeddings with
  | [] => raise (Exception (lit "IndexError") (lit "tuple index out of range"))
  | row :: _ =>
      let dim := len row in
      let index := {| index_d := dim; index_rows := [] ++ embeddings |} in
      _ <- call (faiss_write_index index index_path) ;;
      call (json_dump_meta ids meta_path)
  end.

(** An element of the list [metadata] of the script. *)
Record meta_entry := {
  id : str;
  m_source : str;
  m_chunk_index : Z;
  m_text : str;
  m_year : Z;
  m_report_year : Z
}.

(** The variables [all_chunks], [metadata] and [id_counter] of the script. *)
Record collected := {
  all_chunks : list str;
  metadata : list meta_entry;
  id_counter : Z
}.

(** [os.path.join(a, b)] for a directory name [a] without a final slash. *)
Definition os_path_join (a b : str) : str :=
  if startswith (lit "/") b then b else a ++ lit "/" ++ b.

(** [chunk_by_sections(text, chunk_size=1200, overlap=300)]; with these
    arguments every loop of the chunker ends. *)
Definition chunk_document (text : str) : list str :=
  default [] (Utils.chunk_by_sections 1 text 1200 300).

(** The body of [for i, c in enumerate(chunks)]; [ic] is the pair [(i, c)]. *)
Definition add_chunk (fname : str) (year : Z) (st : collected) (ic : nat * str)
    : collected :=
  let '(i, c) := ic in
  let meta := {| id := py_str (id_counter st);
                 m_source := fname;
                 m_chunk_index := Z.of_nat i;
                 m_text := slice_to c 4000;
                 m_year := year;
                 m_report_year := year |} in
  {| all_chunks := all_chunks st ++ [c];
     metadata := metadata st ++ [meta];
     id_counter := id_counter st + 1 |}.

(** The body of [for fname in pdf_files]. *)
Definition process_file (data_dir : str) (st : collected) (fname : str)
    : M World collected :=
  let path := os_path_join data_dir fname in
  try_except
    (text <- call (extract_text_and_tables_from_pdf path) ;;
     let chunks := chunk_document text in
     let year := extract_year_from_filename fname in
     ret (fold_left (add_chunk fname year) (imap pair chunks) st))
    (fun e => ret st).

(** The value the dict comprehension [ids_for_save] stores for [meta]. *)
Definition saved_entry (meta : meta_entry) : chunk :=
  {| source := m_source meta;
     chunk_index := m_chunk_index meta;
     text := m_text meta;
     year := Some (m_year meta);
     report_year := Some (m_report_year meta) |}.

(** The dict comprehension [ids_for_save]: later entries replace earlier
    ones with the same key. *)
Definition ids_for_save (metadata : list meta_entry) : gmap str chunk :=
  fold_left (fun d meta => <[ id meta := saved_entry meta ]> d) metadata ∅.

(** The state of the collection loop is consistent: [id_counter] counts the
    chunks, and the [i]-th metadata entry has id [str(i)] and the text of
    the [i]-th chunk cut to 4000 characters. *)
Definition collected_ok (st : collected) : Prop :=
  0 <= id_counter st
  /\ length (all_chunks st) = Z.to_nat (id_counter st)
  /\ length (metadata st) = Z.to_nat (id_counter st)
  /\ forall i m, metadata st !! i = Some m ->
       id m = py_str (Z.of_nat i)
       /\ exists c, all_chunks st !! i = Some c /\ m_text m = slice_to c 4000.

(** [rows] are the embeddings of [texts] batch by batch: each batch of
    [batch_size] consecutive texts contributes, in order, as many rows as it
    has texts, from the service or zero rows. *)
Definition rows_in_batch_order (texts : list str) (batch_size : Z)
    (rows : list (list float)) : Prop :=
  exists outs starts,
    py_range 0 (len texts) batch_size = Some starts
    /\ concat (map (fun i => slice texts i (i + batch_size)) starts) = texts
    /\ rows = concat outs
    /\ Forall2 (fun batch out => length out = length batch /\ batch_rows batch out)
         (map (fun i => slice texts i (i + batch_size)) starts) outs.

(** What a completed run handed to [build_index], with the chunks it had
    collected. *)
Record built := {
  built_chunks : list str;
  built_embeddings : list (list float);
  built_ids : gmap str chunk
}.

(** The script under [if __name__ == "__main__":]. *)
Definition main : M World built :=
  let data_dir := lit "data" in
  names <- call (os_listdir data_dir) ;;
  let pdf_files := filter (fun f => endswith (lit ".pdf") (lower f) = true) names in
  if negb (Utils.nonempty pdf_files) then exit 1
  else
    st <- for_each (process_file data_dir) pdf_files
            {| all_chunks := []; metadata := []; id_counter := 0 |} ;;
    if negb (Utils.nonempty (all_chunks st)) then exit 1
    else
      try_except
        (embs <- embed_texts (all_chunks st) 100 ;;
         let ids := ids_for_save (metadata st) in
         _ <- build_index embs ids (lit "faiss_index.bin") (lit "meta.json") ;;
         ret {| built_chunks := all_chunks st;
                built_embeddings := embs;
                built_ids := ids |})
        (fun e => exit 1).

(** The fields of a metadata entry agree with each other: both years are
    the year read from the name of the source file, the index is not
    negative and the text has at most 4000 characters. *)
Definition fields_ok (m : meta_entry) : Prop :=
  m_year m = extract_year_from_filename (m_source m)
  /\ m_report_year m = m_year m
  /\ 0 <= m_chunk_index m
  /\ len (m_text m) <= 4000.

(** The metadata entries of one document whose chunks are [chunks], the
    first of which gets the id [first_id] and the index [first_index]. *)
Fixpoint doc_entries (fname : str) (first_id first_index : Z) (chunks : list str)
    : list meta_entry :=
  match chunks with
  | [] => []
  | c :: rest =>
      {| id := py_str first_id;
         m_source := fname;
         m_chunk_index := first_index;
         m_text := slice_to c 4000;
         m_year := extract_year_from_filename fname;
         m_report_year := extract_year_from_filename fname |}
      :: doc_entries fname (first_id + 1) (first_index + 1) rest
  end.

(** The state of the collection after the document [doc], a file name and
    its extracted text, is added to [st]. *)
Definition add_doc (st : collected) (doc : str * str) : collected :=
  let chunks := chunk_document (snd doc) in
  {| all_chunks := all_chunks st ++ chunks;
     metadata := metadata st ++ doc_entries (fst doc) (id_counter st) 0 chunks;
     id_counter := id_counter st + len chunks |}.

(** [extracted data_dir fnames w docs w']: extraction is tried on the files
    [fnames] in order from the world [w]; [docs] lists the files for which
    it worked, with their text, and [w'] is the world afterwards. *)
Inductive extracted (data_dir : str) : list str -> World -> list (str * str) -> World -> Prop :=
  | extracted_nil w : extracted data_dir [] w [] w
  | extracted_ok fname fnames w t w1 docs w2 :
      extract_text_and_tables_from_pdf (os_path_join data_dir fname) w = (Reply t, w1) ->
      extracted data_dir fnames w1 docs w2 ->
      extracted data_dir (fname :: fnames) w ((fname, t) :: docs) w2
  | extracted_failed fname fnames w e w1 docs w2 :
      extract_text_and_tables_from_pdf (os_path_join data_dir fname) w = (Failure e, w1) ->
      extracted data_dir fnames w1 docs w2 ->
      extracted data_dir (fname :: fnames) w docs w2.

End WithExternals.

End Ingest.

(** ** A scripted outside world

    A world in which the replies of the services are laid down in advance;
    vector components are integers.  It serves to run the definitions on
    concrete inputs. *)

Module Script.

Record world := {
  (** the replies the language model gives, in order *)
  chat_replies : list str;
  (** whether the next calls of the embedding service succeed *)
  embed_ok : list bool;
  (** the contents of the metadata file *)
  meta_file : gmap str chunk;
  (** the ranking the index answers with: (distance, row) *)
  neighbours : list (Z * Z);
  (** the directory data/: file name and, when extraction works, its text *)
  files : list (str * option str)
}.

Definition failure {A} (class msg : string) (w : world) : reply A * world :=
  (Failure (Exception (lit class) (lit msg)), w).

Definition chat_create (req : chat_request) (w : world) : reply str * world :=
  match chat_replies w with
  | r :: rest =>
      (Reply r,
       {| chat_replies := rest; embed_ok := embed_ok w; meta_file := meta_file w;
          neighbours := neighbours w; files := files w |})
  | [] => failure "APIError" "no reply" w
  end.

(** The vectors of the scripted service: 3072 times the length of the text. *)
Definition embed_rows (input : list str) : list (list Z) :=
  map (fun t => repeat (len t) 3072) input.

Definition embed_create (m : str) (input : list str) (w : world)
    : reply (list (list Z)) * world :=
  let w' := {| chat_replies := chat_replies w; embed_ok := tail (embed_ok w);
               meta_file := meta_file w; neighbours := neighbours w;
               files := files w |} in
  match embed_ok w with
  | false :: _ => failure "APIError" "embedding failed" w'
  | _ => (Reply (embed_rows input), w')
  end.

(** Exactly [k] pairs: the ranking, then (no neighbour, id -1) fillers. *)
Definition search (ix : index Z) (q : list Z) (k : Z) (w : world)
    : reply (list (Z * Z)) * world :=
  (Reply (take (Z.to_nat k) (neighbours w ++ repeat (1000000, -1) (Z.to_nat k))), w).

Definition extract (path : str) (w : world) : reply str * world :=
  match list_find (fun f => lit "data/" ++ fst f = path) (files w) with
  | Some (_, (_, Some t)) => (Reply t, w)
  | _ => failure "PDFSyntaxError" "cannot read" w
  end.

#[global] Instance externals : Externals world Z := {|
  zero := 0;
  chat_completions_create := chat_create;
  embeddings_create := embed_create;
  os_path_exists := fun _ w => (Reply true, w);
  faiss_read_index := fun _ w => (Reply {| index_d := 3072; index_rows := [] |}, w);
  faiss_write_index := fun _ _ w => (Reply tt, w);
  json_load_meta := fun _ w => (Reply (meta_file w), w);
  json_dump_meta := fun _ _ w => (Reply tt, w);
  index_search := search;
  os_listdir := fun _ w => (Reply (map fst (files w)), w);
  extract_text_and_tables_from_pdf := extract
|}.

(** The same world seen without the index file: [os.path.exists] is false
    for faiss_index.bin. *)
Definition externals_without_index : Externals world Z := {|
  zero := 0;
  chat_completions_create := chat_create;
  embeddings_create := embed_create;
  os_path_exists :=
    fun path w => (Reply (negb (bool_decide (path = lit "faiss_index.bin"))), w);
  faiss_read_index := fun _ w => (Reply {| index_d := 3072; index_rows := [] |}, w);
  faiss_write_index := fun _ _ w => (Reply tt, w);
  json_load_meta := fun _ w => (Reply (meta_file w), w);
  json_dump_meta := fun _ _ w => (Reply tt, w);
  index_search := search;
  os_listdir := fun _ w => (Reply (map fst (files w)), w);
  extract_text_and_tables_from_pdf := extract
|}.

(** The same world with the embedding service down: every call fails. *)
Definition externals_embedding_down : Externals world Z := {|
  zero := 0;
  chat_completions_create := chat_create;
  embeddings_create := fun _ _ w => failure "APIError" "service unavailable" w;
  os_path_exists := fun _ w => (Reply true, w);
  faiss_read_index := fun _ w => (Reply {| index_d := 3072; index_rows := [] |}, w);
  faiss_write_index := fun _ _ w => (Reply tt, w);
  json_load_meta := fun _ w => (Reply (meta_file w), w);
  json_dump_meta := fun _ _ w => (Reply tt, w);
  index_search := search;
  os_listdir := fun _ w => (Reply (map fst (files w)), w);
  extract_text_and_tables_from_pdf := extract
|}.

Definition mk_chunk (src : string) (i : Z) (t : string) (y : Z) : chunk :=
  {| source := lit src; chunk_index := i; text := lit t;
     year := Some y; report_year := Some y |}.

(** Three chunks of three annual reports. *)
Definition meta3 : gmap str chunk :=
  <[ py_str 0 := mk_chunk "ford_2021.pdf" 0 "Revenue was 5 in 2021." 2021 ]>
  (<[ py_str 1 := mk_chunk "ford_2022.pdf" 0 "Revenue was 7 in 2022." 2022 ]>
  (<[ py_str 2 := mk_chunk "ford_2019.pdf" 0 "Revenue was 3 in 2019." 2019 ]> ∅)).

Definition base (replies : list string) : world :=
  {| chat_replies := map lit replies;
     embed_ok := [];
     meta_file := meta3;
     neighbours := [(1, 2); (2, 1); (3, 0)];
     files := [] |}.

End Script.

(** [run_to H c] evaluates the closed run [c] and records its outcome. *)
Ltac run_to H c :=
  let v := eval vm_compute in c in
  assert (c = v) as H by (vm_compute; reflexivity).

(* ------------------------------------------------------------------ *)
(** * Properties *)

Example split_paragraphs :
  split (lit "a

b") nlnl = [lit "a"; lit "b"].
Proof. reflexivity. Qed.

Example slice_negative_start : slice_from (lit "abcdef") (-2) = lit "ef".
Proof. reflexivity. Qed.

Example slice_minus_zero : slice_from (lit "abcdef") (- 0) = lit "abcdef".
Proof. reflexivity. Qed.

Example slice_negative_stop : slice_to [1; 2; 3] (-1) = [1; 2].
Proof. reflexivity. Qed.

Example slice_past_end : slice (lit "abc") 2 10 = lit "c".
Proof. reflexivity. Qed.

Example strip_ex : strip (lit "  - a b
 ") = lit "- a b".
Proof. reflexivity. Qed.

Example split_overlapping_separator :
  split (lit "a


b") nlnl = [lit "a"; nl ++ lit "b"].
Proof. reflexivity. Qed.

Example split_empty : split [] nlnl = [[]].
Proof. reflexivity. Qed.

Example range_ex : py_range 0 250 100 = Some [0; 100; 200].
Proof. reflexivity. Qed.

Example range_exact : py_range 0 200 100 = Some [0; 100].
Proof. reflexivity. Qed.

Example range_negative_step : py_range 0 5 (-1) = Some [].
Proof. reflexivity. Qed.

Example search_year_ex :
  search_year (lit "margin of 1999 vs 2022 and 2023") = Some (lit "2022").
Proof. reflexivity. Qed.

Example findall_markers_ex :
  Query.cited_numbers (lit "a [1], b [[23]] c [x] [4 ] [] [05] [6") = [1; 23; 5].
Proof. reflexivity. Qed.

Example dash_items_ex :
  Query.dash_items (lit "Here:
- first 
  - second
-third
* fourth") = [lit "first"; lit "second"].
Proof. reflexivity. Qed.

Example parse_analysis_ex :
  Query.follow_up_questions
    (Query.parse_analysis (lit "- stray
MISSING INFORMATION:
- margins
FOLLOW-UP QUESTIONS NEEDED:
- What was the margin?
- What was EBIT?"))
  = [lit "What was the margin?"; lit "What was EBIT?"].
Proof. reflexivity. Qed.

Example year_from_filename_ex :
  Ingest.extract_year_from_filename (lit "ford_2021_report.pdf") = 2021
  /\ Ingest.extract_year_from_filename (lit "ford_report.pdf") = 0.
Proof. split; reflexivity. Qed.

Example chunk_text_ex :
  Utils.chunk_text 1 (lit "abcdefghij") 4 1 = Some [lit "abcd"; lit "defg"; lit "ghij"; lit "j"].
Proof. reflexivity. Qed.

Example chunk_by_sections_ex :
  Utils.chunk_by_sections 1 (lit "aaa

bbb") 4 3 = Some [lit "aaa"; lit "aaa

bbb"].
Proof. vm_compute. reflexivity. Qed.

(** ** Strings and slices *)

Lemma length_lstrip (s : str) : (length (lstrip s) <= length s)%nat.
Proof.
  induction s as [|c r IH]; simpl; [lia|].
  destruct (isspace c); simpl; lia.
Qed.

Lemma len_strip_le (s : str) : len (strip s) <= len s.
Proof.
  unfold strip, rstrip, len.
  rewrite length_reverse.
  pose proof (length_lstrip (reverse (lstrip s))) as H1.
  rewrite length_reverse in H1.
  pose proof (length_lstrip s). lia.
Qed.

Lemma len_slice_le {A} (s : list A) (lo hi : Z) :
  0 <= lo -> 0 <= hi -> len (slice s lo hi) <= Z.max 0 (hi - lo).
Proof.
  intros Hlo Hhi. unfold slice, len, clamp_index.
  rewrite length_take, length_drop.
  destruct (Z.ltb_spec lo 0), (Z.ltb_spec hi 0); lia.
Qed.

Lemma len_nonneg {A} (s : list A) : 0 <= len s.
Proof. unfold len. lia. Qed.

Lemma len_nil_iff {A} (s : list A) : len s = 0 <-> s = [].
Proof. unfold len. destruct s; simpl; split; intros; try done; lia. Qed.

Lemma nonempty_true {A} (s : list A) : Utils.nonempty s = true <-> s <> [].
Proof. destruct s; simpl; split; intros; congruence. Qed.

Lemma nonempty_false {A} (s : list A) : Utils.nonempty s = false <-> s = [].
Proof. destruct s; simpl; split; intros; congruence. Qed.

(** ** The chunker *)

Section Chunker.
Import Utils.

(** The loop answers the same with more fuel. *)
Lemma chunk_text_loop_mono fuel text cs ov start acc r :
  chunk_text_loop fuel text cs ov start acc = Some r ->
  forall fuel', (fuel <= fuel')%nat ->
  chunk_text_loop fuel' text cs ov start acc = Some r.
Proof.
  revert start acc. induction fuel as [|fuel IH]; intros start acc Hrun fuel' Hle.
  - discriminate.
  - destruct fuel' as [|fuel']; [lia|]. simpl in *.
    destruct (start <? len text); [|done].
    apply IH; [done | lia].
Qed.

(** With [overlap < chunk_size] the loop ends once the fuel exceeds the
    distance to the end of the text; it adds pieces of at most [chunk_size]
    characters, and at least one when it runs at all. *)
Lemma chunk_text_loop_total fuel text cs ov start acc :
  ov < cs -> 0 <= start -> (1 <= fuel)%nat -> len text - start < Z.of_nat fuel ->
  exists r,
    chunk_text_loop fuel text cs ov start acc = Some (acc ++ r)
    /\ (0 <= cs -> Forall (fun c => len c <= cs) r)
    /\ (start < len text -> r <> []).
Proof.
  intros Hov. revert start acc.
  induction fuel as [|fuel IH]; intros start acc Hstart Hpos Hfuel; [lia|].
  simpl. destruct (Z.ltb_spec start (len text)) as [Hlt|Hge].
  - destruct (IH (start + (cs - ov)) (acc ++ [strip (slice text start
                (Z.min (start + cs) (len text)))])) as (r & Hr & Hbound & _);
      [lia | lia | lia |].
    eexists (_ :: r). split; [|split].
    + rewrite Hr, <- app_assoc. reflexivity.
    + intros Hcs. constructor; [|auto].
      etransitivity; [apply len_strip_le|].
      etransitivity; [apply len_slice_le; lia|]. lia.
    + done.
  - exists []. split; [|split].
    + by rewrite app_nil_r.
    + constructor.
    + lia.
Qed.

(** With [chunk_size <= overlap] the scan position never moves forward, so
    the loop condition stays true whatever the fuel. *)
Lemma chunk_text_loop_diverges fuel text cs ov start acc :
  cs <= ov -> start < len text ->
  chunk_text_loop fuel text cs ov start acc = None.
Proof.
  intros Hov. revert start acc.
  induction fuel as [|fuel IH]; intros start acc Hlt; [done|].
  simpl. destruct (Z.ltb_spec start (len text)); [|lia].
  apply IH. lia.
Qed.

(** With enough fuel the loop returns what the well-founded recursion
    computes. *)
Lemma chunk_text_loop_wf fuel text cs ov (Hstep : ov < cs) start acc :
  (1 <= fuel)%nat -> len text - start < Z.of_nat fuel ->
  chunk_text_loop fuel text cs ov start acc
  = Some (chunk_text_wf text cs ov Hstep start acc).
Proof.
  revert start acc.
  induction fuel as [|fuel IH]; intros start acc Hpos Hfuel; [lia|].
  simpl. rewrite chunk_text_wf_equation_1.
  destruct (Z.ltb_spec start (len text)), (Z_lt_dec start (len text));
    try lia; simpl; [|done].
  apply IH; lia.
Qed.

Lemma chunk_text_total text cs ov :
  ov < cs ->
  exists r,
    (forall fuel, (1 <= fuel)%nat -> chunk_text fuel text cs ov = Some r)
    /\ (0 <= cs -> Forall (fun c => len c <= cs) r)
    /\ (text <> [] -> r <> []).
Proof.
  intros Hov.
  destruct (chunk_text_loop_total (1 + length text) text cs ov 0 [] Hov)
    as (r & Hr & Hbound & Hne); [lia | lia | unfold len; lia |].
  exists r. split; [|split].
  - intros fuel Hfuel. unfold chunk_text.
    eapply chunk_text_loop_mono; [exact Hr | lia].
  - done.
  - intros Htext. apply Hne. destruct text; [done|]. unfold len. simpl. lia.
Qed.

Lemma chunk_text_diverges fuel text cs ov :
  cs <= ov -> text <> [] -> chunk_text fuel text cs ov = None.
Proof.
  intros Hov Htext. unfold chunk_text.
  apply chunk_text_loop_diverges; [done|].
  destruct text; [done|]. unfold len. simpl. lia.
Qed.

Lemma split_oversize_total cs ov chunks final :
  ov < cs ->
  exists r,
    (forall fuel, (1 <= fuel)%nat ->
       split_oversize fuel cs ov chunks final = Some (final ++ r))
    /\ (0 < cs -> Forall (fun c => len c <= 2 * cs) r)
    /\ (0 < cs -> chunks <> [] -> r <> []).
Proof.
  intros Hov. revert final.
  induction chunks as [|chunk rest IH]; intros final.
  - exists []. split; [|split]; [|constructor|done].
    intros. simpl. by rewrite app_nil_r.
  - simpl. destruct (Z.gtb_spec (len chunk) (cs * 2)) as [Hbig|Hsmall].
    + destruct (chunk_text_total chunk cs ov Hov) as (sub & Hsub & Hbound & Hne).
      destruct (IH (final ++ sub)) as (r & Hr & Hrb & _).
      exists (sub ++ r). split; [|split].
      * intros fuel Hfuel. rewrite (Hsub fuel Hfuel), (Hr fuel Hfuel).
        by rewrite app_assoc.
      * intros Hcs. apply Forall_app. split; [|auto].
        eapply Forall_impl; [apply Hbound; lia|]. simpl. intros; lia.
      * intros Hcs _ Heq. apply app_eq_nil in Heq as [Heq _].
        apply Hne; [|done]. intros ->. unfold len in Hbig. simpl in Hbig. lia.
    + destruct (IH (final ++ [chunk])) as (r & Hr & Hrb & _).
      exists (chunk :: r). split; [|split].
      * intros fuel Hfuel. rewrite (Hr fuel Hfuel), <- app_assoc. reflexivity.
      * intros Hcs. constructor; [lia | auto].
      * done.
Qed.

Lemma chunk_by_sections_total text cs ov :
  ov < cs ->
  exists chunks,
    (forall fuel, (1 <= fuel)%nat ->
       chunk_by_sections fuel text cs ov = Some chunks)
    /\ (0 < cs -> text <> [] -> chunks <> [])
    /\ (0 < cs -> Forall (fun c => len c <= 2 * cs) chunks).
Proof.
  intros Hov. unfold chunk_by_sections.
  destruct (split_oversize_total cs ov (semantic_chunks text cs ov) [] Hov)
    as (r & Hr & Hbound & Hne).
  destruct (chunk_text_total text cs ov Hov) as (fb & Hfb & Hfbb & Hfbne).
  destruct r as [|c r'].
  - exists fb. split; [|split].
    + intros fuel Hfuel. rewrite (Hr fuel Hfuel). simpl. auto.
    + auto.
    + intros Hcs. eapply Forall_impl; [apply Hfbb; lia|]. simpl. intros; lia.
  - exists (c :: r'). split; [|split].
    + intros fuel Hfuel. rewrite (Hr fuel Hfuel). reflexivity.
    + done.
    + auto.
Qed.

Lemma split_oversize_resplit cs ov chunks final fuel :
  ov < cs -> (1 <= fuel)%nat ->
  split_oversize fuel cs ov chunks final
  = Some (final ++ flat_map (resplit cs ov) chunks).
Proof.
  intros Hov Hfuel. revert final.
  induction chunks as [|chunk rest IH]; intros final; simpl.
  - by rewrite app_nil_r.
  - unfold resplit at 1.
    destruct (len chunk >? cs * 2).
    + destruct (chunk_text_total chunk cs ov Hov) as (sub & Hsub & _).
      rewrite (Hsub fuel Hfuel), (Hsub 1%nat (le_n 1)). simpl.
      by rewrite IH, app_assoc.
    + by rewrite IH, <- app_assoc.
Qed.

(** C4: for a non-empty text and 0 < overlap < chunk_size,
    [chunk_by_sections] returns (with any fuel of at least 1, and always the
    same list) at least one chunk, every chunk is at most 2 * chunk_size
    characters long, and the list is the paragraph-accumulated chunks with
    each chunk longer than 2 * chunk_size replaced by its fixed-width
    windows (or the windows of the whole text when that list is empty). *)
Theorem chunk_by_sections_bounded (text : str) (chunk_size overlap : Z) :
  text <> [] -> 0 < overlap -> overlap < chunk_size ->
  exists chunks,
    (forall fuel, (1 <= fuel)%nat ->
       chunk_by_sections fuel text chunk_size overlap = Some chunks)
    /\ (1 <= length chunks)%nat
    /\ Forall (fun c => len c <= 2 * chunk_size) chunks
    /\ chunks =
       (let resplit_chunks :=
          flat_map (resplit chunk_size overlap)
            (semantic_chunks text chunk_size overlap) in
        if nonempty resplit_chunks then resplit_chunks
        else default [] (chunk_text 1 text chunk_size overlap)).
Proof.
  intros Htext Hov0 Hov.
  destruct (chunk_by_sections_total text chunk_size overlap Hov)
    as (chunks & Hrun & Hne & Hbound).
  exists chunks. split; [done|]. split; [|split].
  - specialize (Hne ltac:(lia) Htext). destruct chunks; [done|]. simpl. lia.
  - apply Hbound. lia.
  - specialize (Hrun 1%nat (le_n 1)). unfold chunk_by_sections in Hrun.
    rewrite split_oversize_resplit in Hrun by (done || lia). simpl in Hrun.
    destruct (flat_map _ _) as [|c r] eqn:Hflat; simpl in *.
    + by rewrite Hrun.
    + by inversion Hrun.
Qed.

Lemma chunk_by_sections_bounded_witness :
  exists chunks,
    (forall fuel, (1 <= fuel)%nat ->
       chunk_by_sections fuel (lit "Revenue grew.

Costs fell.") 8 3 = Some chunks)
    /\ (1 <= length chunks)%nat
    /\ Forall (fun c => len c <= 2 * 8) chunks
    /\ chunks =
       (let resplit_chunks :=
          flat_map (resplit 8 3)
            (semantic_chunks (lit "Revenue grew.

Costs fell.") 8 3) in
        if nonempty resplit_chunks then resplit_chunks
        else default [] (chunk_text 1 (lit "Revenue grew.

Costs fell.") 8 3)).
Proof.
  apply (chunk_by_sections_bounded (lit "Revenue grew.

Costs fell.") 8 3); [done | lia | lia].
Defined.

(** C9: the scan position of [chunk_text] moves by chunk_size - overlap per
    iteration; [chunk_text] returns for every text exactly when
    overlap < chunk_size, and then returns what the well-founded recursion
    on the remaining length computes; with overlap >= chunk_size it returns
    for no non-empty text whatever the fuel; and [chunk_by_sections], which
    calls it, returns for every text under the same condition only. *)
Theorem chunk_text_terminates_iff (chunk_size overlap : Z) :
  (forall fuel text start acc,
     start < len text ->
     chunk_text_loop (S fuel) text chunk_size overlap start acc
     = chunk_text_loop fuel text chunk_size overlap
         (start + (chunk_size - overlap))
         (acc ++ [strip (slice text start
                           (Z.min (start + chunk_size) (len text)))]))
  /\ ((forall text, exists chunks, forall fuel, (1 <= fuel)%nat ->
         chunk_text fuel text chunk_size overlap = Some chunks)
      <-> overlap < chunk_size)
  /\ (forall (Hstep : overlap < chunk_size) text fuel, (1 <= fuel)%nat ->
        chunk_text fuel text chunk_size overlap
        = Some (chunk_text_wf text chunk_size overlap Hstep 0 []))
  /\ (chunk_size <= overlap ->
      forall text, text <> [] ->
      forall fuel, chunk_text fuel text chunk_size overlap = None)
  /\ ((forall text, exists chunks, forall fuel, (1 <= fuel)%nat ->
         chunk_by_sections fuel text chunk_size overlap = Some chunks)
      <-> overlap < chunk_size).
Proof.
  split; [|split; [|split; [|split]]].
  - intros fuel text start acc Hlt. simpl.
    destruct (Z.ltb_spec start (len text)); [done | lia].
  - split.
    + intros Hall. destruct (Z.lt_ge_cases overlap chunk_size) as [|Hge]; [done|].
      destruct (Hall (lit " ")) as (chunks & Hrun).
      specialize (Hrun 1%nat (le_n 1)).
      rewrite chunk_text_diverges in Hrun by (done || lia). discriminate.
    + intros Hov text.
      destruct (chunk_text_total text chunk_size overlap Hov) as (r & Hr & _).
      eauto.
  - intros Hstep text fuel Hfuel. unfold chunk_text.
    apply chunk_text_loop_wf; unfold len; lia.
  - intros Hge text Htext fuel. by apply chunk_text_diverges.
  - split.
    + intros Hall. destruct (Z.lt_ge_cases overlap chunk_size) as [|Hge]; [done|].
      destruct (Hall (lit " ")) as (chunks & Hrun).
      specialize (Hrun 1%nat (le_n 1)).
      unfold chunk_by_sections in Hrun. simpl in Hrun.
      rewrite chunk_text_diverges in Hrun by (done || lia). discriminate.
    + intros Hov text.
      destruct (chunk_by_sections_total text chunk_size overlap Hov)
        as (r & Hr & _).
      eauto.
Qed.

(** With the arguments of the ingestion script the chunker always returns. *)
Lemma chunk_document_total text :
  chunk_by_sections 1 text 1200 300 = Some (Ingest.chunk_document text).
Proof.
  destruct (chunk_by_sections_total text 1200 300 ltac:(lia)) as (chunks & Hrun & _).
  unfold Ingest.chunk_document. by rewrite (Hrun 1%nat (le_n 1)).
Qed.

End Chunker.

(** ** Running computations *)

Section Runs.
Context {World : Type}.

Lemma bind_Ok_inv {A B} (c : M World A) (k : A -> M World B) w b w' :
  bind c k w = (Ok b, w') ->
  exists a w1, c w = (Ok a, w1) /\ k a w1 = (Ok b, w').
Proof.
  unfold bind. destruct (c w) as [[a|e|n] w1]; intros Hrun; try discriminate.
  eauto.
Qed.

Lemma bind_Ok {A B} (c : M World A) (k : A -> M World B) w a w1 :
  c w = (Ok a, w1) -> bind c k w = k a w1.
Proof. unfold bind. by intros ->. Qed.

Lemma call_Ok_inv {A} (op : World -> reply A * World) w a w' :
  call op w = (Ok a, w') -> op w = (Reply a, w').
Proof.
  unfold call. destruct (op w) as [[a'|e] w1]; intros Hrun; by inversion Hrun.
Qed.

Lemma call_Ok {A} (op : World -> reply A * World) w a w' :
  op w = (Reply a, w') -> call op w = (Ok a, w').
Proof. unfold call. by intros ->. Qed.

End Runs.

Lemma slice_to_take {A} (s : list A) (k : Z) :
  0 <= k -> slice_to s k = take (Z.to_nat k) s.
Proof.
  intros Hk. unfold slice_to, slice, clamp_index, len.
  destruct (Z.ltb_spec 0 0); [lia|]. destruct (Z.ltb_spec k 0); [lia|].
  replace (Z.to_nat (0 `min` Z.of_nat (length s))) with 0%nat by lia.
  rewrite drop_0.
  destruct (Z.le_ge_cases k (Z.of_nat (length s))).
  - f_equal. lia.
  - rewrite !take_ge by lia. done.
Qed.

(** ** The retriever *)

Section Retriever.
Context {World float : Type} `{!Externals World float}.
Import Query.

Lemma consider_accepts target_year results c :
  consider target_year results c
  = if accepts target_year c then results ++ [c] else results.
Proof.
  unfold consider, accepts. destruct target_year as [ty|]; [|done].
  destruct (ty =? 0); simpl; [done|].
  destruct (Z.eqb_spec (get_year c) ty) as [->|Hne]; [|done].
  replace (ty - ty) with 0 by lia. done.
Qed.

(** While fewer than [k] results are held, the loop adds the accepted
    resolved neighbours in search order until [k] are held. *)
Lemma retrieve_loop_take meta k target_year I0 acc :
  len acc < k ->
  retrieve_loop meta k target_year I0 acc
  = acc ++ take (Z.to_nat (k - len acc))
             (filter (fun c => accepts target_year c) (resolved meta I0)).
Proof.
  unfold resolved.
  revert acc. induction I0 as [|idx rest IH]; intros acc Hacc; simpl.
  - by rewrite filter_nil, take_nil, app_nil_r.
  - destruct (meta !! py_str idx) as [c|] eqn:Hidx; simpl; [|by apply IH].
    rewrite consider_accepts.
    destruct (accepts target_year c) eqn:Hacc_c.
    + rewrite filter_cons_True by (by rewrite Hacc_c).
      assert (len (acc ++ [c]) = len acc + 1) as Hlen
        by (unfold len; rewrite length_app; simpl; lia).
      destruct (Z.geb_spec (len (acc ++ [c])) k) as [Hfull|Hroom].
      * replace (Z.to_nat (k - len acc)) with 1%nat by lia.
        simpl. by rewrite take_0.
      * rewrite IH by lia. rewrite Hlen, <- app_assoc. simpl.
        replace (Z.to_nat (k - len acc)) with (S (Z.to_nat (k - (len acc + 1))))
          by lia.
        done.
    + rewrite filter_cons_False by (rewrite Hacc_c; intros []).
      destruct (Z.geb_spec (len acc) k); [lia|]. by apply IH.
Qed.

Lemma retrieve_results meta k target_year I0 :
  0 <= k ->
  slice_to (retrieve_loop meta k target_year I0 []) k
  = take (Z.to_nat k)
      (filter (fun c => accepts target_year c) (resolved meta I0)).
Proof.
  intros Hk. rewrite slice_to_take by done.
  destruct (decide (k = 0)) as [->|Hne]; [by rewrite !take_0|].
  rewrite retrieve_loop_take by (unfold len; simpl; lia).
  simpl. unfold len. simpl. rewrite Z.sub_0_r, take_take.
  f_equal. lia.
Qed.

(** Whatever [k], the loop adds a prefix of the accepted resolved neighbours. *)
Lemma retrieve_loop_prefix meta k target_year I0 acc :
  exists n,
    retrieve_loop meta k target_year I0 acc
    = acc ++ take n (filter (fun c => accepts target_year c) (resolved meta I0)).
Proof.
  unfold resolved.
  revert acc. induction I0 as [|idx rest IH]; intros acc; simpl.
  - exists 0%nat. by rewrite app_nil_r.
  - destruct (meta !! py_str idx) as [c|]; simpl; [|by apply IH].
    rewrite consider_accepts.
    destruct (accepts target_year c) eqn:Hc.
    + rewrite filter_cons_True by (by rewrite Hc).
      destruct (len (acc ++ [c]) >=? k).
      * exists 1%nat. simpl. by rewrite take_0.
      * destruct (IH (acc ++ [c])) as [n Hn]. exists (S n).
        rewrite Hn, <- app_assoc. done.
    + rewrite filter_cons_False by (rewrite Hc; intros []).
      destruct (len acc >=? k); [|by apply IH].
      exists 0%nat. by rewrite take_0, app_nil_r.
Qed.

Lemma slice_to_prefix {A} (s : list A) (k : Z) : exists m, slice_to s k = take m s.
Proof.
  unfold slice_to, slice. eexists.
  replace (Z.to_nat (clamp_index (len s) 0)) with 0%nat; [by rewrite drop_0|].
  unfold clamp_index, len. simpl. lia.
Qed.

(** The chunks returned are a prefix of the accepted resolved neighbours,
    the first [k] of them when [k] is not negative. *)
Lemma retrieve_results_prefix meta k target_year I0 :
  exists n,
    slice_to (retrieve_loop meta k target_year I0 []) k
    = take n (filter (fun c => accepts target_year c) (resolved meta I0))
    /\ (0 <= k -> n = Z.to_nat k).
Proof.
  destruct (Z.le_gt_cases 0 k) as [Hk|Hk].
  - exists (Z.to_nat k). split; [by apply retrieve_results | done].
  - destruct (retrieve_loop_prefix meta k target_year I0 []) as [n Hn].
    destruct (slice_to_prefix (retrieve_loop meta k target_year I0 []) k)
      as [m Hm].
    exists (min m n). split; [|lia].
    rewrite Hm, Hn. simpl. by rewrite take_take.
Qed.

(** A run of [retrieve] that returns has loaded the index and the metadata,
    embedded the query and searched once, with depth [search_k]. *)
Lemma retrieve_inv query k target_year w res w' :
  retrieve query k target_year w = (Ok res, w') ->
  exists ix meta q_emb DI w1 w2 w3,
    load_index INDEX_PATH w = (Ok ix, w1)
    /\ load_meta META_PATH w1 = (Ok meta, w2)
    /\ embed_query query w2 = (Ok q_emb, w3)
    /\ index_search ix q_emb (search_k k target_year) w3 = (Reply DI, w')
    /\ res = slice_to (retrieve_loop meta k target_year (map snd DI) []) k.
Proof.
  unfold retrieve. intros Hrun.
  apply bind_Ok_inv in Hrun as (ix & w1 & Hix & Hrun).
  apply bind_Ok_inv in Hrun as (meta & w2 & Hmeta & Hrun).
  apply bind_Ok_inv in Hrun as (q_emb & w3 & Hemb & Hrun).
  apply bind_Ok_inv in Hrun as (DI & w4 & Hsearch & Hrun).
  apply call_Ok_inv in Hsearch. inversion Hrun; subst.
  exists ix, meta, q_emb, DI, w1, w2, w3. done.
Qed.

Lemma resolved_ranked_snd meta (DI : list (float * Z)) :
  resolved meta (map snd DI) = map snd (resolved_ranked meta DI).
Proof.
  unfold resolved, resolved_ranked.
  induction DI as [|[d idx] rest IH]; simpl; [done|].
  destruct (meta !! py_str idx); simpl; [f_equal|]; exact IH.
Qed.

Lemma filter_map_snd {A B} (P : B -> bool) (l : list (A * B)) :
  filter (fun b => P b) (map snd l) = map snd (filter (fun ab => P (snd ab)) l).
Proof.
  induction l as [|[a b] l IH]; [done|]. simpl.
  destruct (P b) eqn:HP.
  - rewrite !filter_cons_True by (simpl; by rewrite HP). simpl. by rewrite IH.
  - rewrite !filter_cons_False by (simpl; rewrite HP; intros []). done.
Qed.

Lemma resolved_ranked_sublist meta (DI : list (float * Z)) :
  map fst (resolved_ranked meta DI) `sublist_of` map fst DI.
Proof.
  unfold resolved_ranked.
  induction DI as [|[d idx] rest IH]; simpl; [constructor|].
  destruct (meta !! py_str idx); simpl; by constructor.
Qed.

Lemma fmap_sublist {A B} (f : A -> B) (l1 l2 : list A) :
  l1 `sublist_of` l2 -> map f l1 `sublist_of` map f l2.
Proof. induction 1; simpl; by constructor. Qed.

Lemma StronglySorted_sublist {A} (R : A -> A -> Prop) (l1 l2 : list A) :
  l1 `sublist_of` l2 -> StronglySorted R l2 -> StronglySorted R l1.
Proof.
  induction 1 as [|x l1 l2 Hsub IH|x l1 l2 Hsub IH]; intros Hsorted.
  - constructor.
  - apply StronglySorted_inv in Hsorted as [Hs Hall]. constructor; [auto|].
    rewrite Forall_forall in Hall |- *. intros y Hy. apply Hall.
    by eapply elem_of_sublist.
  - apply StronglySorted_inv in Hsorted as [Hs _]. auto.
Qed.

Lemma accepts_falsy target_year c :
  truthy target_year = false -> accepts target_year c = true.
Proof.
  unfold truthy, accepts. destruct target_year as [ty|]; [|done].
  by intros ->.
Qed.

Lemma filter_all {A} (P : A -> bool) (l : list A) :
  (forall x, P x = true) -> filter (fun x => P x) l = l.
Proof.
  intros HP. induction l as [|x l IH]; [done|].
  rewrite filter_cons_True by (by rewrite HP). by rewrite IH.
Qed.

Lemma accepts_truthy Y c :
  Y <> 0 -> (accepts (Some Y) c <-> Z.abs (get_year c - Y) <= 1).
Proof.
  intros HY. unfold accepts.
  destruct (Z.eqb_spec Y 0); [done|]. simpl.
  destruct (Z.leb_spec (Z.abs (get_year c - Y)) 1); simpl; split; intros; try done; lia.
Qed.

Lemma retrieve_loop_zero meta k I0 acc :
  retrieve_loop meta k (Some 0) I0 acc = retrieve_loop meta k None I0 acc.
Proof.
  revert acc. induction I0 as [|idx rest IH]; intros acc; simpl; [done|].
  destruct (meta !! py_str idx); [|done].
  destruct (len (acc ++ [c]) >=? k); [done|]. apply IH.
Qed.

(** C2: a run of [retrieve] with k > 0 and a non-zero target year Y that
    returns has searched the index with depth 3k; it returns the first k, in
    search order, of the neighbours that resolve in the metadata and whose
    year (0 when absent) is within 1 of Y.  So it returns at most k chunks,
    every one within 1 of Y, and when fewer than k such chunks are among
    the neighbours it returns exactly those and nothing else. *)
Theorem retrieve_target_year query k Y w res w' :
  0 < k -> Y <> 0 ->
  retrieve query k (Some Y) w = (Ok res, w') ->
  exists ix meta q_emb DI w1 w2 w3,
    load_index INDEX_PATH w = (Ok ix, w1)
    /\ load_meta META_PATH w1 = (Ok meta, w2)
    /\ embed_query query w2 = (Ok q_emb, w3)
    /\ index_search ix q_emb (k * 3) w3 = (Reply DI, w')
    /\ let valid :=
         filter (fun c => Z.abs (get_year c - Y) <= 1)
           (resolved meta (map snd DI)) in
       res = take (Z.to_nat k) valid
       /\ len res <= k
       /\ Forall (fun c => Z.abs (get_year c - Y) <= 1) res
       /\ (len valid < k -> res = valid /\ len res < k).
Proof.
  intros Hk HY Hrun.
  apply retrieve_inv in Hrun
    as (ix & meta & q_emb & DI & w1 & w2 & w3 & Hix & Hmeta & Hemb & Hsearch & ->).
  exists ix, meta, q_emb, DI, w1, w2, w3.
  assert (search_k k (Some Y) = k * 3) as Hdepth.
  { unfold search_k, truthy. by destruct (Z.eqb_spec Y 0). }
  rewrite Hdepth in Hsearch.
  repeat (split; [done|]).
  rewrite retrieve_results by lia.
  rewrite (list_filter_iff (fun c => accepts (Some Y) c)
             (fun c => Z.abs (get_year c - Y) <= 1))
    by (intros c; by apply accepts_truthy).
  cbv zeta. set (valid := filter _ _).
  split; [done|]. split; [|split].
  - unfold len. rewrite length_take. lia.
  - apply Forall_take. unfold valid. apply Forall_forall.
    intros c Hc. by apply list_elem_of_filter in Hc as [? _].
  - intros Hfew. unfold len in *. rewrite take_ge by lia. split; [done | lia].
Qed.

(** C8: a run of [retrieve] that returns has searched the index once, with
    depth 3k when the target year is set (neither None nor 0) and k
    otherwise.  The chunks returned are, in the order of the search, a
    subsequence of the neighbours that resolve in the metadata, so their
    distances are sorted whenever the distances of the search are.  For
    k >= 0 there are at most k of them, and with no target year they are
    the first k resolved neighbours. *)
Theorem retrieve_search_depth_and_order query k target_year w res w' :
  retrieve query k target_year w = (Ok res, w') ->
  exists ix meta q_emb DI w1 w2 w3,
    load_index INDEX_PATH w = (Ok ix, w1)
    /\ load_meta META_PATH w1 = (Ok meta, w2)
    /\ embed_query query w2 = (Ok q_emb, w3)
    /\ index_search ix q_emb (if truthy target_year then k * 3 else k) w3
       = (Reply DI, w')
    /\ exists picks : list (float * chunk),
         res = map snd picks
         /\ picks `sublist_of` resolved_ranked meta DI
         /\ map fst picks `sublist_of` map fst DI
         /\ (forall R : float -> float -> Prop,
               StronglySorted R (map fst DI) -> StronglySorted R (map fst picks))
         /\ (0 <= k -> len res <= k)
         /\ (0 <= k -> truthy target_year = false ->
             res = take (Z.to_nat k) (resolved meta (map snd DI))).
Proof.
  intros Hrun.
  apply retrieve_inv in Hrun
    as (ix & meta & q_emb & DI & w1 & w2 & w3 & Hix & Hmeta & Hemb & Hsearch & ->).
  exists ix, meta, q_emb, DI, w1, w2, w3.
  repeat (split; [done|]).
  destruct (retrieve_results_prefix meta k target_year (map snd DI))
    as (n & -> & Hn).
  set (picks := take n (filter (fun dc => accepts target_year (snd dc))
                          (resolved_ranked meta DI))).
  assert (picks `sublist_of` resolved_ranked meta DI) as Hsub.
  { unfold picks. etransitivity; [apply sublist_take | apply sublist_filter]. }
  assert (map fst picks `sublist_of` map fst DI) as Hdist.
  { etransitivity; [apply fmap_sublist, Hsub | apply resolved_ranked_sublist]. }
  exists picks. split; [|split; [done|split; [done|split; [|split]]]].
  - unfold picks. by rewrite resolved_ranked_snd, filter_map_snd, firstn_map.
  - intros R HR. by eapply StronglySorted_sublist.
  - intros Hk. unfold len. rewrite length_take. lia.
  - intros Hk Hnone. rewrite (Hn Hk), filter_all; [done|].
    intros c. by apply accepts_falsy.
Qed.

(** C10: [retrieve] with target year 0 runs exactly as with no target year:
    the search depth is k, not 3k, every resolved neighbour is kept, and the
    two calls end with the same result in the same world.  Ingestion gives
    year 0 to a file whose name holds no year. *)
Theorem retrieve_year_zero query k w :
  retrieve query k (Some 0) w = retrieve query k None w
  /\ search_k k (Some 0) = k
  /\ (forall results c, consider (Some 0) results c = results ++ [c])
  /\ Ingest.extract_year_from_filename (lit "annual_report.pdf") = 0.
Proof.
  split; [|by repeat split].
  unfold retrieve, search_k, bind. simpl.
  destruct (load_index INDEX_PATH w) as [[ix|e|n] w1]; [|done..].
  destruct (load_meta META_PATH w1) as [[meta|e|n] w2]; [|done..].
  destruct (embed_query query w2) as [[q_emb|e|n] w3]; [|done..].
  destruct (call (index_search ix q_emb k) w3) as [[DI|e|n] w4]; [|done..].
  by rewrite retrieve_loop_zero.
Qed.

End Retriever.

(** ** Runs in the scripted world: the retriever *)

Lemma retrieve_target_year_witness :
  0 < 2 /\ 2022 <> 0
  /\ Query.retrieve (lit "revenue in 2022") 2 (Some 2022) (Script.base [])
     = (Ok [Script.mk_chunk "ford_2022.pdf" 0 "Revenue was 7 in 2022." 2022;
            Script.mk_chunk "ford_2021.pdf" 0 "Revenue was 5 in 2021." 2021],
        Script.base [])
  /\ Forall (fun c => Z.abs (Query.get_year c - 2022) <= 1)
       [Script.mk_chunk "ford_2022.pdf" 0 "Revenue was 7 in 2022." 2022;
        Script.mk_chunk "ford_2021.pdf" 0 "Revenue was 5 in 2021." 2021].
Proof.
  assert (Query.retrieve (lit "revenue in 2022") 2 (Some 2022) (Script.base [])
          = (Ok [Script.mk_chunk "ford_2022.pdf" 0 "Revenue was 7 in 2022." 2022;
                 Script.mk_chunk "ford_2021.pdf" 0 "Revenue was 5 in 2021." 2021],
             Script.base [])) as Hrun by (vm_compute; reflexivity).
  split; [lia|]. split; [lia|]. split; [exact Hrun|].
  destruct (retrieve_target_year _ 2 2022 _ _ _ ltac:(lia) ltac:(lia) Hrun)
    as (ix & meta & q_emb & DI & w1 & w2 & w3 & _ & _ & _ & _ & _ & _ & Hall & _).
  exact Hall.
Defined.

Lemma retrieve_search_depth_and_order_witness :
  Query.retrieve (lit "revenue") 2 None (Script.base [])
     = (Ok [Script.mk_chunk "ford_2019.pdf" 0 "Revenue was 3 in 2019." 2019;
            Script.mk_chunk "ford_2022.pdf" 0 "Revenue was 7 in 2022." 2022],
        Script.base [])
  /\ len [Script.mk_chunk "ford_2019.pdf" 0 "Revenue was 3 in 2019." 2019;
          Script.mk_chunk "ford_2022.pdf" 0 "Revenue was 7 in 2022." 2022] <= 2.
Proof.
  assert (Query.retrieve (lit "revenue") 2 None (Script.base [])
          = (Ok [Script.mk_chunk "ford_2019.pdf" 0 "Revenue was 3 in 2019." 2019;
                 Script.mk_chunk "ford_2022.pdf" 0 "Revenue was 7 in 2022." 2022],
             Script.base [])) as Hrun by (vm_compute; reflexivity).
  split; [exact Hrun|].
  destruct (retrieve_search_depth_and_order _ 2 None _ _ _ Hrun)
    as (ix & meta & q_emb & DI & w1 & w2 & w3 & _ & _ & _ & _
        & picks & _ & _ & _ & _ & Hlen & _).
  apply Hlen. lia.
Defined.

(** ** The sub-question answerer *)

Section Answerer.
Context {World float : Type} `{!Externals World float}.
Import Query.

(** The citation loop keeps, in order, one citation for each marker within
    [1, len hits] and nothing for the others. *)
Lemma cite_loop hits nums acc :
  fold_left (cite_step hits) nums acc
  = acc ++ omap (fun n => citation n <$> hits !! Z.to_nat (n - 1))
             (filter (fun n => 1 <= n <= len hits) nums).
Proof.
  revert acc. induction nums as [|n nums IH]; intros acc; simpl.
  - by rewrite app_nil_r.
  - rewrite IH. unfold cite_step.
    destruct (Z.leb_spec 1 n) as [H1|H1]; simpl.
    + destruct (Z.leb_spec n (len hits)) as [H2|H2].
      * rewrite filter_cons_True by lia. simpl.
        destruct (hits !! Z.to_nat (n - 1)) as [c|]; simpl; [|done].
        by rewrite <- app_assoc.
      * by rewrite filter_cons_False by lia.
    + by rewrite filter_cons_False by lia.
Qed.

Lemma in_range_lookup (hits : list chunk) n :
  1 <= n <= len hits -> is_Some (hits !! Z.to_nat (n - 1)).
Proof. intros Hn. apply lookup_lt_is_Some. unfold len in Hn. lia. Qed.

Lemma cite_loop_length hits nums :
  length (fold_left (cite_step hits) nums [])
  = length (filter (fun n => 1 <= n <= len hits) nums).
Proof.
  rewrite cite_loop. simpl.
  induction nums as [|n nums IH]; [done|].
  destruct (decide (1 <= n <= len hits)) as [Hn|Hn].
  - rewrite filter_cons_True by done. simpl.
    destruct (in_range_lookup hits n Hn) as [c ->]. simpl. f_equal. exact IH.
  - by rewrite filter_cons_False by done.
Qed.

(** C7: when retrieval returns no chunk, [answer_sub_question] returns the
    sentinel result (answer "No relevant information found.", no chunks, no
    sources) without calling the language model.  Otherwise, for the answer
    text the model gives, the sources are, in the order of the markers [n]
    of the text, one citation of the n-th retrieved chunk (its source and
    chunk_index) for each marker with 1 <= n <= number of chunks, and
    nothing for any other marker. *)
Theorem answer_sub_question_citations sub_question target_year w hits w1 :
  retrieve sub_question 4 target_year w = (Ok hits, w1) ->
  (hits = [] ->
   answer_sub_question sub_question target_year w
   = (Ok {| question := sub_question;
            answer := lit "No relevant information found.";
            chunks := [];
            sources := [] |}, w1))
  /\ (hits <> [] ->
      forall answer_text w2,
        chat_completions_create (answer_request sub_question hits) w1
        = (Reply answer_text, w2) ->
        let cited := cited_numbers answer_text in
        let in_range := filter (fun n => 1 <= n <= len hits) cited in
        exists srcs,
          answer_sub_question sub_question target_year w
          = (Ok {| question := sub_question;
                   answer := answer_text;
                   chunks := hits;
                   sources := srcs |}, w2)
          /\ srcs = omap (fun n => citation n <$> hits !! Z.to_nat (n - 1)) in_range
          /\ length srcs = length in_range
          /\ (forall n, n ∈ cited -> 1 <= n <= len hits ->
                exists c, hits !! Z.to_nat (n - 1) = Some c /\ citation n c ∈ srcs)
          /\ (forall s, s ∈ srcs ->
                exists n c, n ∈ cited /\ 1 <= n <= len hits
                            /\ hits !! Z.to_nat (n - 1) = Some c
                            /\ s = citation n c)).
Proof.
  intros Hret. unfold answer_sub_question. rewrite (bind_Ok _ _ _ _ _ Hret).
  split.
  - intros ->. reflexivity.
  - intros Hne answer_text w2 Hchat.
    set (cited := cited_numbers answer_text).
    set (in_range := filter _ cited).
    destruct hits as [|h hits']; [done|]. simpl.
    rewrite (bind_Ok _ _ _ _ _ (call_Ok _ _ _ _ Hchat)).
    eexists. split; [reflexivity|].
    fold cited. rewrite cite_loop. simpl. fold in_range.
    split; [done|]. split; [|split].
    + pose proof (cite_loop_length (h :: hits') cited) as Hlen.
      rewrite cite_loop in Hlen. exact Hlen.
    + intros n Hn Hrange.
      destruct (in_range_lookup (h :: hits') n Hrange) as [c Hc].
      exists c. split; [done|].
      apply list_elem_of_omap. exists n. split.
      * unfold in_range. apply list_elem_of_filter. done.
      * by rewrite Hc.
    + intros s Hs. apply list_elem_of_omap in Hs as (n & Hn & Hcit).
      unfold in_range in Hn. apply list_elem_of_filter in Hn as [Hrange Hn].
      destruct ((h :: hits') !! Z.to_nat (n - 1)) as [c|] eqn:Hc; [|done].
      simpl in Hcit. exists n, c. split; [done|]. split; [done|].
      split; [done|]. congruence.
Qed.

End Answerer.

(** ** The fallback policy and the orchestrator *)

Section Orchestrator.
Context {World float : Type} `{!Externals World float}.
Import Query.

Lemma alt_test_no_data a :
  negb (contains (lit "I don't know") a)
  && negb (contains (lit "No relevant information found") a)
  = negb (no_data a).
Proof. unfold no_data. by rewrite negb_orb. Qed.

(** After alternatives that all failed, the first alternative whose answer
    carries no sentinel is returned, with the question annotated. *)
Lemma try_alternatives_found sub target_year result failed alt rest w w3 r w4 :
  all_fail target_year failed w w3 ->
  answer_sub_question alt target_year w3 = (Ok r, w4) ->
  no_data (answer r) = false ->
  try_alternatives sub target_year result (failed ++ alt :: rest) w
  = (Ok {| question := annotate sub alt;
           answer := answer r;
           chunks := chunks r;
           sources := sources r |}, w4).
Proof.
  intros Hfail Halt Hgood.
  induction Hfail as [w|a rest' w r' w1 w2 Ha Hbad Hrest IH]; simpl.
  - rewrite (bind_Ok _ _ _ _ _ Halt), alt_test_no_data, Hgood. reflexivity.
  - rewrite (bind_Ok _ _ _ _ _ Ha), alt_test_no_data, Hbad. simpl. by apply IH.
Qed.

(** When every alternative failed, the result passed in is returned. *)
Lemma try_alternatives_exhausted sub target_year result alts w w3 :
  all_fail target_year alts w w3 ->
  try_alternatives sub target_year result alts w = (Ok result, w3).
Proof.
  induction 1 as [w|a rest' w r' w1 w2 Ha Hbad Hrest IH]; simpl; [done|].
  rewrite (bind_Ok _ _ _ _ _ Ha), alt_test_no_data, Hbad. simpl. exact IH.
Qed.

(** C5: when the direct answer of a sub-question carries a failure sentinel
    and the alternative phrasings [alts] have been generated, the
    alternatives are answered in order: if the ones before [alt] all give an
    answer with a sentinel and [alt] gives one without, the result of [alt]
    is returned with its question set to
    "sub_question (tried alternative: alt)"; if every alternative gives an
    answer with a sentinel (or there is none), the original result is
    returned as it was. *)
Theorem fallback_first_success sub_question target_year w result w1 alts w2 :
  answer_sub_question sub_question target_year w = (Ok result, w1) ->
  no_data (answer result) = true ->
  generate_alternative_questions sub_question w1 = (Ok alts, w2) ->
  (forall failed alt rest w3 r w4,
     alts = failed ++ alt :: rest ->
     all_fail target_year failed w2 w3 ->
     answer_sub_question alt target_year w3 = (Ok r, w4) ->
     no_data (answer r) = false ->
     answer_sub_question_with_fallback sub_question target_year w
     = (Ok {| question := annotate sub_question alt;
              answer := answer r;
              chunks := chunks r;
              sources := sources r |}, w4))
  /\ (forall w3,
        all_fail target_year alts w2 w3 ->
        answer_sub_question_with_fallback sub_question target_year w
        = (Ok result, w3)).
Proof.
  intros Hdirect Hbad Halts.
  unfold answer_sub_question_with_fallback.
  rewrite (bind_Ok _ _ _ _ _ Hdirect), Hbad, (bind_Ok _ _ _ _ _ Halts).
  split.
  - intros failed alt rest w3 r w4 -> Hfail Halt Hgood.
    by eapply try_alternatives_found.
  - intros w3 Hfail. by apply try_alternatives_exhausted.
Qed.

(** A direct answer without sentinel is returned as it is. *)
Lemma fallback_not_needed sub_question target_year w result w1 :
  answer_sub_question sub_question target_year w = (Ok result, w1) ->
  no_data (answer result) = false ->
  answer_sub_question_with_fallback sub_question target_year w = (Ok result, w1).
Proof.
  intros Hdirect Hgood. unfold answer_sub_question_with_fallback.
  by rewrite (bind_Ok _ _ _ _ _ Hdirect), Hgood.
Qed.

(** With no follow-up question [generate_answer] still asks the language
    model for a synthesis, of the main result alone. *)
Lemma generate_answer_without_follow_up question retrieved_chunks w main_result w1 a w2 :
  answer_sub_question_with_fallback question (extract_year_from_query question) w
  = (Ok main_result, w1) ->
  analyze_missing_information question (answer main_result) (chunks main_result) w1
  = (Ok a, w2) ->
  follow_up_questions a = [] ->
  generate_answer question retrieved_chunks w
  = synthesize_final_answer question [main_result] w2.
Proof.
  intros Hmain Han Hnone. unfold generate_answer.
  rewrite (bind_Ok _ _ _ _ _ Hmain), (bind_Ok _ _ _ _ _ Han), Hnone.
  reflexivity.
Qed.

(** The chat page returns the main answer in that case. *)
Lemma streamlit_without_follow_up prompt w main_result w1 a w2 :
  answer_sub_question_with_fallback prompt (extract_year_from_query prompt) w
  = (Ok main_result, w1) ->
  analyze_missing_information prompt (answer main_result) (chunks main_result) w1
  = (Ok a, w2) ->
  follow_up_questions a = [] ->
  StreamlitApp.final_answer prompt w = (Ok (answer main_result), w2).
Proof.
  intros Hmain Han Hnone. unfold StreamlitApp.final_answer.
  rewrite (bind_Ok _ _ _ _ _ Hmain), (bind_Ok _ _ _ _ _ Han), Hnone.
  reflexivity.
Qed.

End Orchestrator.

(** ** Runs in the scripted world: the answerer and the orchestrator *)

Lemma answer_sub_question_citations_witness :
  Query.retrieve (lit "What was revenue in 2022?") 4 (Some 2022)
    (Script.base ["It was 7 [1] and 5 [2], not [3] or [0]."])
  = (Ok [Script.mk_chunk "ford_2022.pdf" 0 "Revenue was 7 in 2022." 2022;
         Script.mk_chunk "ford_2021.pdf" 0 "Revenue was 5 in 2021." 2021],
     Script.base ["It was 7 [1] and 5 [2], not [3] or [0]."])
  /\ exists srcs,
       Query.answer_sub_question (lit "What was revenue in 2022?") (Some 2022)
         (Script.base ["It was 7 [1] and 5 [2], not [3] or [0]."])
       = (Ok {| question := lit "What was revenue in 2022?";
                answer := lit "It was 7 [1] and 5 [2], not [3] or [0].";
                chunks := [Script.mk_chunk "ford_2022.pdf" 0 "Revenue was 7 in 2022." 2022;
                           Script.mk_chunk "ford_2021.pdf" 0 "Revenue was 5 in 2021." 2021];
                sources := srcs |}, Script.base [])
       /\ srcs = [lit "[1] ford_2022.pdf, chunk 0"; lit "[2] ford_2021.pdf, chunk 0"].
Proof.
  assert (Query.retrieve (lit "What was revenue in 2022?") 4 (Some 2022)
            (Script.base ["It was 7 [1] and 5 [2], not [3] or [0]."])
          = (Ok [Script.mk_chunk "ford_2022.pdf" 0 "Revenue was 7 in 2022." 2022;
                 Script.mk_chunk "ford_2021.pdf" 0 "Revenue was 5 in 2021." 2021],
             Script.base ["It was 7 [1] and 5 [2], not [3] or [0]."])) as Hret
    by (vm_compute; reflexivity).
  split; [exact Hret|].
  assert (chat_completions_create
            (Query.answer_request (lit "What was revenue in 2022?")
               [Script.mk_chunk "ford_2022.pdf" 0 "Revenue was 7 in 2022." 2022;
                Script.mk_chunk "ford_2021.pdf" 0 "Revenue was 5 in 2021." 2021])
            (Script.base ["It was 7 [1] and 5 [2], not [3] or [0]."])
          = (Reply (lit "It was 7 [1] and 5 [2], not [3] or [0]."), Script.base []))
    as Hchat by (vm_compute; reflexivity).
  destruct (proj2 (answer_sub_question_citations _ _ _ _ _ Hret) ltac:(done) _ _ Hchat)
    as (srcs & Hrun & Hsrcs & _).
  exists srcs. split; [exact Hrun|].
  rewrite Hsrcs. vm_compute. reflexivity.
Defined.

Lemma fallback_first_success_witness :
  Query.answer_sub_question_with_fallback (lit "What was revenue in 2022?") (Some 2022)
    (Script.base ["I don't know based on the provided documents.";
                  "- What were sales in 2022?
- What was income in 2022?";
                  "I don't know based on the provided documents.";
                  "Income was 7 [1]."])
  = (Ok {| question := lit "What was revenue in 2022? (tried alternative: What was income in 2022?)";
           answer := lit "Income was 7 [1].";
           chunks := [Script.mk_chunk "ford_2022.pdf" 0 "Revenue was 7 in 2022." 2022;
                      Script.mk_chunk "ford_2021.pdf" 0 "Revenue was 5 in 2021." 2021];
           sources := [lit "[1] ford_2022.pdf, chunk 0"] |},
     Script.base []).
Proof.
  set (q := lit "What was revenue in 2022?").
  set (w := Script.base _).
  run_to Hdirect (Query.answer_sub_question q (Some 2022) w).
  match type of Hdirect with _ = (Ok ?r, ?w1) =>
    assert (Query.no_data (answer r) = true) as Hbad by (vm_compute; reflexivity);
    run_to Halts (Query.generate_alternative_questions q w1)
  end.
  match type of Halts with _ = (Ok [?alt1; ?alt2], ?w2) =>
    run_to Halt1 (Query.answer_sub_question alt1 (Some 2022) w2);
    match type of Halt1 with _ = (Ok ?r1, ?w3) =>
      assert (Query.no_data (answer r1) = true) as Hbad1 by (vm_compute; reflexivity);
      run_to Halt2 (Query.answer_sub_question alt2 (Some 2022) w3)
    end
  end.
  match type of Halt2 with _ = (Ok ?r2, ?w4) =>
    assert (Query.no_data (answer r2) = false) as Hgood2 by (vm_compute; reflexivity)
  end.
  etransitivity.
  - eapply (proj1 (fallback_first_success _ _ _ _ _ _ _ Hdirect Hbad Halts)
              [_] _ [] _ _ _ eq_refl).
    + eapply Query.all_fail_cons; [exact Halt1 | exact Hbad1 | apply Query.all_fail_nil].
    + exact Halt2.
    + exact Hgood2.
  - vm_compute. reflexivity.
Defined.

(** C1: a run of [generate_answer] in which gap analysis lists no follow-up
    question.  The main answer is "Revenue was 7 [1]."; the function goes on
    to the synthesis call and returns what that call gives, not the main
    answer.  The chat page, on the same question in the same world, returns
    the main answer and leaves the third reply unused. *)
Theorem generate_answer_no_short_circuit :
  exists main_result w1 a w2,
    Query.answer_sub_question_with_fallback (lit "What was revenue in 2022?")
      (Query.extract_year_from_query (lit "What was revenue in 2022?"))
      (Script.base ["Revenue was 7 [1].";
                    "MISSING INFORMATION:
FOLLOW-UP QUESTIONS NEEDED:";
                    "Revenue rose to 7."])
    = (Ok main_result, w1)
    /\ answer main_result = lit "Revenue was 7 [1]."
    /\ Query.analyze_missing_information (lit "What was revenue in 2022?")
         (answer main_result) (chunks main_result) w1
       = (Ok a, w2)
    /\ Query.follow_up_questions a = []
    /\ Query.generate_answer (lit "What was revenue in 2022?") []
         (Script.base ["Revenue was 7 [1].";
                       "MISSING INFORMATION:
FOLLOW-UP QUESTIONS NEEDED:";
                       "Revenue rose to 7."])
       = (Ok (lit "Revenue rose to 7."), Script.base [])
    /\ StreamlitApp.final_answer (lit "What was revenue in 2022?")
         (Script.base ["Revenue was 7 [1].";
                       "MISSING INFORMATION:
FOLLOW-UP QUESTIONS NEEDED:";
                       "Revenue rose to 7."])
       = (Ok (lit "Revenue was 7 [1]."), Script.base ["Revenue rose to 7."]).
Proof.
  set (q := lit "What was revenue in 2022?").
  set (w := Script.base _).
  run_to Hmain (Query.answer_sub_question_with_fallback q
                  (Query.extract_year_from_query q) w).
  match type of Hmain with _ = (Ok ?r, ?w1) =>
    run_to Han (Query.analyze_missing_information q (answer r) (chunks r) w1);
    exists r, w1
  end.
  match type of Han with _ = (Ok ?a, ?w2) => exists a, w2 end.
  split; [exact Hmain|]. split; [vm_compute; reflexivity|].
  split; [exact Han|]. split; [reflexivity|].
  split; vm_compute; reflexivity.
Qed.

(** ** The index builder *)

Lemma slice_take_drop {A} (s : list A) (lo hi : Z) :
  0 <= lo -> lo <= hi ->
  slice s lo hi = take (Z.to_nat (hi - lo)) (drop (Z.to_nat lo) s).
Proof.
  intros Hlo Hhi. unfold slice, clamp_index, len.
  destruct (Z.ltb_spec lo 0); [lia|]. destruct (Z.ltb_spec hi 0); [lia|].
  destruct (Z.le_gt_cases lo (Z.of_nat (length s))) as [Hin|Hout].
  - replace (Z.to_nat (lo `min` Z.of_nat (length s))) with (Z.to_nat lo) by lia.
    destruct (Z.le_gt_cases hi (Z.of_nat (length s))).
    + f_equal. lia.
    + rewrite !take_ge by (rewrite length_drop; lia). done.
  - rewrite !drop_ge by lia. by rewrite !take_nil.
Qed.

(** The batches [texts[i:i + batch_size]] for the first [m] values of
    [range(0, len(texts), batch_size)] make up the first [m * batch_size]
    texts. *)
Lemma concat_batches {A} (texts : list A) (bs : Z) (m : nat) :
  0 < bs ->
  concat (map (fun j : nat => slice texts (0 + Z.of_nat j * bs)
                                (0 + Z.of_nat j * bs + bs)) (seq 0 m))
  = take (m * Z.to_nat bs) texts.
Proof.
  intros Hbs. induction m as [|m IH]; [by rewrite take_0|].
  rewrite seq_S, map_app, concat_app, IH. simpl. rewrite app_nil_r.
  rewrite slice_take_drop by lia.
  replace (Z.to_nat (0 + Z.of_nat m * bs)) with (m * Z.to_nat bs)%nat by lia.
  replace (Z.to_nat (0 + Z.of_nat m * bs + bs - (0 + Z.of_nat m * bs)))
    with (Z.to_nat bs) by lia.
  rewrite take_take_drop. f_equal. lia.
Qed.

Lemma range_covers (n bs : Z) :
  0 <= n -> 0 < bs -> n <= (n + bs - 1) / bs * bs.
Proof.
  intros Hn Hbs.
  pose proof (Z.mul_succ_div_gt (n + bs - 1) bs Hbs). lia.
Qed.

Lemma range_batches {A} (texts : list A) (bs : Z) :
  0 < bs ->
  exists starts,
    py_range 0 (len texts) bs = Some starts
    /\ concat (map (fun i => slice texts i (i + bs)) starts) = texts.
Proof.
  intros Hbs. unfold py_range.
  destruct (Z.eqb_spec bs 0); [lia|]. destruct (Z.ltb_spec 0 bs); [|lia].
  eexists. split; [reflexivity|].
  rewrite map_map, concat_batches by done.
  apply take_ge.
  pose proof (range_covers (len texts) bs (len_nonneg texts) Hbs) as Hcover.
  rewrite Z.sub_0_r. unfold len in *.
  assert (0 <= (Z.of_nat (length texts) + bs - 1) / bs)
    by (apply Z.div_pos; lia).
  nia.
Qed.

Lemma length_concat_Forall2 {A B} (ls : list (list A)) (ks : list (list B)) :
  Forall2 (fun l k => length k = length l) ls ks ->
  length (concat ks) = length (concat ls).
Proof.
  induction 1 as [|l k ls ks Hlk _ IH]; [done|].
  simpl. rewrite !length_app. lia.
Qed.

Section Embedding.
Context {World float : Type} `{!Externals World float}.
Import Ingest.

(** One batch: the rows of the service when the call succeeds, zero rows
    when it fails; the loop goes on in both cases. *)
Lemma embed_batch_run texts bs acc i w :
  exists out w',
    embed_batch texts bs acc i w = (Ok (acc ++ out), w')
    /\ (embeddings_create EMBED_MODEL (slice texts i (i + bs)) w = (Reply out, w')
        \/ (exists e, embeddings_create EMBED_MODEL (slice texts i (i + bs)) w
                      = (Failure e, w'))
           /\ out = zero_embeddings (slice texts i (i + bs))).
Proof.
  unfold embed_batch, try_except, bind, call, ret.
  destruct (embeddings_create EMBED_MODEL (slice texts i (i + bs)) w)
    as [[rows|e] w1]; simpl; eauto 8.
Qed.

Lemma embed_loop_run texts bs starts acc w :
  exists outs w',
    for_each (embed_batch texts bs) starts acc w = (Ok (acc ++ concat outs), w')
    /\ Forall2 batch_rows (map (fun i => slice texts i (i + bs)) starts) outs.
Proof.
  revert acc w. induction starts as [|i starts IH]; intros acc w; simpl.
  - exists [], w. simpl. rewrite app_nil_r. split; [done | constructor].
  - destruct (embed_batch_run texts bs acc i w) as (out & w1 & Hrun & Hout).
    destruct (IH (acc ++ out) w1) as (outs & w2 & Hrest & Hall).
    exists (out :: outs), w2. split.
    + rewrite (bind_Ok _ _ _ _ _ Hrun), Hrest. simpl. by rewrite app_assoc.
    + constructor; [|done]. unfold batch_rows.
      destruct Hout as [Hok|[[e He] ->]]; [left|right]; eauto.
Qed.

Lemma zero_embeddings_shape {A} (batch : list A) :
  length (zero_embeddings (float:=float) batch) = length batch
  /\ Forall (fun r => len r = 3072) (zero_embeddings (float:=float) batch).
Proof.
  unfold zero_embeddings. split; [by rewrite length_map|].
  apply Forall_forall. intros r Hr. apply list_elem_of_In, in_map_iff in Hr as (x & <- & _).
  unfold len. by rewrite repeat_length.
Qed.

Lemma batch_rows_shape batch out :
  embedding_contract -> batch_rows batch out ->
  length out = length batch /\ Forall (fun r => len r = 3072) out.
Proof.
  intros Hcontract [(w & w' & Hok)|[_ ->]].
  - by eapply Hcontract.
  - apply zero_embeddings_shape.
Qed.

Lemma np_array_same_shape (rows : list (list float)) (w : World) :
  Forall (fun r => len r = 3072) rows -> np_array rows w = (Ok rows, w).
Proof.
  intros Hrows. unfold np_array. destruct rows as [|r rest]; [done|].
  apply Forall_cons in Hrows as [Hr Hrest].
  replace (forallb (fun r' => len r' =? len r) rest) with true; [done|].
  symmetry. apply forallb_forall. intros r' Hr'.
  rewrite Forall_forall in Hrest. rewrite (Hrest r'), Hr; [lia|].
  by apply list_elem_of_In.
Qed.

(** The run of [embed_texts] under the contract of the service. *)
Lemma embed_texts_rows (texts : list str) (batch_size : Z) (w : World) :
  embedding_contract -> 0 < batch_size ->
  exists rows w',
    embed_texts texts batch_size w = (Ok rows, w')
    /\ length rows = length texts
    /\ rows_in_batch_order texts batch_size rows.
Proof.
  intros Hcontract Hbs.
  destruct (range_batches texts batch_size Hbs) as (starts & Hrange & Hcover).
  destruct (embed_loop_run texts batch_size starts [] w)
    as (outs & w' & Hloop & Hall).
  simpl in Hloop.
  assert (Forall2 (fun batch out =>
                     length out = length batch
                     /\ Forall (fun r => len r = 3072) out)
            (map (fun i => slice texts i (i + batch_size)) starts) outs) as Hshape.
  { eapply Forall2_impl; [exact Hall|]. intros batch out Hb.
    by apply batch_rows_shape. }
  assert (Forall (fun r => len r = 3072) (concat outs)) as Hdims.
  { apply Forall_concat. clear -Hshape.
    induction Hshape as [|b o bs os [_ Ho] _ IH]; constructor; done. }
  exists (concat outs), w'. split; [|split].
  - unfold embed_texts. rewrite Hrange, (bind_Ok _ _ _ _ _ Hloop).
    by apply np_array_same_shape.
  - transitivity
      (length (concat (map (fun i => slice texts i (i + batch_size)) starts)));
      [|by rewrite Hcover].
    apply length_concat_Forall2.
    eapply Forall2_impl; [exact Hshape|]. by intros b o [? _].
  - exists outs, starts. repeat (split; [done|]).
    clear -Hall Hshape. induction Hall as [|b o bs os Hb _ IH].
    + constructor.
    + apply Forall2_cons_1 in Hshape as [[Hlen _] Hshape].
      constructor; [|by apply IH]. done.
Qed.

(** C6: under the contract of the embedding service and with a positive
    batch size, [embed_texts] returns for every list of texts: the texts are
    cut into consecutive batches, each batch contributes the rows of the
    service when its call succeeds and one zero vector of 3072 components
    per text when the call fails, the rows are kept in batch order, and
    there are as many rows as texts. *)
Theorem embed_texts_one_row_per_text (texts : list str) (batch_size : Z) (w : World) :
  embedding_contract -> 0 < batch_size ->
  exists rows outs starts w',
    embed_texts texts batch_size w = (Ok rows, w')
    /\ length rows = length texts
    /\ py_range 0 (len texts) batch_size = Some starts
    /\ concat (map (fun i => slice texts i (i + batch_size)) starts) = texts
    /\ rows = concat outs
    /\ Forall2 (fun batch out =>
                  length out = length batch
                  /\ ((exists wa wb,
                         embeddings_create EMBED_MODEL batch wa = (Reply out, wb))
                      \/ (exists e wa wb,
                            embeddings_create EMBED_MODEL batch wa = (Failure e, wb))
                         /\ out = map (fun _ => repeat zero 3072) batch))
         (map (fun i => slice texts i (i + batch_size)) starts) outs.
Proof.
  intros Hcontract Hbs.
  destruct (embed_texts_rows texts batch_size w Hcontract Hbs)
    as (rows & w' & Hrun & Hlen & outs & starts & Hrange & Hcover & Hrows & Hall).
  exists rows, outs, starts, w'. done.
Qed.

End Embedding.

Lemma script_embedding_contract : Ingest.embedding_contract (World:=Script.world).
Proof.
  assert (forall input,
            length (Script.embed_rows input) = length input
            /\ Forall (fun r => len r = 3072) (Script.embed_rows input)) as Hshape.
  { intros input. unfold Script.embed_rows. split; [by rewrite length_map|].
    apply Forall_forall. intros r Hr.
    apply list_elem_of_In, in_map_iff in Hr as (x & <- & _).
    unfold len. by rewrite repeat_length. }
  intros input w rows w'.
  change (embeddings_create Ingest.EMBED_MODEL input w)
    with (Script.embed_create Ingest.EMBED_MODEL input w).
  unfold Script.embed_create, Script.failure.
  destruct (Script.embed_ok w) as [|[|] oks]; intros Hrun; inversion Hrun; subst;
    apply Hshape.
Qed.

Lemma embed_texts_one_row_per_text_witness :
  0 < 2
  /\ exists rows w',
       Ingest.embed_texts [lit "Revenue"; lit "Costs"; lit "Cash"] 2
         {| Script.chat_replies := []; Script.embed_ok := [false; true];
            Script.meta_file := ∅; Script.neighbours := []; Script.files := [] |}
       = (Ok rows, w')
       /\ length rows = 3%nat.
Proof.
  split; [lia|].
  destruct (embed_texts_one_row_per_text [lit "Revenue"; lit "Costs"; lit "Cash"] 2
              {| Script.chat_replies := []; Script.embed_ok := [false; true];
                 Script.meta_file := ∅; Script.neighbours := []; Script.files := [] |}
              script_embedding_contract ltac:(lia))
    as (rows & outs & starts & w' & Hrun & Hlen & _).
  exists rows, w'. split; [exact Hrun | exact Hlen].
Defined.

(** ** The ingestion script *)

Lemma py_str_inj (a b : Z) : py_str a = py_str b -> a = b.
Proof.
  unfold py_str, lit. intros Heq.
  apply (f_equal string_of_list_ascii) in Heq.
  rewrite !string_of_list_ascii_of_string in Heq.
  by apply (inj pretty) in Heq.
Qed.

Section Ingestion.
Context {World float : Type} `{!Externals World float}.
Import Ingest.

Lemma add_chunk_ok fname yr st ic :
  collected_ok st -> collected_ok (add_chunk fname yr st ic).
Proof.
  destruct ic as [i c]. intros (Hpos & Hchunks & Hmeta & Hentries).
  unfold collected_ok, add_chunk. simpl.
  rewrite !length_app. simpl.
  split; [lia|]. split; [lia|]. split; [lia|].
  intros j m Hj. apply lookup_app_Some in Hj as [Hold|[Hge Hnew]].
  - destruct (Hentries j m Hold) as (Hid & c' & Hc' & Htext).
    split; [done|]. exists c'. split; [|done].
    by apply lookup_app_l_Some.
  - destruct (j - length (metadata st))%nat as [|k] eqn:Hk; [|done].
    simpl in Hnew. inversion Hnew; subst m; clear Hnew. simpl.
    assert (j = length (metadata st)) as -> by lia.
    split; [f_equal; lia|].
    exists c. split; [|done].
    rewrite Hmeta, <- Hchunks. apply list_lookup_middle. done.
Qed.

Lemma fold_add_chunk_ok fname yr ics st :
  collected_ok st -> collected_ok (fold_left (add_chunk fname yr) ics st).
Proof.
  revert st. induction ics as [|ic ics IH]; intros st Hok; simpl; [done|].
  by apply IH, add_chunk_ok.
Qed.

(** A file either adds its chunks or, when extraction fails, is skipped. *)
Lemma process_file_run data_dir st fname w :
  collected_ok st ->
  exists st' w', process_file data_dir st fname w = (Ok st', w') /\ collected_ok st'.
Proof.
  intros Hok. unfold process_file, try_except, bind, call, ret.
  destruct (extract_text_and_tables_from_pdf (os_path_join data_dir fname) w)
    as [[t|e] w1]; simpl.
  - eexists _, w1. split; [reflexivity|]. by apply fold_add_chunk_ok.
  - by exists st, w1.
Qed.

Lemma collect_run data_dir fnames st w :
  collected_ok st ->
  exists st' w',
    for_each (process_file data_dir) fnames st w = (Ok st', w') /\ collected_ok st'.
Proof.
  revert st w. induction fnames as [|f fnames IH]; intros st w Hok; simpl.
  - by exists st, w.
  - destruct (process_file_run data_dir st f w Hok) as (st1 & w1 & Hrun & Hok1).
    destruct (IH st1 w1 Hok1) as (st2 & w2 & Hrest & Hok2).
    exists st2, w2. by rewrite (bind_Ok _ _ _ _ _ Hrun).
Qed.

(** The dict comprehension over entries whose ids are [str(off)],
    [str(off + 1)], ..., added to a dict [d] that holds none of these keys. *)
Lemma ids_fold_lookup (ms : list meta_entry) :
  forall (off : nat) (d : gmap str chunk),
    (forall i m, ms !! i = Some m -> id m = py_str (Z.of_nat (off + i))) ->
    (forall j, (off <= j)%nat -> d !! py_str (Z.of_nat j) = None) ->
    let r := fold_left (fun d meta => <[ id meta := saved_entry meta ]> d) ms d in
    size r = (size d + length ms)%nat
    /\ (forall i m, ms !! i = Some m ->
          r !! py_str (Z.of_nat (off + i)) = Some (saved_entry m))
    /\ (forall key,
          (forall i, (i < length ms)%nat -> key <> py_str (Z.of_nat (off + i))) ->
          r !! key = d !! key).
Proof.
  induction ms as [|m ms IH]; intros off d Hid Hfree; simpl.
  - split; [lia|]. split; [done|]. done.
  - assert (id m = py_str (Z.of_nat off)) as Hm.
    { rewrite (Hid 0%nat m eq_refl). f_equal. lia. }
    destruct (IH (S off) (<[id m := saved_entry m]> d)) as (Hsize & Hlook & Hother).
    + intros i m' Hi. rewrite (Hid (S i) m' Hi). f_equal. lia.
    + intros j Hj. rewrite lookup_insert_ne; [apply Hfree; lia|].
      rewrite Hm. intros Heq. apply py_str_inj in Heq. lia.
    + split; [|split].
      * rewrite Hsize, map_size_insert_None; [lia|].
        rewrite Hm. apply Hfree. lia.
      * intros [|i] m' Hi.
        -- simpl in Hi. inversion Hi; subst m'.
           rewrite Hother.
           ++ rewrite Nat.add_0_r, <- Hm. apply lookup_insert_eq.
           ++ intros i _ Heq. apply py_str_inj in Heq. lia.
        -- simpl in Hi. rewrite <- (Hlook i m' Hi). do 2 f_equal. lia.
      * intros key Hkey. rewrite Hother.
        -- apply lookup_insert_ne. rewrite Hm.
           specialize (Hkey 0%nat ltac:(lia)). rewrite Nat.add_0_r in Hkey. done.
        -- intros i Hi. specialize (Hkey (S i) ltac:(lia)).
           by replace (off + S i)%nat with (S off + i)%nat in Hkey by lia.
Qed.

Lemma ids_for_save_lookup (ms : list meta_entry) :
  (forall i m, ms !! i = Some m -> id m = py_str (Z.of_nat i)) ->
  size (ids_for_save ms) = length ms
  /\ (forall i m, ms !! i = Some m ->
        ids_for_save ms !! py_str (Z.of_nat i) = Some (saved_entry m))
  /\ (forall key,
        (forall i, (i < length ms)%nat -> key <> py_str (Z.of_nat i)) ->
        ids_for_save ms !! key = None).
Proof.
  intros Hid.
  destruct (ids_fold_lookup ms 0 ∅) as (Hsize & Hlook & Hother); [done..|].
  unfold ids_for_save. split; [|split].
  - by rewrite Hsize, map_size_empty.
  - intros i m Hi. by apply (Hlook i m).
  - intros key Hkey. rewrite Hother; [done|]. intros i Hi. by apply Hkey.
Qed.

Lemma try_except_exit_inv {A} (body : M World A) (code : Z) w a w' :
  try_except body (fun _ => exit code) w = (Ok a, w') -> body w = (Ok a, w').
Proof.
  unfold try_except, exit. destruct (body w) as [[a'|e|n] w1]; intros Hrun;
    by inversion Hrun.
Qed.

Lemma collected_ok_initial :
  collected_ok {| all_chunks := []; metadata := []; id_counter := 0 |}.
Proof. unfold collected_ok. simpl. repeat split; done. Qed.

(** C3: a run of the ingestion script that builds the index (under the
    contract of the embedding service) has collected at least one chunk;
    the embedding rows, the chunks and the metadata entries are equally
    many; the metadata keys are exactly the decimal strings of 0 .. n-1; the
    entry with key i holds the text of the i-th chunk cut to at most 4000
    characters, and row i of the embeddings exists and is, batch by batch
    and in order, the row obtained for the i-th chunk; these rows are the
    rows of the index written to faiss_index.bin, and this mapping is what
    is written to meta.json. *)
Theorem ingest_row_parity (w : World) (b : built) (w' : World) :
  embedding_contract ->
  main w = (Ok b, w') ->
  (1 <= length (built_chunks b))%nat
  /\ length (built_embeddings b) = length (built_chunks b)
  /\ size (built_ids b) = length (built_chunks b)
  /\ (forall i c, built_chunks b !! i = Some c ->
        exists entry row,
          built_ids b !! py_str (Z.of_nat i) = Some entry
          /\ text entry = slice_to c 4000
          /\ len (text entry) <= 4000
          /\ built_embeddings b !! i = Some row)
  /\ (forall key,
        (forall i, (i < length (built_chunks b))%nat -> key <> py_str (Z.of_nat i)) ->
        built_ids b !! key = None)
  /\ rows_in_batch_order (built_chunks b) 100 (built_embeddings b)
  /\ exists row rest w1 w2,
       built_embeddings b = row :: rest
       /\ faiss_write_index
            {| index_d := len row; index_rows := built_embeddings b |}
            (lit "faiss_index.bin") w1 = (Reply tt, w2)
       /\ json_dump_meta (built_ids b) (lit "meta.json") w2 = (Reply tt, w').
Proof.
  intros Hcontract Hrun. unfold main in Hrun.
  apply bind_Ok_inv in Hrun as (names & w0 & _ & Hrun).
  destruct (Utils.nonempty (filter _ names)); simpl in Hrun; [|discriminate].
  destruct (collect_run (lit "data") (filter (fun f => endswith (lit ".pdf") (lower f) = true) names)
              _ w0 collected_ok_initial) as (st & w1 & Hcollect & Hok).
  rewrite (bind_Ok _ _ _ _ _ Hcollect) in Hrun.
  destruct (Utils.nonempty (all_chunks st)) eqn:Hsome; simpl in Hrun; [|discriminate].
  apply try_except_exit_inv in Hrun.
  apply bind_Ok_inv in Hrun as (embs & w2 & Hembed & Hrun).
  apply bind_Ok_inv in Hrun as ([] & w3 & Hbuild & Hrun).
  inversion Hrun; subst b w'; clear Hrun. simpl.
  destruct (embed_texts_rows (all_chunks st) 100 w1 Hcontract ltac:(lia))
    as (rows & w2' & Hrows & Hlen & Horder).
  rewrite Hembed in Hrows. inversion Hrows; subst rows w2'; clear Hrows.
  destruct Hok as (Hpos & Hchunks & Hmeta & Hentries).
  destruct (ids_for_save_lookup (metadata st)) as (Hsize & Hlook & Hother).
  { intros i m Hi. by apply Hentries. }
  apply nonempty_true in Hsome.
  split; [|split; [done|split; [lia|split; [|split; [|split; [done|]]]]]].
  - destruct (all_chunks st); [done|]. simpl. lia.
  - intros i c Hc.
    assert (i < length (all_chunks st))%nat as Hi by (by eapply lookup_lt_Some).
    destruct (lookup_lt_is_Some_2 (metadata st) i) as [m Hm]; [lia|].
    destruct (lookup_lt_is_Some_2 embs i) as [row Hrow]; [lia|].
    destruct (Hentries i m Hm) as (_ & c' & Hc' & Htext).
    assert (c' = c) as -> by congruence.
    exists (saved_entry m), row. split; [by apply Hlook|]. simpl.
    split; [done|]. split; [|done].
    rewrite Htext. etransitivity; [apply len_slice_le; lia|]. lia.
  - intros key Hkey. apply Hother. intros i Hi. apply Hkey. lia.
  - unfold build_index in Hbuild.
    destruct embs as [|row rest]; [discriminate|].
    apply bind_Ok_inv in Hbuild as ([] & w4 & Hwrite & Hdump).
    apply call_Ok_inv in Hwrite, Hdump.
    exists row, rest, w2, w4. done.
Qed.

End Ingestion.

Lemma ingest_row_parity_witness :
  exists b w',
    Ingest.main
      {| Script.chat_replies := []; Script.embed_ok := [false];
         Script.meta_file := ∅; Script.neighbours := [];
         Script.files :=
           [(lit "ford_2022.pdf", Some (lit "Revenue was 7 in 2022."));
            (lit "notes.txt", Some (lit "not a report"));
            (lit "damaged_2021.pdf", None);
            (lit "ford_2021.PDF", Some (lit "Revenue was 5 in 2021.

Costs fell."))] |}
    = (Ok b, w')
    /\ Ingest.built_chunks b = [lit "Revenue was 7 in 2022.";
                          lit "Revenue was 5 in 2021.

Costs fell."]
    /\ length (Ingest.built_embeddings b) = length (Ingest.built_chunks b)
    /\ size (Ingest.built_ids b) = length (Ingest.built_chunks b).
Proof.
  set (w := {| Script.chat_replies := []; Script.embed_ok := [false];
               Script.meta_file := ∅; Script.neighbours := [];
               Script.files := _ |}).
  run_to Hrun (Ingest.main w).
  match type of Hrun with _ = (Ok ?b, ?w') => exists b, w' end.
  split; [exact Hrun|]. split; [reflexivity|].
  destruct (ingest_row_parity _ _ _ script_embedding_contract Hrun)
    as (_ & Hrows & Hsize & _).
  split; [exact Hrows | exact Hsize].
Defined.

(* ------------------------------------------------------------------ *)
(** * Further properties of the code *)

(** ** [strip] *)

Lemma lstrip_head s c r : lstrip s = c :: r -> isspace c = false.
Proof.
  induction s as [|x s IH]; simpl; [done|].
  destruct (isspace x) eqn:Hx; [done|]. intros Heq. by inversion Heq; subst.
Qed.

Lemma lstrip_fixed_head c r : isspace c = false -> lstrip (c :: r) = c :: r.
Proof. intros Hc. simpl. by rewrite Hc. Qed.

Lemma lstrip_idemp s : lstrip (lstrip s) = lstrip s.
Proof.
  destruct (lstrip s) as [|c r] eqn:Hs; [done|].
  apply lstrip_fixed_head. by eapply lstrip_head.
Qed.

(** What [lstrip] removes is white space. *)
Lemma lstrip_split s :
  exists pre, s = pre ++ lstrip s /\ Forall (fun c => isspace c = true) pre.
Proof.
  induction s as [|x s (pre & Hs & Hpre)]; simpl.
  - by exists [].
  - destruct (isspace x) eqn:Hx.
    + exists (x :: pre). split; [simpl; by f_equal | by constructor].
    + by exists [].
Qed.

(** [lstrip] stops at the first character that is not white space. *)
Lemma lstrip_app_nonspace a x r :
  isspace x = false -> lstrip (a ++ x :: r) = lstrip a ++ x :: r.
Proof.
  intros Hx. induction a as [|c a IH]; simpl; [by rewrite Hx|].
  by destruct (isspace c).
Qed.

Lemma rstrip_app_nonspace l x b :
  isspace x = false -> rstrip (l ++ x :: b) = l ++ x :: rstrip b.
Proof.
  intros Hx. unfold rstrip.
  rewrite reverse_app, reverse_cons, <- app_assoc. simpl.
  rewrite lstrip_app_nonspace by done.
  rewrite reverse_app, reverse_cons, reverse_involutive, <- app_assoc. done.
Qed.

Lemma rstrip_nil : rstrip [] = [].
Proof. reflexivity. Qed.

Lemma rstrip_last s l x : rstrip s = l ++ [x] -> isspace x = false.
Proof.
  unfold rstrip. intros Heq.
  apply (f_equal reverse) in Heq.
  rewrite reverse_involutive, reverse_app in Heq. simpl in Heq.
  by eapply lstrip_head.
Qed.

Lemma rstrip_idemp s : rstrip (rstrip s) = rstrip s.
Proof. unfold rstrip. by rewrite reverse_involutive, lstrip_idemp. Qed.

(** What [rstrip] removes is white space. *)
Lemma rstrip_split s :
  exists post, s = rstrip s ++ post /\ Forall (fun c => isspace c = true) post.
Proof.
  destruct (lstrip_split (reverse s)) as (pre & Hs & Hpre).
  exists (reverse pre). split.
  - unfold rstrip. rewrite <- reverse_app, <- Hs. by rewrite reverse_involutive.
  - by apply Forall_reverse.
Qed.

(** [strip] keeps a first character that is not white space. *)
Lemma strip_cons s c r :
  lstrip s = c :: r -> strip s = c :: rstrip r.
Proof.
  intros Hs. unfold strip. rewrite Hs.
  apply (rstrip_app_nonspace [] c r). by eapply lstrip_head.
Qed.

Lemma strip_trimmed s : trimmed (strip s).
Proof.
  split.
  - destruct (lstrip s) as [|c r] eqn:Hs.
    + unfold strip. by rewrite Hs.
    + rewrite (strip_cons s c r Hs). apply lstrip_fixed_head.
      by eapply lstrip_head.
  - unfold strip. apply rstrip_idemp.
Qed.

Lemma trimmed_strip s : trimmed s -> strip s = s.
Proof. intros [Hl Hr]. unfold strip. by rewrite Hl. Qed.

(** A string with a character that is not white space does not strip to
    the empty string; the part between two such characters is kept. *)
Lemma strip_keeps a x m y b :
  isspace x = false -> isspace y = false ->
  strip (a ++ x :: m ++ y :: b) = lstrip a ++ x :: m ++ y :: rstrip b.
Proof.
  intros Hx Hy. unfold strip.
  rewrite lstrip_app_nonspace by done.
  replace (lstrip a ++ x :: m ++ y :: b) with ((lstrip a ++ x :: m) ++ y :: b)
    by (by rewrite <- app_assoc).
  rewrite rstrip_app_nonspace by done. by rewrite <- app_assoc.
Qed.

Lemma strip_keeps_one a x b :
  isspace x = false -> strip (a ++ x :: b) = lstrip a ++ x :: rstrip b.
Proof.
  intros Hx. unfold strip. rewrite lstrip_app_nonspace by done.
  by rewrite rstrip_app_nonspace.
Qed.

(** The two ends of a trimmed, non-empty string. *)
Lemma trimmed_ends s :
  trimmed s -> s <> [] ->
  (exists c r, s = c :: r /\ isspace c = false)
  /\ (exists l x, s = l ++ [x] /\ isspace x = false).
Proof.
  intros [Hl Hr] Hne. split.
  - destruct s as [|c r]; [done|]. exists c, r. split; [done|].
    by eapply lstrip_head.
  - destruct (exists_last Hne) as (l & x & ->). exists l, x. split; [done|].
    by eapply rstrip_last.
Qed.

Lemma startswith_spec p s : startswith p s = true <-> exists r, s = p ++ r.
Proof.
  revert s. induction p as [|a p IH]; intros s; simpl.
  - split; [by exists s | done].
  - destruct s as [|b s]; [split; [done | by intros [r Hr]]|].
    destruct (Ascii.eqb_spec a b) as [->|Hne].
    + rewrite IH. split; intros [r Hr]; exists r; [by rewrite Hr | by inversion Hr].
    + split; [done|]. intros [r Hr]. by inversion Hr.
Qed.

Lemma slice_from_drop {A} (s : list A) (n : nat) :
  slice_from s (Z.of_nat n) = drop n s.
Proof.
  unfold slice_from.
  destruct (Nat.le_gt_cases n (length s)).
  - rewrite slice_take_drop by (unfold len; lia).
    rewrite Nat2Z.id. apply take_ge. rewrite length_drop. unfold len. lia.
  - unfold slice, clamp_index, len.
    destruct (Z.ltb_spec (Z.of_nat n) 0); [lia|].
    destruct (Z.ltb_spec (Z.of_nat (length s)) 0); [lia|].
    rewrite !drop_ge by lia. by rewrite take_nil.
Qed.

(** ** Lists parsed out of the replies of the language model *)

(** The text after the dash of a stripped line that starts with "- " is
    not blank. *)
Lemma dash_item_nonempty line :
  startswith (lit "- ") (strip line) = true ->
  strip (slice_from (strip line) 2) <> []
  /\ trimmed (strip (slice_from (strip line) 2)).
Proof.
  intros Hdash. split; [|apply strip_trimmed].
  apply startswith_spec in Hdash as [rest Hrest]. simpl in Hrest.
  pose proof (strip_trimmed line) as Htrim.
  change 2 with (Z.of_nat 2). rewrite slice_from_drop, Hrest. simpl.
  destruct (trimmed_ends (strip line) Htrim) as [_ (l & x & Hl & Hx)];
    [by rewrite Hrest|].
  destruct rest as [|r0 rest'] using rev_ind.
  - rewrite Hrest in Hl.
    change (["-"; " "]%char) with (["-"%char] ++ [" "%char]) in Hl.
    apply app_inj_tail in Hl as [_ <-]. done.
  - clear IHrest'. rewrite Hrest in Hl.
    change ("-"%char :: " "%char :: rest' ++ [r0])
      with (("-"%char :: " "%char :: rest') ++ [r0]) in Hl.
    apply app_inj_tail in Hl as [_ ->].
    rewrite drop_0, strip_keeps_one by done. by destruct (lstrip rest').
Qed.

Lemma dash_items_nonempty response_text :
  Forall (fun item => item <> [] /\ trimmed item) (Query.dash_items response_text).
Proof.
  unfold Query.dash_items. apply Forall_forall. intros item Hitem.
  apply list_elem_of_In, in_flat_map in Hitem as (line & _ & Hin).
  destruct (startswith (lit "- ") (strip line)) eqn:Hdash; [|done].
  destruct Hin as [<-|[]]. by apply dash_item_nonempty.
Qed.

Section ParsedLists.
Context {World float : Type} `{!Externals World float}.
Import Query.

Lemma chat_then_dash_items (m user : str) (mt : Z) (temp : Q) w items w' :
  bind (chat m user mt temp) (fun response_text => ret (dash_items response_text)) w
  = (Ok items, w') ->
  exists response_text, items = dash_items response_text.
Proof.
  intros Hrun. apply bind_Ok_inv in Hrun as (response_text & w1 & _ & Hret).
  inversion Hret. eauto.
Qed.

(** X1: whatever the language model replies, the sub-questions of
    [decompose_question], the alternatives of
    [generate_alternative_questions] and the sub-questions of
    [generate_context_driven_sub_questions] are never empty strings and
    never start or end with white space; a reply without any line of the
    form "- text" gives the empty list. *)
Theorem parsed_questions_nonempty :
  (forall response_text,
     Forall (fun item => item <> [] /\ trimmed item) (dash_items response_text))
  /\ (forall response_text,
        (forall line, line ∈ split response_text nl ->
                      startswith (lit "- ") (strip line) = false) ->
        dash_items response_text = [])
  /\ (forall question w items w',
        decompose_question question w = (Ok items, w') ->
        Forall (fun item => item <> [] /\ trimmed item) items)
  /\ (forall question w items w',
        generate_alternative_questions question w = (Ok items, w') ->
        Forall (fun item => item <> [] /\ trimmed item) items)
  /\ (forall question available_chunks w items w',
        generate_context_driven_sub_questions question available_chunks w
        = (Ok items, w') ->
        Forall (fun item => item <> [] /\ trimmed item) items).
Proof.
  split; [exact dash_items_nonempty|]. split; [|split; [|split]].
  - intros response_text Hnone. unfold dash_items.
    induction (split response_text nl) as [|line lines IH]; [done|].
    cbn [flat_map]. rewrite (Hnone line) by apply list_elem_of_here.
    cbn [app].
    apply IH. intros l Hl. apply Hnone. by apply list_elem_of_further.
  - intros question w items w' Hrun.
    apply chat_then_dash_items in Hrun as [r ->]. apply dash_items_nonempty.
  - intros question w items w' Hrun.
    apply chat_then_dash_items in Hrun as [r ->]. apply dash_items_nonempty.
  - intros question available_chunks w items w' Hrun.
    apply chat_then_dash_items in Hrun as [r ->]. apply dash_items_nonempty.
Qed.

End ParsedLists.

(** ** Gap analysis *)

Section GapAnalysis.
Context {World float : Type} `{!Externals World float}.
Import Query.

Lemma analysis_step_items st line :
  Forall (fun item => item <> [] /\ trimmed item) (missing_info (snd st)) ->
  Forall (fun item => item <> [] /\ trimmed item) (follow_up_questions (snd st)) ->
  Forall (fun item => item <> [] /\ trimmed item)
    (missing_info (snd (analysis_step st line)))
  /\ Forall (fun item => item <> [] /\ trimmed item)
       (follow_up_questions (snd (analysis_step st line))).
Proof.
  destruct st as [tag a]. cbn [snd]. intros Hm Hq. unfold analysis_step.
  destruct (startswith (lit "MISSING INFORMATION:") (strip line)); [by split|].
  destruct (startswith (lit "FOLLOW-UP QUESTIONS NEEDED:") (strip line)); [by split|].
  destruct (startswith (lit "- ") (strip line)) eqn:Hdash; [|by split].
  pose proof (dash_item_nonempty line Hdash) as Hitem.
  destruct tag; cbn [snd missing_info follow_up_questions]; split; try done;
    apply Forall_app; split; try done; by constructor.
Qed.

Lemma analysis_fold_items lines st :
  Forall (fun item => item <> [] /\ trimmed item) (missing_info (snd st)) ->
  Forall (fun item => item <> [] /\ trimmed item) (follow_up_questions (snd st)) ->
  Forall (fun item => item <> [] /\ trimmed item)
    (missing_info (snd (fold_left analysis_step lines st)))
  /\ Forall (fun item => item <> [] /\ trimmed item)
       (follow_up_questions (snd (fold_left analysis_step lines st))).
Proof.
  revert st. induction lines as [|line lines IH]; intros st Hm Hq; cbn [fold_left]; [done|].
  destruct (analysis_step_items st line Hm Hq). by apply IH.
Qed.

(** Without a questions header no line is taken as a follow-up question. *)
Lemma analysis_fold_no_questions lines st :
  (forall line, line ∈ lines ->
     startswith (lit "FOLLOW-UP QUESTIONS NEEDED:") (strip line) = false) ->
  fst st <> QuestionsSection ->
  follow_up_questions (snd (fold_left analysis_step lines st))
  = follow_up_questions (snd st).
Proof.
  revert st. induction lines as [|line lines IH]; intros st Hnone Htag; cbn [fold_left]; [done|].
  assert (fst (analysis_step st line) <> QuestionsSection
          /\ follow_up_questions (snd (analysis_step st line))
             = follow_up_questions (snd st)) as [Htag' Hsame].
  { destruct st as [tag a]. unfold analysis_step. simpl in Htag.
    destruct (startswith (lit "MISSING INFORMATION:") (strip line)); [done|].
    rewrite (Hnone line) by apply list_elem_of_here.
    destruct (startswith (lit "- ") (strip line)); [|done].
    by destruct tag. }
  rewrite IH; [done| |done].
  intros l Hl. apply Hnone. by apply list_elem_of_further.
Qed.

(** Without a missing-information header no line is taken as a missing
    item. *)
Lemma analysis_fold_no_missing lines st :
  (forall line, line ∈ lines ->
     startswith (lit "MISSING INFORMATION:") (strip line) = false) ->
  fst st <> MissingSection ->
  missing_info (snd (fold_left analysis_step lines st)) = missing_info (snd st).
Proof.
  revert st. induction lines as [|line lines IH]; intros st Hnone Htag; cbn [fold_left]; [done|].
  assert (fst (analysis_step st line) <> MissingSection
          /\ missing_info (snd (analysis_step st line)) = missing_info (snd st))
    as [Htag' Hsame].
  { destruct st as [tag a]. unfold analysis_step. simpl in Htag.
    rewrite (Hnone line) by apply list_elem_of_here.
    destruct (startswith (lit "FOLLOW-UP QUESTIONS NEEDED:") (strip line)); [done|].
    destruct (startswith (lit "- ") (strip line)); [|done].
    by destruct tag. }
  rewrite IH; [done| |done].
  intros l Hl. apply Hnone. by apply list_elem_of_further.
Qed.

(** X2: the lists [analyze_missing_information] parses out of a reply hold
    no empty string and no string with white space at an end; a reply in
    which no line starts with "FOLLOW-UP QUESTIONS NEEDED:" gives no
    follow-up question, and one in which no line starts with
    "MISSING INFORMATION:" gives no missing item, whatever dashed lines it
    has. *)
Theorem parse_analysis_sections (response_text : str) :
  Forall (fun item => item <> [] /\ trimmed item)
    (missing_info (parse_analysis response_text))
  /\ Forall (fun item => item <> [] /\ trimmed item)
       (follow_up_questions (parse_analysis response_text))
  /\ ((forall line, line ∈ split response_text nl ->
         startswith (lit "FOLLOW-UP QUESTIONS NEEDED:") (strip line) = false) ->
      follow_up_questions (parse_analysis response_text) = [])
  /\ ((forall line, line ∈ split response_text nl ->
         startswith (lit "MISSING INFORMATION:") (strip line) = false) ->
      missing_info (parse_analysis response_text) = []).
Proof.
  unfold parse_analysis.
  destruct (analysis_fold_items (split response_text nl)
              (NoSection, {| missing_info := []; follow_up_questions := [] |}))
    as [Hm Hq]; [constructor..|].
  split; [done|]. split; [done|]. split.
  - intros Hnone. by rewrite analysis_fold_no_questions.
  - intros Hnone. by rewrite analysis_fold_no_missing.
Qed.

End GapAnalysis.

(** ** Years *)

Lemma contains_cons needle c r :
  contains needle (c :: r) = startswith needle (c :: r) || contains needle r.
Proof. reflexivity. Qed.

Lemma search_year_some s g :
  search_year s = Some g ->
  exists c3 c4,
    g = ["2"; "0"; c3; c4]%char /\ isdigit c3 = true /\ isdigit c4 = true
    /\ contains g s = true.
Proof.
  induction s as [|c1 r IH]; [done|]. cbn [search_year].
  destruct r as [|c2 [|c3 [|c4 r']]]; try done.
  destruct (Ascii.eqb_spec c1 "2") as [->|]; cbn [andb].
  - destruct (Ascii.eqb_spec c2 "0") as [->|]; cbn [andb].
    + destruct (isdigit c3) eqn:H3; cbn [andb].
      * destruct (isdigit c4) eqn:H4.
        -- intros Heq. inversion Heq; subst g. exists c3, c4.
           repeat split; try done. rewrite contains_cons.
           cbn [startswith]. by rewrite !Ascii.eqb_refl.
        -- intros Hg. destruct (IH Hg) as (d3 & d4 & -> & ? & ? & Hin).
           exists d3, d4. repeat split; try done.
           rewrite contains_cons, Hin. apply orb_true_r.
      * intros Hg. destruct (IH Hg) as (d3 & d4 & -> & ? & ? & Hin).
        exists d3, d4. repeat split; try done.
        rewrite contains_cons, Hin. apply orb_true_r.
    + intros Hg. destruct (IH Hg) as (d3 & d4 & -> & ? & ? & Hin).
      exists d3, d4. repeat split; try done.
      rewrite contains_cons, Hin. apply orb_true_r.
  - intros Hg. destruct (IH Hg) as (d3 & d4 & -> & ? & ? & Hin).
    exists d3, d4. repeat split; try done.
    rewrite contains_cons, Hin. apply orb_true_r.
Qed.




Lemma digit_value_range c : isdigit c = true -> 0 <= digit_value c <= 9.
Proof.
  unfold isdigit, digit_value. intros Hc.
  apply andb_true_iff in Hc as [H1 H2].
  apply N.leb_le in H1, H2. lia.
Qed.

Lemma int_of_year c3 c4 :
  int_of_digits ["2"; "0"; c3; c4]%char
  = 2000 + 10 * digit_value c3 + digit_value c4.
Proof. unfold int_of_digits. cbn [fold_left]. change (digit_value "2") with 2.
  change (digit_value "0") with 0. lia. Qed.


(** ** More on the retriever *)

Section RetrieverMore.
Context {World float : Type} `{!Externals World float}.
Import Query.

Lemma bind_Raise {A B} (c : M World A) (k : A -> M World B) w e w1 :
  c w = (Raise e, w1) -> bind c k w = (Raise e, w1).
Proof. unfold bind. by intros ->. Qed.

(** Every chunk returned passed the year test and is the metadata entry of
    a neighbour id. *)
Lemma retrieve_results_members meta k target_year I0 c :
  c ∈ slice_to (retrieve_loop meta k target_year I0 []) k ->
  accepts target_year c = true
  /\ exists idx, idx ∈ I0 /\ meta !! py_str idx = Some c.
Proof.
  destruct (retrieve_results_prefix meta k target_year I0) as (n & -> & _).
  intros Hc. eapply elem_of_sublist in Hc; [|apply sublist_take].
  apply list_elem_of_filter in Hc as [Hacc Hc].
  split; [by apply Is_true_eq_true|].
  unfold resolved in Hc. by apply list_elem_of_omap in Hc.
Qed.

(** X4: [retrieve] returns nothing but what the search and the metadata
    file gave it: every chunk returned is the metadata entry stored under
    the decimal string of an id that the index search returned, and it
    passed the year test.  Ids without a metadata entry (such as the -1 with
    which an index fills up a short answer) are passed over. *)
Theorem retrieve_grounded query k target_year w res w' :
  retrieve query k target_year w = (Ok res, w') ->
  exists ix meta q_emb DI w1 w2 w3,
    load_index INDEX_PATH w = (Ok ix, w1)
    /\ load_meta META_PATH w1 = (Ok meta, w2)
    /\ embed_query query w2 = (Ok q_emb, w3)
    /\ index_search ix q_emb (search_k k target_year) w3 = (Reply DI, w')
    /\ Forall (fun c => exists d idx,
                 (d, idx) ∈ DI /\ meta !! py_str idx = Some c
                 /\ accepts target_year c = true) res.
Proof.
  intros Hrun.
  apply retrieve_inv in Hrun
    as (ix & meta & q_emb & DI & w1 & w2 & w3 & Hix & Hmeta & Hemb & Hsearch & ->).
  exists ix, meta, q_emb, DI, w1, w2, w3. repeat (split; [done|]).
  apply Forall_forall. intros c Hc.
  apply retrieve_results_members in Hc as (Hacc & idx & Hidx & Hlook).
  apply list_elem_of_In, in_map_iff in Hidx as ([d idx'] & Heq & Hin).
  simpl in Heq. subst idx'. exists d, idx. split; [by apply list_elem_of_In|done].
Qed.

(** X5: when the target year is the year read from the question, every
    chunk returned carries a year, and that year is the target year or next
    to it; a chunk with year 0 or without year (a document whose file name
    showed no year) is never returned for such a question. *)
Theorem retrieve_query_year query k Y w res w' :
  extract_year_from_query query = Some Y ->
  retrieve query k (Some Y) w = (Ok res, w') ->
  Forall (fun c => exists y, year c = Some y /\ Y - 1 <= y <= Y + 1 /\ y <> 0) res.
Proof.
  intros Hyear Hrun.
  assert (2000 <= Y <= 2099) as HY.
  { unfold extract_year_from_query in Hyear.
    destruct (search_year query) as [g|] eqn:Hs; [|done].
    destruct (search_year_some query g Hs) as (c3 & c4 & -> & H3 & H4 & _).
    rewrite int_of_year in Hyear. inversion Hyear.
    pose proof (digit_value_range c3 H3). pose proof (digit_value_range c4 H4).
    lia. }
  apply retrieve_inv in Hrun
    as (ix & meta & q_emb & DI & w1 & w2 & w3 & _ & _ & _ & _ & ->).
  apply Forall_forall. intros c Hc.
  apply retrieve_results_members in Hc as (Hacc & _).
  apply Is_true_eq_left, accepts_truthy in Hacc; [|lia].
  unfold get_year in Hacc. destruct (year c) as [y|]; simpl in Hacc; [|lia].
  exists y. split; [done|]. lia.
Qed.

(** X6: without the index file nothing is answered: [retrieve] raises
    FileNotFoundError straight after the test of the path, before any call
    of the embedding service or the language model, and the exception
    passes through [answer_sub_question_with_fallback] (no sentinel result
    is made of it), [generate_answer] and the computation of the final
    answer in the chat page, whose handler makes of it the message "Sorry, I
    encountered an error: Index file not found: faiss_index.bin". *)
Theorem missing_index_is_an_error question retrieved_chunks k target_year w w1 :
  os_path_exists INDEX_PATH w = (Reply false, w1) ->
  retrieve question k target_year w
  = (Raise (Exception (lit "FileNotFoundError")
              (lit "Index file not found: faiss_index.bin")), w1)
  /\ answer_sub_question_with_fallback question target_year w
     = (Raise (Exception (lit "FileNotFoundError")
                 (lit "Index file not found: faiss_index.bin")), w1)
  /\ generate_answer question retrieved_chunks w
     = (Raise (Exception (lit "FileNotFoundError")
                 (lit "Index file not found: faiss_index.bin")), w1)
  /\ StreamlitApp.final_answer question w
     = (Raise (Exception (lit "FileNotFoundError")
                 (lit "Index file not found: faiss_index.bin")), w1)
  /\ StreamlitApp.assistant_message question w
     = (Ok (lit "Sorry, I encountered an error: Index file not found: faiss_index.bin"),
        w1).
Proof.
  intros Hexists.
  assert (forall q k ty,
            retrieve q k ty w
            = (Raise (Exception (lit "FileNotFoundError")
                        (lit "Index file not found: faiss_index.bin")), w1))
    as Hret.
  { intros q k' ty. unfold retrieve. apply bind_Raise.
    unfold load_index. by rewrite (bind_Ok _ _ _ _ _ (call_Ok _ _ _ _ Hexists)). }
  assert (forall q ty,
            answer_sub_question_with_fallback q ty w
            = (Raise (Exception (lit "FileNotFoundError")
                        (lit "Index file not found: faiss_index.bin")), w1))
    as Hfall.
  { intros q ty. unfold answer_sub_question_with_fallback, answer_sub_question.
    by do 2 apply bind_Raise. }
  assert (StreamlitApp.final_answer question w
          = (Raise (Exception (lit "FileNotFoundError")
                      (lit "Index file not found: faiss_index.bin")), w1))
    as Hpage.
  { unfold StreamlitApp.final_answer. by apply bind_Raise. }
  split; [done|]. split; [done|]. split; [|split; [done|]].
  - unfold generate_answer. by apply bind_Raise.
  - unfold StreamlitApp.assistant_message, try_except. by rewrite Hpage.
Qed.

End RetrieverMore.

Lemma retrieve_grounded_witness :
  Query.retrieve (lit "revenue") 2 None (Script.base [])
  = (Ok [Script.mk_chunk "ford_2019.pdf" 0 "Revenue was 3 in 2019." 2019;
         Script.mk_chunk "ford_2022.pdf" 0 "Revenue was 7 in 2022." 2022],
     Script.base [])
  /\ Forall (fun c => Query.accepts None c = true)
       [Script.mk_chunk "ford_2019.pdf" 0 "Revenue was 3 in 2019." 2019;
        Script.mk_chunk "ford_2022.pdf" 0 "Revenue was 7 in 2022." 2022].
Proof.
  assert (Query.retrieve (lit "revenue") 2 None (Script.base [])
          = (Ok [Script.mk_chunk "ford_2019.pdf" 0 "Revenue was 3 in 2019." 2019;
                 Script.mk_chunk "ford_2022.pdf" 0 "Revenue was 7 in 2022." 2022],
             Script.base [])) as Hrun by (vm_compute; reflexivity).
  split; [exact Hrun|].
  destruct (retrieve_grounded _ _ _ _ _ _ Hrun)
    as (ix & meta & q_emb & DI & w1 & w2 & w3 & _ & _ & _ & _ & Hall).
  eapply Forall_impl; [exact Hall|].
  intros c (d & idx & _ & _ & Hacc). exact Hacc.
Defined.

Lemma retrieve_query_year_witness :
  Query.extract_year_from_query (lit "What was revenue in 2022?") = Some 2022
  /\ Query.retrieve (lit "What was revenue in 2022?") 4 (Some 2022) (Script.base [])
     = (Ok [Script.mk_chunk "ford_2022.pdf" 0 "Revenue was 7 in 2022." 2022;
            Script.mk_chunk "ford_2021.pdf" 0 "Revenue was 5 in 2021." 2021],
        Script.base [])
  /\ Forall (fun c => exists y, year c = Some y /\ 2022 - 1 <= y <= 2022 + 1 /\ y <> 0)
       [Script.mk_chunk "ford_2022.pdf" 0 "Revenue was 7 in 2022." 2022;
        Script.mk_chunk "ford_2021.pdf" 0 "Revenue was 5 in 2021." 2021].
Proof.
  assert (Query.extract_year_from_query (lit "What was revenue in 2022?")
          = Some 2022) as Hyear by reflexivity.
  assert (Query.retrieve (lit "What was revenue in 2022?") 4 (Some 2022)
            (Script.base [])
          = (Ok [Script.mk_chunk "ford_2022.pdf" 0 "Revenue was 7 in 2022." 2022;
                 Script.mk_chunk "ford_2021.pdf" 0 "Revenue was 5 in 2021." 2021],
             Script.base [])) as Hrun by (vm_compute; reflexivity).
  split; [exact Hyear|]. split; [exact Hrun|].
  exact (retrieve_query_year _ _ _ _ _ _ Hyear Hrun).
Defined.

Lemma missing_index_is_an_error_witness :
  @Query.generate_answer _ _ Script.externals_without_index
    (lit "What was revenue in 2022?") [] (Script.base ["unused"])
  = (Raise (Exception (lit "FileNotFoundError")
              (lit "Index file not found: faiss_index.bin")),
     Script.base ["unused"]).
Proof.
  assert (@os_path_exists _ _ Script.externals_without_index
            (@Query.INDEX_PATH) (Script.base ["unused"])
          = (Reply false, Script.base ["unused"])) as Hexists
    by (vm_compute; reflexivity).
  exact (proj1 (proj2 (proj2
           (@missing_index_is_an_error _ _ Script.externals_without_index
              (lit "What was revenue in 2022?") [] 4 None _ _ Hexists)))).
Defined.

(** ** More on the orchestrator *)

Section OrchestratorMore.
Context {World float : Type} `{!Externals World float}.
Import Query.

(** The follow-up loop over a list in two parts. *)
Lemma answer_follow_ups_app target_year pre post acc w :
  answer_follow_ups target_year (pre ++ post) acc w
  = bind (answer_follow_ups target_year pre acc)
      (fun rs => answer_follow_ups target_year post rs) w.
Proof.
  revert acc w. induction pre as [|q pre IH]; intros acc w; simpl; [done|].
  destruct (answer_sub_question_with_fallback q target_year w)
    as [[r|e|n] w1] eqn:Hq.
  - rewrite (bind_Ok _ _ _ _ _ Hq), IH. unfold bind at 2 3. by rewrite Hq.
  - unfold bind. by rewrite Hq.
  - unfold bind. by rewrite Hq.
Qed.

(** X7: [generate_answer] (and the chat page) has no handler around the
    follow-up questions: when the answering of one follow-up question
    raises, after the main answer and the earlier follow-ups were obtained,
    the whole call raises the same exception; the main answer is not
    returned and no synthesis is asked for.  The chat page then shows the
    error message of its handler in place of the main answer. *)
Theorem follow_up_failure_aborts question retrieved_chunks w main_result w1 a w2
    pre follow_up_q post results w3 e w4 :
  answer_sub_question_with_fallback question (extract_year_from_query question) w
  = (Ok main_result, w1) ->
  analyze_missing_information question (answer main_result) (chunks main_result) w1
  = (Ok a, w2) ->
  follow_up_questions a = pre ++ follow_up_q :: post ->
  answer_follow_ups (extract_year_from_query question) pre [] w2 = (Ok results, w3) ->
  answer_sub_question_with_fallback follow_up_q (extract_year_from_query question) w3
  = (Raise e, w4) ->
  generate_answer question retrieved_chunks w = (Raise e, w4)
  /\ StreamlitApp.final_answer question w = (Raise e, w4)
  /\ StreamlitApp.assistant_message question w
     = (Ok (lit "Sorry, I encountered an error: " ++ exn_msg e), w4).
Proof.
  intros Hmain Han Hqs Hpre Hfail.
  assert (answer_follow_ups (extract_year_from_query question)
            (follow_up_questions a) [] w2 = (Raise e, w4)) as Hloop.
  { rewrite Hqs, answer_follow_ups_app, (bind_Ok _ _ _ _ _ Hpre).
    simpl. by apply bind_Raise. }
  assert (StreamlitApp.final_answer question w = (Raise e, w4)) as Hpage.
  { unfold StreamlitApp.final_answer.
    rewrite (bind_Ok _ _ _ _ _ Hmain), (bind_Ok _ _ _ _ _ Han), Hqs.
    replace (Utils.nonempty (pre ++ follow_up_q :: post)) with true
      by (by destruct pre).
    rewrite <- Hqs. by apply bind_Raise. }
  split; [|split; [done|]].
  - unfold generate_answer.
    rewrite (bind_Ok _ _ _ _ _ Hmain), (bind_Ok _ _ _ _ _ Han).
    by apply bind_Raise.
  - unfold StreamlitApp.assistant_message, try_except. by rewrite Hpage.
Qed.

(** X8: the computation of the final answer in the chat page and
    [generate_answer] end alike, with the same answer or the same exception
    in the same world, in every run but those in which the main answer and
    the gap analysis were obtained and the analysis lists no follow-up
    question. *)
Theorem orchestrations_agree question retrieved_chunks w :
  StreamlitApp.final_answer question w = generate_answer question retrieved_chunks w
  \/ exists main_result w1 a w2,
       answer_sub_question_with_fallback question
         (extract_year_from_query question) w = (Ok main_result, w1)
       /\ analyze_missing_information question (answer main_result)
            (chunks main_result) w1 = (Ok a, w2)
       /\ follow_up_questions a = []
       /\ StreamlitApp.final_answer question w = (Ok (answer main_result), w2)
       /\ generate_answer question retrieved_chunks w
          = synthesize_final_answer question [main_result] w2.
Proof.
  unfold StreamlitApp.final_answer, generate_answer.
  destruct (answer_sub_question_with_fallback question
              (extract_year_from_query question) w) as [[main|e|n] w1] eqn:Hmain.
  2,3: left; unfold bind; by rewrite Hmain.
  rewrite !(bind_Ok _ _ _ _ _ Hmain).
  destruct (analyze_missing_information question (answer main) (chunks main) w1)
    as [[a|e|n] w2] eqn:Han.
  2,3: left; unfold bind; by rewrite Han.
  rewrite !(bind_Ok _ _ _ _ _ Han).
  destruct (follow_up_questions a) as [|fq fqs] eqn:Hqs.
  - right. exists main, w1, a, w2. done.
  - by left.
Qed.

Lemma len_join_le (sep : str) (parts : list str) (bound : Z) :
  0 <= bound ->
  Forall (fun p => len p <= bound) parts ->
  len (join sep parts) <= len parts * bound + (len parts - 1) * len sep
  \/ parts = [].
Proof.
  intros Hb Hparts. induction Hparts as [|p parts Hp Hall IH]; [by right|].
  left. destruct parts as [|p' parts'].
  - simpl. unfold len in *. simpl. lia.
  - destruct IH as [IH|]; [|done].
    change (join sep (p :: p' :: parts')) with (p ++ sep ++ join sep (p' :: parts')).
    unfold len in *. rewrite !length_app. simpl length in *. lia.
Qed.

(** X9: the context that gap analysis (and
    [generate_context_driven_sub_questions]) puts into its prompt is made
    of at most 3 chunks, 300 characters of each: it is never longer than
    902 characters, however many and however long the retrieved chunks
    are. *)
Theorem chunk_context_bounded (available_chunks : list chunk) :
  len (chunk_context available_chunks) <= 902
  /\ chunk_context available_chunks
     = join nl (map (fun c => take 300 (text c)) (take 3 available_chunks)).
Proof.
  assert (chunk_context available_chunks
          = join nl (map (fun c => take 300 (text c)) (take 3 available_chunks)))
    as Heq.
  { unfold chunk_context. rewrite (slice_to_take available_chunks 3) by lia.
    f_equal. apply map_ext. intros c. by rewrite slice_to_take by lia. }
  split; [|done]. rewrite Heq.
  destruct (len_join_le nl (map (fun c => take 300 (text c)) (take 3 available_chunks))
              300 ltac:(lia)) as [Hlen|Hnil].
  - apply Forall_forall. intros p Hp.
    apply list_elem_of_In, in_map_iff in Hp as (c & <- & _).
    unfold len. rewrite length_take. lia.
  - assert (len (map (fun c => take 300 (text c)) (take 3 available_chunks)) <= 3).
    { unfold len. rewrite length_map, length_take. lia. }
    change (len nl) with 1 in Hlen. nia.
  - rewrite Hnil. simpl. unfold len. simpl. lia.
Qed.

End OrchestratorMore.

Lemma follow_up_failure_aborts_witness :
  Query.generate_answer (lit "What was revenue in 2022?") []
    (Script.base ["Revenue was 7 [1].";
                  "FOLLOW-UP QUESTIONS NEEDED:
- What was the margin in 2022?"])
  = (Raise (Exception (lit "APIError") (lit "no reply")), Script.base []).
Proof.
  set (q := lit "What was revenue in 2022?").
  set (w := Script.base _).
  run_to Hmain (Query.answer_sub_question_with_fallback q
                  (Query.extract_year_from_query q) w).
  match type of Hmain with _ = (Ok ?r, ?w1) =>
    run_to Han (Query.analyze_missing_information q (answer r) (chunks r) w1)
  end.
  match type of Han with _ = (Ok ?a, ?w2) =>
    run_to Hfail (Query.answer_sub_question_with_fallback
                    (lit "What was the margin in 2022?")
                    (Query.extract_year_from_query q) w2)
  end.
  etransitivity.
  - eapply (proj1 (follow_up_failure_aborts q [] w _ _ _ _ [] _ [] [] _ _ _
                     Hmain Han eq_refl eq_refl Hfail)).
  - vm_compute. reflexivity.
Defined.

(** ** More on the chunker *)

Lemma py_range_done (a stop step : Z) :
  0 < step -> stop <= a -> py_range a stop step = Some [].
Proof.
  intros Hstep Hdone. unfold py_range.
  destruct (Z.eqb_spec step 0); [lia|]. destruct (Z.ltb_spec 0 step); [|lia].
  assert ((stop - a + step - 1) / step <= 0) as Hn.
  { apply Z.lt_succ_r. apply Z.div_lt_upper_bound; lia. }
  by replace (Z.to_nat ((stop - a + step - 1) / step)) with 0%nat by lia.
Qed.

Lemma py_range_next (a stop step : Z) :
  0 < step -> a < stop ->
  exists rest,
    py_range (a + step) stop step = Some rest
    /\ py_range a stop step = Some (a :: rest).
Proof.
  intros Hstep Hlt. unfold py_range.
  destruct (Z.eqb_spec step 0); [lia|]. destruct (Z.ltb_spec 0 step); [|lia].
  eexists. split; [reflexivity|].
  replace (stop - a + step - 1) with (stop - (a + step) + step - 1 + 1 * step) by lia.
  rewrite Z.div_add by lia.
  assert (-1 <= (stop - (a + step) + step - 1) / step) as Hn.
  { apply Z.div_le_lower_bound; lia. }
  destruct (Z.le_gt_cases 0 ((stop - (a + step) + step - 1) / step)) as [Hpos|Hneg].
  - rewrite Z2Nat.inj_add by lia. rewrite Nat.add_comm. simpl.
    do 2 f_equal; [lia|]. rewrite <- seq_shift, map_map.
    apply map_ext. intros j. lia.
  - exfalso.
    assert ((stop - (a + step) + step - 1) / step = -1) as Hm by lia.
    pose proof (Z.mul_succ_div_gt (stop - (a + step) + step - 1) step Hstep).
    rewrite Hm in *. lia.
Qed.

Section ChunkerMore.
Import Utils.

(** With enough fuel the loop adds the windows at the positions of
    [range(start, len(text), chunk_size - overlap)]. *)
Lemma chunk_text_loop_windows fuel text cs ov start acc :
  ov < cs -> (1 <= fuel)%nat -> len text - start < Z.of_nat fuel ->
  exists starts,
    py_range start (len text) (cs - ov) = Some starts
    /\ chunk_text_loop fuel text cs ov start acc
       = Some (acc ++ map (window text cs) starts).
Proof.
  intros Hov. revert start acc.
  induction fuel as [|fuel IH]; intros start acc Hpos Hfuel; [lia|].
  simpl. destruct (Z.ltb_spec start (len text)) as [Hlt|Hge].
  - destruct (py_range_next start (len text) (cs - ov)) as (rest & Hrest & Hhere);
      [lia | lia |].
    destruct (IH (start + (cs - ov)) (acc ++ [window text cs start]))
      as (starts & Hstarts & Hrun); [lia | lia |].
    rewrite Hrest in Hstarts. inversion Hstarts; subst starts.
    exists (start :: rest). split; [done|].
    unfold window in *. rewrite Hrun, <- app_assoc. done.
  - exists []. split; [apply py_range_done; lia|]. by rewrite app_nil_r.
Qed.

(** X10: with overlap < chunk_size, [chunk_text] cuts one window at each
    position 0, step, 2 step, ... below the length of the text, where
    step = chunk_size - overlap: window j is text[j step : j step +
    chunk_size] stripped, and there are ceil(len(text) / step) chunks. *)
Theorem chunk_text_windows (text : str) (chunk_size overlap : Z) (fuel : nat) :
  overlap < chunk_size -> (1 <= fuel)%nat ->
  chunk_text fuel text chunk_size overlap
  = Some (map (fun j : nat =>
                 strip (slice text (Z.of_nat j * (chunk_size - overlap))
                          (Z.min (Z.of_nat j * (chunk_size - overlap) + chunk_size)
                             (len text))))
            (seq 0 (Z.to_nat ((len text + (chunk_size - overlap) - 1)
                              / (chunk_size - overlap))))).
Proof.
  intros Hov Hfuel. unfold chunk_text.
  destruct (chunk_text_loop_windows (fuel + length text) text chunk_size overlap 0 []
              Hov ltac:(lia) ltac:(unfold len; lia)) as (starts & Hstarts & ->).
  unfold py_range in Hstarts.
  destruct (Z.eqb_spec (chunk_size - overlap) 0); [lia|].
  destruct (Z.ltb_spec 0 (chunk_size - overlap)); [|lia].
  inversion Hstarts; subst starts. simpl. rewrite map_map, Z.sub_0_r.
  f_equal.
Qed.

Lemma chunk_text_windows_witness :
  chunk_text 1 (lit "abcdefghij") 4 1
  = Some [lit "abcd"; lit "defg"; lit "ghij"; lit "j"].
Proof.
  rewrite (chunk_text_windows (lit "abcdefghij") 4 1 1 ltac:(lia) ltac:(lia)).
  reflexivity.
Defined.

Lemma lstrip_blank s : Forall (fun c => isspace c = true) s -> lstrip s = [].
Proof. induction 1 as [|c s Hc _ IH]; simpl; [done|]. by rewrite Hc. Qed.

Lemma strip_blank s : Forall (fun c => isspace c = true) s -> strip s = [].
Proof. intros Hs. unfold strip. by rewrite lstrip_blank. Qed.

Lemma Forall_slice {A} (P : A -> Prop) (s : list A) lo hi :
  Forall P s -> Forall P (slice s lo hi).
Proof. intros Hs. unfold slice. by apply Forall_take, Forall_drop. Qed.

Lemma split_go_Forall (P : ascii -> Prop) sep s skip cur :
  Forall P s -> Forall P cur -> Forall (Forall P) (split_go sep s skip cur).
Proof.
  intros Hs. revert skip cur.
  induction Hs as [|c r Hc Hr IH]; intros skip cur Hcur; simpl.
  - by constructor.
  - destruct skip as [|k]; [|by apply IH].
    destruct (startswith sep (c :: r)).
    + constructor; [done|]. by apply IH.
    + apply IH. apply Forall_app. split; [done|]. by constructor.
Qed.

Lemma paragraph_loop_blank cs ov paragraphs st :
  Forall (Forall (fun c => isspace c = true)) paragraphs ->
  fold_left (paragraph_step cs ov) paragraphs st = st.
Proof.
  intros Hblank. revert st.
  induction Hblank as [|p ps Hp _ IH]; intros st; cbn [fold_left]; [done|].
  rewrite <- (IH st) at 2. f_equal.
  unfold paragraph_step. destruct st as [chunks current].
  by rewrite (strip_blank p Hp).
Qed.

(** On a text of white space the paragraph pass finds nothing and the
    fixed-width windows are used. *)
Lemma chunk_by_sections_blank fuel text cs ov :
  Forall (fun c => isspace c = true) text ->
  chunk_by_sections fuel text cs ov = chunk_text fuel text cs ov.
Proof.
  intros Hblank. unfold chunk_by_sections, semantic_chunks.
  rewrite paragraph_loop_blank; [done|].
  apply split_go_Forall; [done | constructor].
Qed.

(** X11: a text made of white space only has no paragraph, so
    [chunk_by_sections] falls back to [chunk_text].  The empty text gives
    no chunk, whatever the sizes; a non-empty blank text gives, for
    overlap < chunk_size, one empty string per window, so empty chunks. *)
Theorem blank_text_chunks (text : str) (chunk_size overlap : Z) (fuel : nat) :
  Forall (fun c => isspace c = true) text -> (1 <= fuel)%nat ->
  chunk_by_sections fuel text chunk_size overlap
  = chunk_text fuel text chunk_size overlap
  /\ (text = [] -> chunk_by_sections fuel text chunk_size overlap = Some [])
  /\ (overlap < chunk_size ->
      chunk_by_sections fuel text chunk_size overlap
      = Some (repeat [] (Z.to_nat ((len text + (chunk_size - overlap) - 1)
                                   / (chunk_size - overlap))))).
Proof.
  intros Hblank Hfuel.
  rewrite chunk_by_sections_blank by done.
  split; [done|]. split.
  - intros ->. unfold chunk_text. destruct fuel; [lia|]. reflexivity.
  - intros Hov. unfold chunk_text.
    destruct (chunk_text_loop_windows (fuel + length text) text chunk_size overlap
                0 [] Hov ltac:(lia) ltac:(unfold len; lia))
      as (starts & Hstarts & ->).
    unfold py_range in Hstarts.
    destruct (Z.eqb_spec (chunk_size - overlap) 0); [lia|].
    destruct (Z.ltb_spec 0 (chunk_size - overlap)); [|lia].
    inversion Hstarts; subst starts. simpl. rewrite map_map, Z.sub_0_r.
    f_equal. clear Hstarts.
    set (count := Z.to_nat _). clearbody count. generalize 0%nat.
    induction count as [|count IH]; intros first; [done|].
    simpl. rewrite IH. f_equal.
    unfold window. apply strip_blank. by apply Forall_slice.
Qed.

Lemma blank_text_chunks_witness :
  chunk_by_sections 1 (lit "  

   ") 4 1 = Some [[]; []; []].
Proof.
  assert (Forall (fun c => isspace c = true) (lit "  

   ")) as Hblank by (repeat constructor).
  rewrite (proj2 (proj2 (blank_text_chunks _ 4 1 1 Hblank ltac:(lia)))) by lia.
  reflexivity.
Defined.

Lemma app3_snoc {A} (a b l : list A) (x : A) :
  a ++ b ++ l ++ [x] = (a ++ b ++ l) ++ [x].
Proof. by rewrite <- !app_assoc. Qed.

Lemma strip_visible_end l x :
  isspace x = false -> strip (l ++ [x]) <> [].
Proof.
  intros Hx. rewrite strip_keeps_one by done. by destruct (lstrip l).
Qed.

(** What the paragraph loop keeps true of [(chunks, current_chunk)]: the
    chunks closed so far are trimmed and not empty, and the chunk being
    built is empty or ends with a character that is not white space. *)
Lemma paragraph_step_closed cs ov chunks current p :
  Forall (fun c => c <> [] /\ trimmed c) chunks ->
  (current = [] \/ exists l x, current = l ++ [x] /\ isspace x = false) ->
  Forall (fun c => c <> [] /\ trimmed c) (fst (paragraph_step cs ov (chunks, current) p))
  /\ (snd (paragraph_step cs ov (chunks, current) p) = []
      \/ exists l x, snd (paragraph_step cs ov (chunks, current) p) = l ++ [x]
                     /\ isspace x = false).
Proof.
  intros Hchunks Hcur. unfold paragraph_step.
  destruct (nonempty (strip p)) eqn:Hp; cbn [negb]; [|by split].
  apply nonempty_true in Hp.
  destruct (trimmed_ends (strip p) (strip_trimmed p) Hp) as [_ (l & x & Hl & Hx)].
  destruct ((len current + len (strip p) >? cs) && nonempty current) eqn:Hflush.
  - apply andb_true_iff in Hflush as [_ Hne]. apply nonempty_true in Hne.
    destruct Hcur as [->|(l' & x' & -> & Hx')]; [done|].
    cbn [fst snd]. split.
    + apply Forall_app. split; [done|]. constructor; [|done].
      split; [by apply strip_visible_end | apply strip_trimmed].
    + right. eexists _, x. split; [|exact Hx].
      rewrite Hl. apply app3_snoc.
  - destruct (nonempty current); cbn [fst snd]; (split; [exact Hchunks|]); right.
    + exists (current ++ nlnl ++ l), x. split; [|exact Hx].
      rewrite Hl. apply app3_snoc.
    + exists l, x. split; [exact Hl | exact Hx].
Qed.

Lemma paragraph_loop_closed cs ov paragraphs chunks current :
  Forall (fun c => c <> [] /\ trimmed c) chunks ->
  (current = [] \/ exists l x, current = l ++ [x] /\ isspace x = false) ->
  Forall (fun c => c <> [] /\ trimmed c)
    (fst (fold_left (paragraph_step cs ov) paragraphs (chunks, current)))
  /\ (snd (fold_left (paragraph_step cs ov) paragraphs (chunks, current)) = []
      \/ exists l x,
           snd (fold_left (paragraph_step cs ov) paragraphs (chunks, current))
           = l ++ [x] /\ isspace x = false).
Proof.
  revert chunks current.
  induction paragraphs as [|p ps IH]; intros chunks current Hchunks Hcur;
    cbn [fold_left]; [by split|].
  destruct (paragraph_step_closed cs ov chunks current p Hchunks Hcur) as [H1 H2].
  destruct (paragraph_step cs ov (chunks, current) p) as [chunks' current'].
  by apply IH.
Qed.

Lemma semantic_chunks_closed text cs ov :
  Forall (fun c => c <> [] /\ trimmed c) (semantic_chunks text cs ov).
Proof.
  unfold semantic_chunks.
  destruct (paragraph_loop_closed cs ov (split text nlnl) [] [])
    as [Hchunks Hcur]; [constructor | by left |].
  destruct (fold_left _ _ _) as [chunks current]. cbn [fst snd] in *.
  destruct (nonempty current) eqn:Hne; [|done].
  apply nonempty_true in Hne.
  destruct Hcur as [->|(l & x & -> & Hx)]; [done|].
  apply Forall_app. split; [done|]. constructor; [|done].
  split; [by apply strip_visible_end | apply strip_trimmed].
Qed.

Lemma chunk_text_loop_trimmed fuel text cs ov start acc r :
  chunk_text_loop fuel text cs ov start acc = Some r ->
  Forall trimmed acc -> Forall trimmed r.
Proof.
  revert start acc. induction fuel as [|fuel IH]; intros start acc Hrun Hacc;
    [done|].
  simpl in Hrun. destruct (start <? len text); [|by inversion Hrun; subst].
  eapply IH; [exact Hrun|].
  apply Forall_app. split; [done|]. constructor; [apply strip_trimmed|done].
Qed.

Lemma split_oversize_trimmed fuel cs ov chunks final r :
  split_oversize fuel cs ov chunks final = Some r ->
  Forall trimmed chunks -> Forall trimmed final -> Forall trimmed r.
Proof.
  revert final. induction chunks as [|c chunks IH]; intros final Hrun Hchunks Hfinal.
  - by inversion Hrun; subst.
  - apply Forall_cons in Hchunks as [Hc Hchunks]. simpl in Hrun.
    destruct (len c >? cs * 2).
    + destruct (chunk_text fuel c cs ov) as [sub|] eqn:Hsub; [|done].
      eapply IH; [exact Hrun | done |].
      apply Forall_app. split; [done|].
      unfold chunk_text in Hsub. eapply chunk_text_loop_trimmed; [exact Hsub|].
      constructor.
    + eapply IH; [exact Hrun | done |].
      apply Forall_app. split; [done|]. by constructor.
Qed.

(** X12: no chunk that [chunk_text] or [chunk_by_sections] returns starts
    or ends with white space, and the chunks of the paragraph pass are never
    empty (an empty chunk can only be a fixed-width window that fell on
    white space). *)
Theorem chunks_are_trimmed (text : str) (chunk_size overlap : Z) :
  Forall (fun c => c <> [] /\ trimmed c) (semantic_chunks text chunk_size overlap)
  /\ (forall fuel chunks,
        chunk_text fuel text chunk_size overlap = Some chunks ->
        Forall trimmed chunks)
  /\ (forall fuel chunks,
        chunk_by_sections fuel text chunk_size overlap = Some chunks ->
        Forall trimmed chunks).
Proof.
  split; [apply semantic_chunks_closed|]. split.
  - intros fuel chunks Hrun. unfold chunk_text in Hrun.
    eapply chunk_text_loop_trimmed; [exact Hrun | constructor].
  - intros fuel chunks Hrun. unfold chunk_by_sections in Hrun.
    destruct (split_oversize fuel chunk_size overlap
                (semantic_chunks text chunk_size overlap) []) as [final|] eqn:Hfinal;
      [|done].
    assert (Forall trimmed final) as Htrim.
    { eapply split_oversize_trimmed; [exact Hfinal| |constructor].
      eapply Forall_impl; [apply semantic_chunks_closed|]. by intros c [_ ?]. }
    destruct (nonempty final); simpl in Hrun.
    + by inversion Hrun; subst.
    + unfold chunk_text in Hrun.
      eapply chunk_text_loop_trimmed; [exact Hrun | constructor].
Qed.

Lemma infix_refl q : infix q q.
Proof. exists [], []. by rewrite app_nil_r. Qed.

Lemma infix_app_l q s t : infix q s -> infix q (s ++ t).
Proof. intros (a & b & ->). exists a, (b ++ t). by rewrite <- !app_assoc. Qed.

Lemma infix_app_r q s t : infix q t -> infix q (s ++ t).
Proof. intros (a & b & ->). exists (s ++ a), b. by rewrite <- !app_assoc. Qed.

(** Stripping a string keeps a trimmed, non-empty part of it whole. *)
Lemma strip_infix q s :
  q <> [] -> trimmed q -> infix q s -> infix q (strip s).
Proof.
  intros Hne Htrim (a & b & ->).
  destruct (trimmed_ends q Htrim Hne) as [(c & r & -> & Hc) (l & x & Hl & Hx)].
  exists (lstrip a), (rstrip b).
  destruct r as [|y m _] using rev_ind.
  - change (a ++ [c] ++ b) with (a ++ c :: b). by rewrite strip_keeps_one.
  - change (c :: m ++ [y]) with ((c :: m) ++ [y]) in Hl.
    apply app_inj_tail in Hl as [_ ->].
    replace (a ++ (c :: m ++ [x]) ++ b) with (a ++ c :: m ++ x :: b)
      by (simpl; by rewrite <- app_assoc).
    rewrite strip_keeps by done. simpl. by rewrite <- app_assoc.
Qed.

Lemma paragraph_step_covered cs ov st p q :
  q <> [] -> trimmed q -> covered q st -> covered q (paragraph_step cs ov st p).
Proof.
  intros Hne Htrim Hcov. destruct st as [chunks current].
  unfold paragraph_step.
  destruct (nonempty (strip p)); cbn [negb]; [|done].
  destruct ((len current + len (strip p) >? cs) && nonempty current).
  - left. destruct Hcov as [(c & Hc & Hin)|Hin]; cbn [fst snd] in *.
    + exists c. split; [|done]. apply elem_of_app. by left.
    + exists (strip current). split; [|by apply strip_infix].
      apply elem_of_app. right. apply list_elem_of_here.
  - destruct (nonempty current) eqn:Hcur.
    + destruct Hcov as [Hold|Hin]; [by left|]. right. by apply infix_app_l.
    + destruct Hcov as [Hold|Hin]; [by left|].
      apply nonempty_false in Hcur. cbn [snd] in Hin. subst current.
      destruct Hin as (a & b & Heq). symmetry in Heq.
      apply app_eq_nil in Heq as [_ Heq]. apply app_eq_nil in Heq as [Heq _].
      done.
Qed.

Lemma paragraph_step_covers cs ov st p :
  strip p <> [] -> covered (strip p) (paragraph_step cs ov st p).
Proof.
  intros Hne. destruct st as [chunks current]. unfold paragraph_step.
  apply nonempty_true in Hne. rewrite Hne. cbn [negb].
  right.
  destruct ((len current + len (strip p) >? cs) && nonempty current); cbn [snd].
  - apply infix_app_r, infix_app_r, infix_refl.
  - destruct (nonempty current); cbn [snd].
    + apply infix_app_r, infix_app_r, infix_refl.
    + apply infix_refl.
Qed.

Lemma paragraph_loop_covered cs ov paragraphs st q :
  q <> [] -> trimmed q ->
  covered q st \/ (exists p, p ∈ paragraphs /\ q = strip p) ->
  covered q (fold_left (paragraph_step cs ov) paragraphs st).
Proof.
  intros Hne Htrim. revert st.
  induction paragraphs as [|p ps IH]; intros st Hq; cbn [fold_left].
  - destruct Hq as [Hcov|(p & Hp & _)]; [done|]. by apply elem_of_nil in Hp.
  - apply IH. destruct Hq as [Hcov|(p' & Hp' & ->)].
    + left. by apply paragraph_step_covered.
    + apply elem_of_cons in Hp' as [->|Hp'].
      * left. by apply paragraph_step_covers.
      * right. by exists p'.
Qed.

(** When no chunk is longer than 2 * chunk_size the oversize pass changes
    nothing and calls [chunk_text] for no chunk. *)
Lemma split_oversize_none fuel cs ov chunks final :
  Forall (fun c => len c <= cs * 2) chunks ->
  split_oversize fuel cs ov chunks final = Some (final ++ chunks).
Proof.
  intros Hsmall. revert final.
  induction Hsmall as [|c chunks Hc _ IH]; intros final; simpl.
  - by rewrite app_nil_r.
  - destruct (Z.gtb_spec (len c) (cs * 2)); [lia|].
    by rewrite IH, <- app_assoc.
Qed.

(** X13: the paragraph pass loses no paragraph: every paragraph of the
    text that is not blank is found whole, stripped, inside one of the
    chunks of the pass.  When none of these chunks is longer than
    2 * chunk_size they are what [chunk_by_sections] returns, whatever the
    overlap and with no fixed-width cut, so every such paragraph is whole
    inside a returned chunk. *)
Theorem paragraphs_are_kept (text : str) (chunk_size overlap : Z) (p : str) :
  p ∈ split text nlnl -> strip p <> [] ->
  (exists c, c ∈ semantic_chunks text chunk_size overlap /\ infix (strip p) c)
  /\ (Forall (fun c => len c <= chunk_size * 2)
        (semantic_chunks text chunk_size overlap) ->
      forall fuel,
        chunk_by_sections fuel text chunk_size overlap
        = Some (semantic_chunks text chunk_size overlap)).
Proof.
  intros Hp Hne.
  assert (exists c, c ∈ semantic_chunks text chunk_size overlap
                    /\ infix (strip p) c) as Hkept.
  { unfold semantic_chunks.
    pose proof (paragraph_loop_covered chunk_size overlap (split text nlnl)
                  ([], []) (strip p) Hne (strip_trimmed p)
                  (or_intror (ex_intro _ p (conj Hp eq_refl)))) as Hcov.
    destruct (fold_left _ _ _) as [chunks current].
    destruct Hcov as [(c & Hc & Hin)|Hin]; cbn [fst snd] in *.
    - exists c. split; [|done].
      destruct (nonempty current); [|done]. apply elem_of_app. by left.
    - destruct (nonempty current) eqn:Hcur.
      + exists (strip current).
        split; [|apply strip_infix; [done | apply strip_trimmed | done]].
        apply elem_of_app. right. apply list_elem_of_here.
      + apply nonempty_false in Hcur. subst current.
        destruct Hin as (a & b & Heq). symmetry in Heq.
        apply app_eq_nil in Heq as [_ Heq]. apply app_eq_nil in Heq as [Heq _].
        done. }
  split; [done|].
  intros Hsmall fuel. unfold chunk_by_sections.
  rewrite split_oversize_none by done. simpl.
  destruct Hkept as (c & Hc & _).
  destruct (semantic_chunks text chunk_size overlap); [|done].
  by apply elem_of_nil in Hc.
Qed.

Lemma paragraphs_are_kept_witness :
  exists c,
    c ∈ semantic_chunks (lit "Revenue grew.

  Costs fell.  ") 8 3
    /\ infix (lit "Costs fell.") c.
Proof.
  assert (lit "  Costs fell.  " ∈ split (lit "Revenue grew.

  Costs fell.  ") nlnl) as Hp.
  { change (split (lit "Revenue grew.

  Costs fell.  ") nlnl) with [lit "Revenue grew."; lit "  Costs fell.  "].
    apply list_elem_of_further, list_elem_of_here. }
  exact (proj1 (paragraphs_are_kept _ 8 3 _ Hp ltac:(done))).
Defined.

End ChunkerMore.

(** ** More on the index builder *)

Section EmbeddingMore.
Context {World float : Type} `{!Externals World float}.
Import Ingest.

(** X14: [embed_texts] needs a positive batch size: with batch size 0 it
    raises ValueError (the step of [range]), and with a negative batch size
    it calls the embedding service for no text and returns an array without
    rows, whatever the texts. *)
Theorem embed_texts_batch_size (texts : list str) (w : World) :
  embed_texts texts 0 w
  = (Raise (Exception (lit "ValueError") (lit "range() arg 3 must not be zero")), w)
  /\ (forall batch_size, batch_size < 0 -> embed_texts texts batch_size w = (Ok [], w)).
Proof.
  split; [reflexivity|].
  intros bs Hbs. unfold embed_texts, py_range.
  destruct (Z.eqb_spec bs 0); [lia|]. destruct (Z.ltb_spec 0 bs); [lia|].
  assert ((0 - len texts - bs - 1) / - bs <= 0) as Hn.
  { apply Z.lt_succ_r. apply Z.div_lt_upper_bound; [lia|].
    pose proof (len_nonneg texts). lia. }
  by replace (Z.to_nat ((0 - len texts - bs - 1) / - bs)) with 0%nat by lia.
Qed.

Lemma zero_embeddings_app {A} (a b : list A) :
  zero_embeddings (float:=float) (a ++ b) = zero_embeddings a ++ zero_embeddings b.
Proof. unfold zero_embeddings. apply map_app. Qed.

Lemma embed_loop_down texts bs starts acc w :
  (forall input w0, exists e w1,
     embeddings_create EMBED_MODEL input w0 = (Failure e, w1)) ->
  exists w',
    for_each (embed_batch texts bs) starts acc w
    = (Ok (acc ++ zero_embeddings
                    (concat (map (fun i => slice texts i (i + bs)) starts))), w').
Proof.
  intros Hdown. revert acc w.
  induction starts as [|i starts IH]; intros acc w; simpl.
  - exists w. by rewrite app_nil_r.
  - destruct (Hdown (slice texts i (i + bs)) w) as (e & w1 & Hfail).
    destruct (IH (acc ++ zero_embeddings (slice texts i (i + bs))) w1) as [w' Hrest].
    exists w'.
    assert (embed_batch texts bs acc i w
            = (Ok (acc ++ zero_embeddings (slice texts i (i + bs))), w1)) as Hbatch.
    { unfold embed_batch, try_except, bind, call. by rewrite Hfail. }
    rewrite (bind_Ok _ _ _ _ _ Hbatch), Hrest, zero_embeddings_app, app_assoc.
    done.
Qed.

(** X15: when every call of the embedding service fails, [embed_texts]
    does not fail: it returns one zero vector of 3072 components per
    text. *)
Theorem embed_texts_outage (texts : list str) (batch_size : Z) (w : World) :
  0 < batch_size ->
  (forall input w0, exists e w1,
     embeddings_create EMBED_MODEL input w0 = (Failure e, w1)) ->
  exists w',
    embed_texts texts batch_size w = (Ok (map (fun _ => repeat zero 3072) texts), w').
Proof.
  intros Hbs Hdown.
  destruct (range_batches texts batch_size Hbs) as (starts & Hrange & Hcover).
  destruct (embed_loop_down texts batch_size starts [] w Hdown) as [w' Hloop].
  rewrite Hcover in Hloop. simpl in Hloop.
  exists w'. unfold embed_texts. rewrite Hrange, (bind_Ok _ _ _ _ _ Hloop).
  apply np_array_same_shape, zero_embeddings_shape.
Qed.

End EmbeddingMore.

Lemma embed_texts_outage_witness :
  exists w',
    @Ingest.embed_texts _ _ Script.externals_embedding_down
      [lit "Revenue"; lit "Costs"; lit "Cash"] 2 (Script.base [])
    = (Ok [repeat 0 3072; repeat 0 3072; repeat 0 3072], w').
Proof.
  apply (@embed_texts_outage _ _ Script.externals_embedding_down
           [lit "Revenue"; lit "Costs"; lit "Cash"] 2 (Script.base [])); [lia|].
  intros input w0. eexists _, _. reflexivity.
Defined.

(** ** More on the ingestion script *)

Section IngestionMore.
Context {World float : Type} `{!Externals World float}.
Import Ingest.

(** What a run of the script that builds the index went through. *)
Lemma main_inv w b w' :
  main w = (Ok b, w') ->
  exists names w0 st w1 w2,
    os_listdir (lit "data") w = (Reply names, w0)
    /\ for_each (process_file (lit "data"))
         (filter (fun f => endswith (lit ".pdf") (lower f) = true) names)
         {| all_chunks := []; metadata := []; id_counter := 0 |} w0
       = (Ok st, w1)
    /\ collected_ok st
    /\ all_chunks st <> []
    /\ embed_texts (all_chunks st) 100 w1 = (Ok (built_embeddings b), w2)
    /\ build_index (built_embeddings b) (ids_for_save (metadata st))
         (lit "faiss_index.bin") (lit "meta.json") w2 = (Ok tt, w')
    /\ built_chunks b = all_chunks st
    /\ built_ids b = ids_for_save (metadata st).
Proof.
  intros Hrun. unfold main in Hrun.
  apply bind_Ok_inv in Hrun as (names & w0 & Hls & Hrun).
  apply call_Ok_inv in Hls.
  destruct (Utils.nonempty (filter _ names)); simpl in Hrun; [|discriminate].
  destruct (collect_run (lit "data")
              (filter (fun f => endswith (lit ".pdf") (lower f) = true) names)
              _ w0 collected_ok_initial) as (st & w1 & Hcollect & Hok).
  rewrite (bind_Ok _ _ _ _ _ Hcollect) in Hrun.
  destruct (Utils.nonempty (all_chunks st)) eqn:Hsome; simpl in Hrun; [|discriminate].
  apply try_except_exit_inv in Hrun.
  apply bind_Ok_inv in Hrun as (embs & w2 & Hembed & Hrun).
  apply bind_Ok_inv in Hrun as ([] & w3 & Hbuild & Hrun).
  inversion Hrun; subst b w'; clear Hrun. simpl.
  apply nonempty_true in Hsome.
  exists names, w0, st, w1, w2. done.
Qed.

Lemma never_exits_ret {A} (a : A) : never_exits (World:=World) (ret a).
Proof. intros w n w'. done. Qed.

Lemma never_exits_raise {A} e : never_exits (World:=World) (A:=A) (raise e).
Proof. intros w n w'. done. Qed.

Lemma never_exits_call {A} (op : World -> reply A * World) : never_exits (call op).
Proof. intros w n w'. unfold call. by destruct (op w) as [[a|e] w1]. Qed.

Lemma never_exits_bind {A B} (c : M World A) (k : A -> M World B) :
  never_exits c -> (forall a, never_exits (k a)) -> never_exits (bind c k).
Proof.
  intros Hc Hk w n w'. unfold bind.
  destruct (c w) as [[a|e|m] w1] eqn:Hcw; [apply Hk | done |].
  by destruct (Hc w m w1).
Qed.

Lemma never_exits_try {A} (body : M World A) handler :
  never_exits body -> (forall e, never_exits (handler e)) ->
  never_exits (try_except body handler).
Proof.
  intros Hb Hh w n w'. unfold try_except.
  destruct (body w) as [[a|e|m] w1] eqn:Hbw; [done | apply Hh |].
  by destruct (Hb w m w1).
Qed.

Lemma never_exits_for_each {S A} (body : S -> A -> M World S) items st :
  (forall s x, never_exits (body s x)) -> never_exits (for_each body items st).
Proof.
  intros Hbody. revert st. induction items as [|x items IH]; intros st; simpl.
  - apply never_exits_ret.
  - apply never_exits_bind; [apply Hbody | intros s; apply IH].
Qed.

Lemma embed_texts_never_exits texts bs : never_exits (embed_texts texts bs).
Proof.
  unfold embed_texts. destruct (py_range 0 (len texts) bs) as [starts|];
    [|apply never_exits_raise].
  apply never_exits_bind.
  - apply never_exits_for_each. intros acc i. unfold embed_batch.
    apply never_exits_try; [|intros e; apply never_exits_ret].
    apply never_exits_bind; [apply never_exits_call|].
    intros rows. apply never_exits_ret.
  - intros rows. unfold np_array. destruct rows as [|r rest];
      [apply never_exits_ret|].
    destruct (forallb _ rest); [apply never_exits_ret | apply never_exits_raise].
Qed.

Lemma build_index_never_exits embs ids p1 p2 : never_exits (build_index embs ids p1 p2).
Proof.
  unfold build_index. destruct embs as [|row rest]; [apply never_exits_raise|].
  apply never_exits_bind; [apply never_exits_call|].
  intros _. apply never_exits_call.
Qed.

(** X16: how the ingestion script ends.  When the directory cannot be
    listed the exception is not caught.  Otherwise the script ends with the
    files written or with [exit(1)], and never with an exception: a file
    that cannot be extracted is skipped, and a failure while embedding or
    writing becomes [exit(1)].  With no file named *.pdf it exits straight
    after the listing. *)
Theorem main_ends (w : World) :
  match os_listdir (lit "data") w with
  | (Failure e, w0) => main w = (Raise e, w0)
  | (Reply names, w0) =>
      (filter (fun f => endswith (lit ".pdf") (lower f) = true) names = [] ->
       main w = (Exit 1, w0))
      /\ ((exists b w', main w = (Ok b, w')) \/ (exists w', main w = (Exit 1, w')))
  end.
Proof.
  destruct (os_listdir (lit "data") w) as [[names|e] w0] eqn:Hls.
  2: { unfold main. apply bind_Raise. unfold call. by rewrite Hls. }
  unfold main. rewrite (bind_Ok _ _ _ _ _ (call_Ok _ _ _ _ Hls)).
  remember (filter (fun f => endswith (lit ".pdf") (lower f) = true) names)
    as pdfs eqn:Hpdf.
  destruct pdfs as [|f fs]; cbn [Utils.nonempty negb].
  { split; [done|]. right. by exists w0. }
  split; [done|].
  destruct (collect_run (lit "data") (f :: fs)
              {| all_chunks := []; metadata := []; id_counter := 0 |} w0
              collected_ok_initial) as (st & w1 & Hcollect & _).
  rewrite (bind_Ok _ _ _ _ _ Hcollect).
  destruct (Utils.nonempty (all_chunks st)); cbn [negb].
  2: { right. by exists w1. }
  unfold try_except.
  match goal with
  | |- context [match ?body w1 with _ => _ end] =>
      assert (never_exits body) as Hbody
  end.
  { apply never_exits_bind; [apply embed_texts_never_exits|].
    intros embs. apply never_exits_bind; [apply build_index_never_exits|].
    intros _. apply never_exits_ret. }
  match goal with
  | |- context [match ?body w1 with _ => _ end] =>
      destruct (body w1) as [[b|e|n] w2] eqn:Hrun
  end.
  - left. by exists b, w2.
  - right. by exists w2.
  - by destruct (Hbody w1 n w2).
Qed.

(** The chunks of one document, numbered from [k], extend the collection
    by the entries of the document. *)
Lemma fold_add_chunk_entries fname chunks :
  forall (k : nat) (st : collected),
    fold_left (add_chunk fname (extract_year_from_filename fname))
      (imap (fun i c => ((k + i)%nat, c)) chunks) st
    = {| all_chunks := all_chunks st ++ chunks;
         metadata := metadata st
                     ++ doc_entries fname (id_counter st) (Z.of_nat k) chunks;
         id_counter := id_counter st + len chunks |}.
Proof.
  induction chunks as [|c chunks IH]; intros k st.
  - simpl. destruct st. unfold len. simpl. by rewrite !app_nil_r, Z.add_0_r.
  - rewrite imap_cons. cbn [fold_left].
    rewrite (imap_ext _ (fun i c => ((S k + i)%nat, c)))
      by (intros i x _; simpl; f_equal; lia).
    rewrite IH. unfold add_chunk. cbn [all_chunks metadata id_counter doc_entries].
    rewrite <- !app_assoc. cbn [app].
    replace (Z.of_nat (k + 0)) with (Z.of_nat k) by lia.
    replace (Z.of_nat (S k)) with (Z.of_nat k + 1) by lia.
    f_equal. unfold len. simpl. lia.
Qed.

Lemma process_file_extracted data_dir st fname w t w1 :
  extract_text_and_tables_from_pdf (os_path_join data_dir fname) w = (Reply t, w1) ->
  process_file data_dir st fname w = (Ok (add_doc st (fname, t)), w1).
Proof.
  intros Hext. unfold process_file, try_except, bind, call, ret. rewrite Hext.
  f_equal. f_equal.
  rewrite (imap_ext pair (fun i c => ((0 + i)%nat, c))) by done.
  apply fold_add_chunk_entries.
Qed.

Lemma process_file_skipped data_dir st fname w e w1 :
  extract_text_and_tables_from_pdf (os_path_join data_dir fname) w = (Failure e, w1) ->
  process_file data_dir st fname w = (Ok st, w1).
Proof.
  intros Hext. unfold process_file, try_except, bind, call, ret. by rewrite Hext.
Qed.

Lemma add_docs_chunks docs st :
  all_chunks (fold_left add_doc docs st)
  = all_chunks st ++ concat (map (fun d => chunk_document (snd d)) docs)
  /\ id_counter (fold_left add_doc docs st)
     = id_counter st + len (concat (map (fun d => chunk_document (snd d)) docs)).
Proof.
  revert st. induction docs as [|d docs IH]; intros st; simpl.
  - rewrite app_nil_r. unfold len. simpl. split; [done | lia].
  - destruct (IH (add_doc st d)) as [-> ->]. simpl.
    rewrite <- app_assoc. split; [done|].
    unfold len. rewrite !length_app. lia.
Qed.

(** X17: the collection loop of the script.  Extraction is tried on every
    file in turn; a file for which it fails adds nothing and takes no id,
    and every other file adds its chunks, with ids that go on from the last
    id given and with chunk indices from 0.  So the chunks collected are
    those of the extracted documents in directory order, and the loop never
    fails. *)
Theorem collection_loop (data_dir : str) (fnames : list str) (st : collected) (w : World) :
  exists docs w',
    extracted data_dir fnames w docs w'
    /\ map fst docs `sublist_of` fnames
    /\ for_each (process_file data_dir) fnames st w
       = (Ok (fold_left add_doc docs st), w')
    /\ all_chunks (fold_left add_doc docs st)
       = all_chunks st ++ concat (map (fun d => chunk_document (snd d)) docs)
    /\ id_counter (fold_left add_doc docs st)
       = id_counter st + len (concat (map (fun d => chunk_document (snd d)) docs)).
Proof.
  assert (exists docs w',
            extracted data_dir fnames w docs w'
            /\ map fst docs `sublist_of` fnames
            /\ for_each (process_file data_dir) fnames st w
               = (Ok (fold_left add_doc docs st), w')) as (docs & w' & H1 & H2 & H3).
  { revert st w. induction fnames as [|f fnames IH]; intros st w.
    - exists [], w. split; [constructor|]. split; [constructor|done].
    - destruct (extract_text_and_tables_from_pdf (os_path_join data_dir f) w)
        as [[t|e] w1] eqn:Hext.
      + destruct (IH (add_doc st (f, t)) w1) as (docs & w' & H1 & H2 & H3).
        exists ((f, t) :: docs), w'. split; [by econstructor|].
        split; [by constructor|].
        cbn [for_each].
        by rewrite (bind_Ok _ _ _ _ _ (process_file_extracted _ st f _ _ _ Hext)).
      + destruct (IH st w1) as (docs & w' & H1 & H2 & H3).
        exists docs, w'. split; [by econstructor|].
        split; [by constructor|].
        cbn [for_each].
        by rewrite (bind_Ok _ _ _ _ _ (process_file_skipped _ st f _ _ _ Hext)). }
  exists docs, w'. destruct (add_docs_chunks docs st). done.
Qed.

Lemma doc_entries_fields fname first_id first_index chunks :
  0 <= first_index ->
  Forall fields_ok (doc_entries fname first_id first_index chunks).
Proof.
  revert first_id first_index.
  induction chunks as [|c chunks IH]; intros first_id first_index Hpos; simpl;
    constructor; [|apply IH; lia].
  unfold fields_ok. simpl. repeat split; try done.
  etransitivity; [apply len_slice_le; lia|]. lia.
Qed.

Lemma doc_entries_source fname first_id first_index chunks :
  Forall (fun m => m_source m = fname) (doc_entries fname first_id first_index chunks).
Proof.
  revert first_id first_index.
  induction chunks as [|c chunks IH]; intros first_id first_index; simpl;
    by constructor.
Qed.

(** What holds of the entries of every document of [fnames] holds of all
    the metadata the loop collects. *)
Lemma collection_loop_Forall (Q : meta_entry -> Prop) data_dir fnames :
  (forall f first_id chunks,
     f ∈ fnames -> Forall Q (doc_entries f first_id 0 chunks)) ->
  forall st0 w st w',
    Forall Q (metadata st0) ->
    for_each (process_file data_dir) fnames st0 w = (Ok st, w') ->
    Forall Q (metadata st).
Proof.
  induction fnames as [|f fnames IH]; intros Hdoc st0 w st w' Hst0 Hrun.
  - by inversion Hrun; subst.
  - cbn [for_each] in Hrun.
    assert (forall f' first_id chunks,
              f' ∈ fnames -> Forall Q (doc_entries f' first_id 0 chunks)) as Hrest.
    { intros f' first_id chunks Hin. apply Hdoc. by apply list_elem_of_further. }
    destruct (extract_text_and_tables_from_pdf (os_path_join data_dir f) w)
      as [[t|e] w1] eqn:Hext.
    + rewrite (bind_Ok _ _ _ _ _ (process_file_extracted _ st0 f _ _ _ Hext))
        in Hrun.
      eapply (IH Hrest); [|exact Hrun]. simpl. apply Forall_app. split; [done|].
      apply Hdoc. apply list_elem_of_here.
    + rewrite (bind_Ok _ _ _ _ _ (process_file_skipped _ st0 f _ _ _ Hext))
        in Hrun.
      by eapply (IH Hrest).
Qed.

(** X18: the metadata a run of the script saves.  The decimal string of an
    integer is a key exactly when the integer is at least 0 and below the
    number of chunks (so -1 and every number past the last row have no
    entry), whatever the embedding service did.  The entry of row i has the
    text of chunk i cut to 4000 characters; its source is a file name that
    the listing of data/ returned and that ends in .pdf in some case; its
    year and its report year are both the year read from that file name (0
    when the name shows none); its chunk index is not negative. *)
Theorem built_metadata_rows (w : World) (b : built) (w' : World) :
  main w = (Ok b, w') ->
  (forall idx : Z,
     is_Some (built_ids b !! py_str idx) <-> 0 <= idx < len (built_chunks b))
  /\ (forall idx entry,
        built_ids b !! py_str idx = Some entry ->
        exists c names w0,
          built_chunks b !! Z.to_nat idx = Some c
          /\ text entry = slice_to c 4000
          /\ os_listdir (lit "data") w = (Reply names, w0)
          /\ source entry ∈ names
          /\ endswith (lit ".pdf") (lower (source entry)) = true
          /\ year entry = Some (extract_year_from_filename (source entry))
          /\ report_year entry = year entry
          /\ 0 <= chunk_index entry).
Proof.
  intros Hrun.
  destruct (main_inv w b w' Hrun)
    as (names & w0 & st & w1 & w2 & Hls & Hcollect & Hok & _ & _ & _ & -> & ->).
  destruct Hok as (Hpos & Hchunks & Hmeta & Hentries).
  destruct (ids_for_save_lookup (metadata st)) as (_ & Hlook & Hother).
  { intros i m Hi. by apply Hentries. }
  set (pdfs := filter (fun f => endswith (lit ".pdf") (lower f) = true) names)
    in Hcollect.
  assert (Forall (fun m => fields_ok m /\ m_source m ∈ pdfs) (metadata st))
    as Hfields.
  { eapply (collection_loop_Forall _ (lit "data") pdfs); [| |exact Hcollect].
    - intros f first_id chunks Hf. apply Forall_and. split.
      + by apply doc_entries_fields.
      + eapply Forall_impl; [apply doc_entries_source|].
        intros m Hm. simpl in Hm. by rewrite Hm.
    - constructor. }
  assert (forall idx : Z, 0 <= idx < len (all_chunks st) ->
            exists m, metadata st !! Z.to_nat idx = Some m
                      /\ ids_for_save (metadata st) !! py_str idx
                         = Some (saved_entry m)) as Hrow.
  { intros idx Hidx. unfold len in Hidx.
    destruct (lookup_lt_is_Some_2 (metadata st) (Z.to_nat idx)) as [m Hm]; [lia|].
    exists m. split; [done|].
    rewrite <- (Hlook _ m Hm). f_equal. f_equal. lia. }
  assert (forall idx : Z, is_Some (ids_for_save (metadata st) !! py_str idx) ->
            0 <= idx < len (all_chunks st)) as Hkey.
  { intros idx Hsome.
    destruct (decide (0 <= idx < len (all_chunks st))) as [|Hout]; [done|].
    rewrite Hother in Hsome; [by destruct Hsome|].
    intros i Hi Heq. apply py_str_inj in Heq. unfold len in Hout. lia. }
  split.
  - intros idx. split; [apply Hkey|].
    intros Hidx. destruct (Hrow idx Hidx) as (m & _ & ->). done.
  - intros idx entry Hentry.
    destruct (Hrow idx (Hkey idx (mk_is_Some _ _ Hentry))) as (m & Hm & Hlookup).
    rewrite Hentry in Hlookup. inversion Hlookup; subst entry.
    destruct (Hentries _ m Hm) as (_ & c & Hc & Htext).
    rewrite Forall_forall in Hfields.
    destruct (Hfields m) as ((Hy & Hry & Hci & _) & Hsrc).
    { by eapply list_elem_of_lookup_2. }
    apply list_elem_of_filter in Hsrc as [Hpdf Hin].
    exists c, names, w0. simpl. repeat split; try done; congruence.
Qed.

End IngestionMore.

Lemma built_metadata_rows_witness :
  exists b w',
    Ingest.main
      {| Script.chat_replies := []; Script.embed_ok := [false];
         Script.meta_file := ∅; Script.neighbours := [];
         Script.files :=
           [(lit "ford_2022.pdf", Some (lit "Revenue was 7 in 2022."));
            (lit "notes.txt", Some (lit "not a report"));
            (lit "damaged_2021.pdf", None);
            (lit "summary.PDF", Some (lit "Costs fell."))] |}
    = (Ok b, w')
    /\ is_Some (Ingest.built_ids b !! py_str 1)
    /\ ~ is_Some (Ingest.built_ids b !! py_str 2)
    /\ ~ is_Some (Ingest.built_ids b !! py_str (-1)).
Proof.
  set (w := {| Script.chat_replies := []; Script.embed_ok := [false];
               Script.meta_file := ∅; Script.neighbours := [];
               Script.files := _ |}).
  run_to Hrun (Ingest.main w).
  match type of Hrun with _ = (Ok ?b, ?w') => exists b, w' end.
  split; [exact Hrun|].
  destruct (built_metadata_rows _ _ _ Hrun) as [Hkeys _].
  split; [|split].
  - apply Hkeys. vm_compute. by split.
  - intros Hsome. apply Hkeys in Hsome. vm_compute in Hsome.
    destruct Hsome as [_ Hlt]. discriminate.
  - intros Hsome. apply Hkeys in Hsome. vm_compute in Hsome.
    destruct Hsome as [Hle _]. by apply Hle.
Defined.

(** ** The text of a document *)

Section Extraction.
Import Utils.

Lemma short_runs_after_newlines m c s :
  (m <= 2)%nat -> Ascii.eqb c "010" = false ->
  short_runs (repeat "010"%char m ++ c :: s) 0 = short_runs s 0.
Proof.
  intros Hm Hc.
  destruct m as [|[|[|m]]]; [| | |lia]; simpl; by rewrite Hc.
Qed.

Lemma collapse_newlines_short_runs s run :
  short_runs (collapse_newlines s run) 0 = true.
Proof.
  revert run. induction s as [|c s IH]; intros run; cbn [collapse_newlines].
  - destruct (Nat.min run 2) as [|[|[|m]]] eqn:Hmin; [done..|lia].
  - destruct (Ascii.eqb c "010") eqn:Hc; [apply IH|].
    rewrite short_runs_after_newlines; [apply IH | lia | done].
Qed.

Lemma short_runs_no_three s k :
  short_runs s k = true -> ~ infix (nl ++ nlnl) s.
Proof.
  intros Hs (a & b & Heq). revert s k Hs Heq.
  induction a as [|x a IH]; intros s k Hs Heq; subst s.
  - change ([] ++ (nl ++ nlnl) ++ b)
      with ("010"%char :: "010"%char :: "010"%char :: b) in Hs.
    cbn [short_runs Ascii.eqb Bool.eqb] in Hs.
    destruct k as [|[|k]]; simpl in Hs; try done.
    all: by rewrite ?andb_false_r in Hs.
  - cbn [app short_runs] in Hs. destruct (Ascii.eqb x "010").
    + apply andb_true_iff in Hs as [_ Hs]. by eapply IH.
    + by eapply IH.
Qed.

Lemma short_runs_fixed s :
  forall k run, short_runs s k = true -> (run <= k)%nat -> (k <= 2)%nat ->
    collapse_newlines s run = repeat "010"%char run ++ s.
Proof.
  induction s as [|c s IH]; intros k run Hs Hrun Hk; simpl.
  - rewrite app_nil_r. f_equal. lia.
  - simpl in Hs. destruct (Ascii.eqb c "010") eqn:Hc.
    + apply Ascii.eqb_eq in Hc as ->.
      apply andb_true_iff in Hs as [Hlt Hs]. apply Nat.ltb_lt in Hlt.
      rewrite (IH (S k) (S run)) by (done || lia).
      cbn [repeat]. by rewrite repeat_cons, <- app_assoc.
    + rewrite (IH 0%nat 0%nat) by (done || lia).
      simpl. do 2 f_equal. lia.
Qed.

Lemma filter_newlines m :
  filter (fun c : ascii => c <> "010"%char) (repeat "010"%char m) = [].
Proof.
  induction m as [|m IH]; [done|]. simpl.
  by rewrite filter_cons_False by (intros Hne; by apply Hne).
Qed.

Lemma collapse_newlines_visible s run :
  filter (fun c : ascii => c <> "010"%char) (collapse_newlines s run)
  = filter (fun c : ascii => c <> "010"%char) s.
Proof.
  revert run. induction s as [|c s IH]; intros run; simpl.
  - apply filter_newlines.
  - destruct (Ascii.eqb c "010") eqn:Hc.
    + apply Ascii.eqb_eq in Hc as ->. rewrite IH.
      by rewrite filter_cons_False by (intros Hne; by apply Hne).
    + apply Ascii.eqb_neq in Hc.
      rewrite filter_app, filter_newlines. simpl.
      by rewrite !filter_cons_True, IH by done.
Qed.

Lemma filter_join_newlines (texts : list str) :
  filter (fun c : ascii => c <> "010"%char) (join nl texts)
  = filter (fun c : ascii => c <> "010"%char) (concat texts).
Proof.
  induction texts as [|t texts IH]; [done|].
  destruct texts as [|t' texts].
  - simpl. by rewrite app_nil_r.
  - change (join nl (t :: t' :: texts)) with (t ++ nl ++ join nl (t' :: texts)).
    change (concat (t :: t' :: texts)) with (t ++ concat (t' :: texts)).
    rewrite !filter_app, IH.
    change nl with (repeat "010"%char 1). by rewrite filter_newlines.
Qed.

Lemma concat_page_texts (page_texts : list (option str)) :
  concat (omap (fun txt : option str =>
                  match txt with
                  | Some t => if nonempty t then Some t else None
                  | None => None
                  end) page_texts)
  = concat (omap id page_texts).
Proof.
  induction page_texts as [|[t|] pages IH]; [done| |exact IH].
  destruct t as [|c t]; [exact IH|].
  cbn [omap list_omap nonempty id concat]. by rewrite IH.
Qed.

(** X19: the text [extract_text_from_pdf] returns for the page texts it
    read.  It never has three newlines in a row; apart from newlines its
    characters are those of the pages, in order, with nothing lost or added
    (pages without text count for nothing); and it is already clean:
    cleaning it again leaves it as it is. *)
Theorem text_of_pages_clean (page_texts : list (option str)) :
  ~ infix (nl ++ nlnl) (text_of_pages page_texts)
  /\ filter (fun c : ascii => c <> "010"%char) (text_of_pages page_texts)
     = filter (fun c : ascii => c <> "010"%char) (concat (omap id page_texts))
  /\ collapse_newlines (text_of_pages page_texts) 0 = text_of_pages page_texts.
Proof.
  unfold text_of_pages. split; [|split].
  - eapply short_runs_no_three, collapse_newlines_short_runs.
  - by rewrite collapse_newlines_visible, filter_join_newlines, concat_page_texts.
  - by rewrite (short_runs_fixed _ 0 0 (collapse_newlines_short_runs _ _)) by lia.
Qed.

Lemma infix_join sep (parts : list str) p :
  p ∈ parts -> infix p (join sep parts).
Proof.
  induction parts as [|q parts IH]; intros Hin; [by apply elem_of_nil in Hin|].
  apply elem_of_cons in Hin as [->|Hin].
  - destruct parts as [|q' parts].
    + exists [], []. simpl. by rewrite app_nil_r.
    + exists [], (sep ++ join sep (q' :: parts)). done.
  - destruct parts as [|q' parts]; [by apply elem_of_nil in Hin|].
    destruct (IH Hin) as (a & b & Heq).
    exists (q ++ sep ++ a), b.
    change (join sep (q :: q' :: parts)) with (q ++ sep ++ join sep (q' :: parts)).
    rewrite Heq. by rewrite <- !app_assoc.
Qed.

(** X20: the text [extract_text_and_tables_from_pdf] makes of the text and
    the tables of a document.  Without tables it is the text itself.  With
    tables it begins with the text, every table stands in it, and the
    heading of the tables follows the text after three newlines: the
    combined text is not cleaned again. *)
Theorem combine_text_and_tables_shape (text : str) (tables : list str) :
  combine_text_and_tables text [] = text
  /\ (tables <> [] ->
      combine_text_and_tables text tables
      = text ++ nl ++ nlnl ++ repeat "="%char 80 ++ nl
        ++ lit "FINANCIAL TABLES AND DATA:" ++ nl ++ repeat "="%char 80 ++ nl
        ++ join nl tables
      /\ infix (nl ++ nlnl) (combine_text_and_tables text tables)
      /\ forall t, t ∈ tables -> infix t (combine_text_and_tables text tables)).
Proof.
  split; [done|]. intros Hne.
  destruct tables as [|t0 tables]; [done|].
  assert (combine_text_and_tables text (t0 :: tables)
          = text ++ nl ++ nlnl ++ repeat "="%char 80 ++ nl
            ++ lit "FINANCIAL TABLES AND DATA:" ++ nl ++ repeat "="%char 80 ++ nl
            ++ join nl (t0 :: tables)) as Heq.
  { unfold combine_text_and_tables. cbn [nonempty app].
    set (rule := repeat "="%char 80). set (head := lit "FINANCIAL TABLES AND DATA:").
    change (join nl (text :: (nlnl ++ rule) :: head :: rule :: t0 :: tables))
      with (text ++ nl ++ (nlnl ++ rule) ++ nl ++ head ++ nl ++ rule ++ nl
            ++ join nl (t0 :: tables)).
    by rewrite <- !app_assoc. }
  split; [|split].
  - exact Heq.
  - rewrite Heq. exists text. eexists. by rewrite <- !app_assoc.
  - intros t Ht. rewrite Heq.
    destruct (infix_join nl (t0 :: tables) t Ht) as (a & b & Hj). rewrite Hj.
    eexists (text ++ nl ++ nlnl ++ repeat "="%char 80 ++ nl
             ++ lit "FINANCIAL TABLES AND DATA:" ++ nl ++ repeat "="%char 80 ++ nl
             ++ a), b.
    by rewrite <- !app_assoc.
Qed.

End Extraction.

(** ** The tables of a document *)

Section Tables.
Import Utils.

Lemma join_cons sep (p : str) (parts : list str) :
  parts <> [] -> join sep (p :: parts) = p ++ sep ++ join sep parts.
Proof. by destruct parts. Qed.

(** A table of two rows or more is formatted as its heading, a rule, the
    lines of its rows and a rule. *)
Lemma format_table_lines table page_num table_num :
  (2 <= length table)%nat ->
  format_table_as_text table page_num table_num
  = table_heading page_num table_num ++ nl ++ repeat "="%char 50 ++ nl
    ++ join nl (table_rows table ++ [repeat "="%char 50]).
Proof.
  intros Hlen. unfold format_table_as_text.
  destruct table as [|r0 table]; [simpl in Hlen; lia|].
  cbn [nonempty negb orb].
  destruct (Z.ltb_spec (len (r0 :: table)) 2) as [Hlt|_];
    [unfold len in Hlt; lia|].
  cbn [app]. rewrite !join_cons; [done| |done].
  by destruct (table_rows (r0 :: table)).
Qed.

Lemma elem_of_concat_imap {A B} (f : nat -> A -> list B) (l : list A) (x : B) :
  x ∈ concat (imap f l) <-> exists i a, l !! i = Some a /\ x ∈ f i a.
Proof.
  rewrite list_elem_of_In, in_concat. split.
  - intros (ys & Hys & Hx). apply list_elem_of_In, elem_of_lookup_imap in Hys
      as (i & a & -> & Hi).
    exists i, a. split; [done|]. by apply list_elem_of_In.
  - intros (i & a & Hi & Hx). exists (f i a). split.
    + apply list_elem_of_In, elem_of_lookup_imap. by exists i, a.
    + by apply list_elem_of_In.
Qed.

(** X21: the tables [extract_tables_from_pdf] reports.  A text is reported
    exactly when it is the formatted text of a table of two rows or more,
    numbered by its page and its place on the page, both from 0; tables of
    fewer rows are left out.  The text of such a table begins with the
    heading that names table and page counted from 1, then a rule of 50
    signs; so it is never empty, and a table whose rows are all blank is
    still reported, as heading and rules alone. *)
Theorem tables_of_pages_reported (pages : list (list (list (list (option str)))))
    (s : str) :
  (s ∈ tables_of_pages pages <->
   exists page_num page_tables table_num table,
     pages !! page_num = Some page_tables
     /\ page_tables !! table_num = Some table
     /\ (2 <= length table)%nat
     /\ s = format_table_as_text table (Z.of_nat page_num) (Z.of_nat table_num))
  /\ (forall page_num table_num table,
        (2 <= length table)%nat ->
        format_table_as_text table page_num table_num
        = lit "Table " ++ py_str (table_num + 1) ++ lit " from page "
          ++ py_str (page_num + 1) ++ lit ":" ++ nl ++ repeat "="%char 50 ++ nl
          ++ join nl (table_rows table ++ [repeat "="%char 50])
        /\ (Forall (fun row => existsb cell_truthy row = false) table ->
            format_table_as_text table page_num table_num
            = lit "Table " ++ py_str (table_num + 1) ++ lit " from page "
              ++ py_str (page_num + 1) ++ lit ":" ++ nl ++ repeat "="%char 50
              ++ nl ++ repeat "="%char 50)).
Proof.
  split.
  - unfold tables_of_pages. rewrite elem_of_concat_imap.
    split.
    + intros (p & page_tables & Hp & Hs).
      apply elem_of_concat_imap in Hs as (t & table & Ht & Hs).
      exists p, page_tables, t, table. split; [done|]. split; [done|].
      destruct (nonempty table && (len table >? 1)) eqn:Hbig;
        [|by apply elem_of_nil in Hs].
      apply andb_true_iff in Hbig as [_ Hbig]. apply Z.gtb_lt in Hbig.
      unfold len in Hbig. split; [lia|].
      destruct (nonempty (format_table_as_text _ _ _));
        [|by apply elem_of_nil in Hs].
      by apply list_elem_of_singleton in Hs.
    + intros (p & page_tables & t & table & Hp & Ht & Hlen & ->).
      exists p, page_tables. split; [done|].
      apply elem_of_concat_imap. exists t, table. split; [done|].
      assert (nonempty table && (len table >? 1) = true) as ->.
      { apply andb_true_iff. split; [destruct table; [simpl in Hlen; lia | done]|].
        apply Z.gtb_lt. unfold len. lia. }
      rewrite (format_table_lines _ _ _ Hlen).
      unfold table_heading. cbn [lit list_ascii_of_string app nonempty].
      apply list_elem_of_here.
  - intros page_num table_num table Hlen.
    rewrite (format_table_lines _ _ _ Hlen). unfold table_heading.
    split; [by rewrite <- !app_assoc|].
    intros Hblank.
    assert (table_rows table = []) as ->.
    { unfold table_rows. clear Hlen.
      induction Hblank as [|row table Hrow _ IH]; [done|].
      cbn [flat_map]. by rewrite Hrow, andb_false_r, IH. }
    by rewrite <- !app_assoc.
Qed.

End Tables.

(** ** Citation markers *)

Section Markers.
Import Query.

Lemma digit_not_bracket c : isdigit c = true -> Ascii.eqb c "[" = false.
Proof.
  intros Hc. destruct (Ascii.eqb c "[") eqn:Hb; [|done].
  apply Ascii.eqb_eq in Hb as ->. done.
Qed.

(** An opening bracket starts the search afresh, whatever was pending. *)
Lemma findall_markers_restart a r st :
  findall_markers (a ++ "["%char :: r) st
  = findall_markers a st ++ findall_markers ("["%char :: r) None.
Proof.
  revert st. induction a as [|c a IH]; intros st; [done|].
  cbn [app findall_markers].
  destruct (Ascii.eqb c "["); [apply IH|].
  destruct st as [ds|]; [|apply IH].
  destruct (isdigit c); [apply IH|].
  destruct (Ascii.eqb c "]" && Utils.nonempty ds); [|apply IH].
  cbn [app]. f_equal. apply IH.
Qed.

Lemma findall_markers_digits ds rest acc :
  Forall (fun c => isdigit c = true) ds ->
  findall_markers (ds ++ rest) (Some acc) = findall_markers rest (Some (acc ++ ds)).
Proof.
  intros Hds. revert acc. induction Hds as [|c ds Hc _ IH]; intros acc.
  - by rewrite app_nil_r.
  - cbn [app findall_markers]. rewrite (digit_not_bracket c Hc), Hc, IH.
    by rewrite <- app_assoc.
Qed.

(** A marker is found where it stands, between the markers before it and
    the markers after it. *)
Lemma findall_markers_marker a ds b :
  ds <> [] -> Forall (fun c => isdigit c = true) ds ->
  findall_markers (a ++ lit "[" ++ ds ++ lit "]" ++ b) None
  = findall_markers a None ++ ds :: findall_markers b None.
Proof.
  intros Hne Hds.
  change (lit "[" ++ ds ++ lit "]" ++ b) with ("["%char :: ds ++ "]"%char :: b).
  rewrite findall_markers_restart. f_equal.
  cbn [findall_markers Ascii.eqb Bool.eqb].
  rewrite findall_markers_digits by done.
  cbn [app findall_markers Ascii.eqb Bool.eqb isdigit].
  by destruct ds.
Qed.

Lemma int_of_digits_from (ds : str) (acc : Z) :
  fold_left (fun acc c => acc * 10 + digit_value c) ds acc
  = acc * 10 ^ len ds + int_of_digits ds.
Proof.
  unfold int_of_digits. revert acc. induction ds as [|c ds IH]; intros acc.
  - cbn [fold_left]. change (len (@nil ascii)) with 0. lia.
  - cbn [fold_left]. rewrite IH, (IH (0 * 10 + digit_value c)).
    replace (len (c :: ds)) with (Z.succ (len ds)) by (unfold len; simpl; lia).
    rewrite Z.pow_succ_r by apply len_nonneg. lia.
Qed.

Lemma pretty_N_char_digit (d : N) :
  (d < 10)%N ->
  isdigit (pretty_N_char d) = true /\ digit_value (pretty_N_char d) = Z.of_N d.
Proof.
  intros Hd.
  destruct d as [|p]; [done|].
  do 4 (try destruct p as [p|p|]); try lia; done.
Qed.

Lemma pretty_N_go_digits (x : N) :
  forall s : string,
    Forall (fun c => isdigit c = true) (lit s) ->
    Forall (fun c => isdigit c = true) (lit (pretty_N_go x s))
    /\ int_of_digits (lit (pretty_N_go x s))
       = Z.of_N x * 10 ^ len (lit s) + int_of_digits (lit s).
Proof.
  induction x as [x IH] using (well_founded_ind N.lt_wf_0). intros s Hs.
  destruct (decide (x = 0)%N) as [->|Hx].
  - rewrite pretty_N_go_0. split; [done|]. lia.
  - rewrite pretty_N_go_step by lia.
    destruct (pretty_N_char_digit (x `mod` 10)%N) as [Hdigit Hvalue];
      [by apply N.mod_lt|].
    destruct (IH (x `div` 10)%N) with (s := String (pretty_N_char (x `mod` 10)) s)
      as [Hall Hint].
    { apply N.div_lt; lia. }
    { by constructor. }
    split; [done|]. rewrite Hint.
    change (lit (String (pretty_N_char (x `mod` 10)) s))
      with (pretty_N_char (x `mod` 10) :: lit s).
    replace (len (pretty_N_char (x `mod` 10) :: lit s)) with (Z.succ (len (lit s)))
      by (unfold len; simpl; lia).
    rewrite Z.pow_succ_r by apply len_nonneg.
    unfold int_of_digits at 1. cbn [fold_left].
    rewrite int_of_digits_from, Hvalue.
    pose proof (N.div_mod x 10 ltac:(lia)) as Hdm.
    assert (Z.of_N x = 10 * Z.of_N (x `div` 10) + Z.of_N (x `mod` 10)) as ->
      by lia.
    lia.
Qed.

(** [int(str(n)) = n], and [str(n)] is a string of digits, for [n >= 0]. *)
Lemma py_str_digits (n : Z) :
  0 <= n ->
  py_str n <> []
  /\ Forall (fun c => isdigit c = true) (py_str n)
  /\ int_of_digits (py_str n) = n.
Proof.
  intros Hn. unfold py_str.
  destruct n as [|p|p]; [by repeat constructor| |lia].
  change (pretty (Z.pos p)) with (pretty_N_go (N.pos p) "").
  destruct (pretty_N_go_digits (N.pos p) "") as [Hall Hint]; [constructor|].
  change (len (lit "")) with 0 in Hint.
  change (int_of_digits (lit "")) with 0 in Hint.
  change (Z.of_N (N.pos p)) with (Z.pos p) in Hint.
  split; [|split; [done|]].
  - intros Hnil. rewrite Hnil in Hint.
    change (int_of_digits []) with 0 in Hint. lia.
  - rewrite Hint. lia.
Qed.

(** X22: how the markers of an answer are read.  A marker written as an
    opening bracket, the decimal digits of a number n >= 0 and a closing
    bracket is found wherever it stands: the numbers read from the text are
    those read before the marker, then n, then those read after it.  A text
    without an opening bracket has no marker. *)
Theorem cited_numbers_marker (a b : str) (n : Z) :
  0 <= n ->
  cited_numbers (a ++ lit "[" ++ py_str n ++ lit "]" ++ b)
  = cited_numbers a ++ n :: cited_numbers b
  /\ (Forall (fun c => c <> "["%char) a -> cited_numbers a = []).
Proof.
  intros Hn. destruct (py_str_digits n Hn) as (Hne & Hall & Hint).
  unfold cited_numbers. split.
  - rewrite findall_markers_marker by done.
    by rewrite map_app, map_cons, Hint.
  - intros Ha. clear -Ha.
    induction Ha as [|c a Hc _ IH]; [done|].
    cbn [findall_markers].
    destruct (Ascii.eqb c "[") eqn:Hb; [|exact IH].
    by apply Ascii.eqb_eq in Hb.
Qed.

End Markers.

Lemma cited_numbers_marker_witness :
  0 <= 2
  /\ Query.cited_numbers
       (lit "Revenue rose [1] and costs fell " ++ lit "[" ++ py_str 2 ++ lit "]"
        ++ lit " in [x] 2022 [10].")
     = [1; 2; 10].
Proof.
  split; [lia|].
  destruct (cited_numbers_marker (lit "Revenue rose [1] and costs fell ")
              (lit " in [x] 2022 [10].") 2 ltac:(lia)) as [Heq _].
  exact Heq.
Defined.

(** ** What the prompts carry *)

Section Prompts.
Context {World float : Type} `{!Externals World float}.
Import Utils Query.

Lemma infix_trans p q s : infix p q -> infix q s -> infix p s.
Proof.
  intros (a & b & ->) (a' & b' & ->). exists (a' ++ a), (b ++ b').
  by rewrite <- !app_assoc.
Qed.

(** Joined parts that are not the last ones are each followed by the
    separator. *)
Lemma join_app_followed sep (xs post : list str) :
  post <> [] ->
  join sep (xs ++ post) = concat (map (fun x => x ++ sep) xs) ++ join sep post.
Proof.
  intros Hpost. induction xs as [|x xs IH]; [done|].
  cbn [app map concat]. rewrite join_cons, IH.
  - by rewrite <- !app_assoc.
  - destruct xs; [done|discriminate].
Qed.

Lemma infix_join_run sep (pre mid post : list str) :
  post <> [] ->
  infix (concat (map (fun x => x ++ sep) mid)) (join sep (pre ++ mid ++ post)).
Proof.
  intros Hpost.
  rewrite join_app_followed by (destruct mid; [done|discriminate]).
  rewrite join_app_followed by done.
  apply infix_app_r, infix_app_l, infix_refl.
Qed.

Lemma imap_lookup_split {A B} (f : nat -> A -> B) (l : list A) i x :
  l !! i = Some x ->
  exists pre post, imap f l = pre ++ f i x :: post.
Proof.
  intros Hi.
  pose proof (take_drop_middle l i x Hi) as Hsplit.
  exists (imap f (take i l)),
         (imap (fun n => f (length (take i l) + S n)%nat) (drop (S i) l)).
  transitivity (imap f (take i l ++ x :: drop (S i) l)); [by rewrite Hsplit|].
  rewrite imap_app. cbn [imap]. f_equal. f_equal.
  rewrite length_take, Nat.add_0_r.
  apply lookup_lt_Some in Hi. f_equal. lia.
Qed.

(** X23: what the synthesis step sends.  [synthesize_final_answer] makes
    one call of the model gpt-4o and returns its reply, or fails as the
    call fails.  The prompt of the call carries the original question and,
    for the result at place i (from 0), the line "Sub-question i+1: " with
    its question, then the line "Answer: " with its whole answer, and every
    one of its sources: no result is left out and no answer is cut. *)
Theorem synthesis_prompt_complete (original_question : str)
    (sub_question_results : list answer_result) (w : World) :
  exists prompt,
    synthesize_final_answer original_question sub_question_results w
    = call (chat_completions_create
              {| model := lit "gpt-4o";
                 messages :=
                   [(lit "system", lit "You are a helpful financial analyst assistant.");
                    (lit "user", prompt)];
                 max_tokens := 1500;
                 temperature := 1 # 10 |}) w
    /\ infix original_question prompt
    /\ forall i r,
         sub_question_results !! i = Some r ->
         infix (lit "Sub-question " ++ py_str (Z.of_nat i + 1) ++ lit ": "
                ++ question r ++ nl ++ lit "Answer: " ++ answer r ++ nl) prompt
         /\ forall s, s ∈ sources r -> infix s prompt.
Proof.
  set (context := join nl (concat (imap context_part sub_question_results))).
  exists (synthesis_prompt original_question context).
  split; [done|].
  assert (infix context (synthesis_prompt original_question context)) as Hctx.
  { unfold synthesis_prompt. do 3 apply infix_app_r. apply infix_app_l, infix_refl. }
  split.
  { unfold synthesis_prompt. apply infix_app_r, infix_app_l, infix_refl. }
  intros i r Hi.
  destruct (imap_lookup_split context_part _ i r Hi) as (pre & post & Hparts).
  assert (concat (imap context_part sub_question_results)
          = concat pre ++ context_part i r ++ concat post) as Hlines.
  { by rewrite Hparts, concat_app. }
  split.
  - eapply infix_trans; [|exact Hctx]. unfold context. rewrite Hlines.
    unfold context_part.
    set (line1 := lit "Sub-question " ++ py_str (Z.of_nat i + 1) ++ lit ": "
                  ++ question r).
    set (line2 := lit "Answer: " ++ answer r).
    set (tail := (if nonempty (sources r)
                  then [lit "Sources: " ++ join (lit "; ") (sources r)]
                  else []) ++ [[]]).
    rewrite <- !app_assoc.
    change ([line1; line2] ++ tail ++ concat post)
      with ([line1; line2] ++ (tail ++ concat post)).
    replace (lit "Sub-question " ++ py_str (Z.of_nat i + 1) ++ lit ": "
             ++ question r ++ nl ++ lit "Answer: " ++ answer r ++ nl)
      with (concat (map (fun x => x ++ nl) [line1; line2])).
    2: { unfold line1, line2. cbn [map concat]. by rewrite <- !app_assoc, app_nil_r. }
    apply infix_join_run.
    unfold tail. by destruct (nonempty (sources r)).
  - intros s Hs.
    eapply infix_trans; [|exact Hctx].
    apply infix_trans with (lit "Sources: " ++ join (lit "; ") (sources r)).
    { apply infix_app_r. by apply infix_join. }
    unfold context. apply infix_join. rewrite Hlines.
    apply elem_of_app. right. apply elem_of_app. left.
    unfold context_part.
    destruct (sources r) as [|s0 srcs]; [by apply elem_of_nil in Hs|].
    cbn [nonempty app]. do 2 apply list_elem_of_further. apply list_elem_of_here.
Qed.

(** The sources of an answer that has a marker of a passage: those of the
    text before, the citation of the passage, those of the text after. *)
Lemma cite_marker (hits : list chunk) (i : nat) (c : chunk) (a b : str) :
  hits !! i = Some c ->
  fold_left (cite_step hits)
    (cited_numbers (a ++ lit "[" ++ py_str (Z.of_nat i + 1) ++ lit "]" ++ b)) []
  = fold_left (cite_step hits) (cited_numbers a) []
    ++ citation (Z.of_nat i + 1) c
    :: fold_left (cite_step hits) (cited_numbers b) [].
Proof.
  intros Hi.
  destruct (py_str_digits (Z.of_nat i + 1)) as (Hne & Hall & Hint); [lia|].
  unfold cited_numbers. rewrite findall_markers_marker by done.
  rewrite map_app, map_cons, Hint.
  rewrite !cite_loop. cbn [app].
  assert (1 <= Z.of_nat i + 1 <= len hits) as Hrange.
  { apply lookup_lt_Some in Hi. unfold len. lia. }
  rewrite filter_app, filter_cons_True by done.
  rewrite omap_app. cbn [omap list_omap].
  replace (Z.to_nat (Z.of_nat i + 1 - 1)) with i by lia.
  by rewrite Hi.
Qed.

(** X24: the numbers of the passages are the numbers of the citations.  The
    prompt [answer_sub_question] sends shows the chunk at place i (from 0)
    of the retrieved chunks as passage i+1, with its whole text; and where
    the answer has the marker of i+1, the sources get the citation of that
    same chunk, between the sources of the text before the marker and those
    of the text after it. *)
Theorem passage_numbers_are_citation_numbers (sub_question : str)
    (hits : list chunk) (i : nat) (c : chunk) :
  hits !! i = Some c ->
  (exists prompt,
     messages (answer_request sub_question hits)
     = [(lit "system", lit "You are a helpful assistant."); (lit "user", prompt)]
     /\ infix (lit "[" ++ py_str (Z.of_nat i + 1) ++ lit "] " ++ text c) prompt
     /\ infix sub_question prompt)
  /\ (forall a b : str,
        fold_left (cite_step hits)
          (cited_numbers (a ++ lit "[" ++ py_str (Z.of_nat i + 1) ++ lit "]" ++ b)) []
        = fold_left (cite_step hits) (cited_numbers a) []
          ++ citation (Z.of_nat i + 1) c
          :: fold_left (cite_step hits) (cited_numbers b) []).
Proof.
  intros Hi. split; [|intros a b; by apply cite_marker].
  eexists. split; [reflexivity|]. split.
  - unfold PROMPT_TEMPLATE.
    do 5 apply infix_app_r. apply infix_app_l.
    apply infix_join. unfold numbered_passages.
    apply elem_of_lookup_imap. by exists i, c.
  - unfold PROMPT_TEMPLATE.
    do 7 apply infix_app_r. apply infix_app_l, infix_refl.
Qed.

End Prompts.

Lemma passage_numbers_are_citation_numbers_witness :
  (exists prompt,
     messages (Query.answer_request (lit "What was revenue in 2022?")
                 [Script.mk_chunk "ford_2021.pdf" 0 "Revenue was 5 in 2021." 2021;
                  Script.mk_chunk "ford_2022.pdf" 3 "Revenue was 7 in 2022." 2022])
     = [(lit "system", lit "You are a helpful assistant."); (lit "user", prompt)]
     /\ Utils.infix (lit "[2] Revenue was 7 in 2022.") prompt)
  /\ fold_left
       (Query.cite_step
          [Script.mk_chunk "ford_2021.pdf" 0 "Revenue was 5 in 2021." 2021;
           Script.mk_chunk "ford_2022.pdf" 3 "Revenue was 7 in 2022." 2022])
       (Query.cited_numbers (lit "Revenue was 7 [2], up from 5 [1].")) []
     = [lit "[2] ford_2022.pdf, chunk 3"; lit "[1] ford_2021.pdf, chunk 0"].
Proof.
  destruct (passage_numbers_are_citation_numbers (lit "What was revenue in 2022?")
              [Script.mk_chunk "ford_2021.pdf" 0 "Revenue was 5 in 2021." 2021;
               Script.mk_chunk "ford_2022.pdf" 3 "Revenue was 7 in 2022." 2022]
              1 (Script.mk_chunk "ford_2022.pdf" 3 "Revenue was 7 in 2022." 2022)
              eq_refl) as [(prompt & Hmsg & Hpassage & _) Hcite].
  split.
  - exists prompt. split; [exact Hmsg | exact Hpassage].
  - exact (Hcite (lit "Revenue was 7 ") (lit ", up from 5 [1].")).
Defined.

(** ** The handlers around a turn *)

Section Turns.
Context {World float : Type} `{!Externals World float}.
Import Query.

Lemma retrieve_never_exits query k target_year :
  never_exits (retrieve query k target_year).
Proof.
  unfold retrieve, load_index, load_meta, embed_query.
  repeat first
    [ apply never_exits_ret | apply never_exits_raise | apply never_exits_call
    | apply never_exits_bind; [|intros ?]
    | match goal with |- never_exits (if ?b then _ else _) => destruct b end
    | match goal with |- never_exits (match ?d with [] => _ | _ :: _ => _ end) =>
        destruct d end ].
Qed.

Lemma answer_sub_question_never_exits sub_question target_year :
  never_exits (answer_sub_question sub_question target_year).
Proof.
  unfold answer_sub_question.
  apply never_exits_bind; [apply retrieve_never_exits|]. intros hits.
  destruct (negb (Utils.nonempty hits)); [apply never_exits_ret|].
  apply never_exits_bind; [apply never_exits_call|]. intros a.
  apply never_exits_ret.
Qed.

Lemma try_alternatives_never_exits sub_question target_year result alternatives :
  never_exits (try_alternatives sub_question target_year result alternatives).
Proof.
  induction alternatives as [|alt rest IH]; cbn [try_alternatives].
  - apply never_exits_ret.
  - apply never_exits_bind; [apply answer_sub_question_never_exits|].
    intros r. destruct (_ && _); [apply never_exits_ret | apply IH].
Qed.

Lemma fallback_never_exits sub_question target_year :
  never_exits (answer_sub_question_with_fallback sub_question target_year).
Proof.
  unfold answer_sub_question_with_fallback.
  apply never_exits_bind; [apply answer_sub_question_never_exits|]. intros r.
  destruct (no_data (answer r)); [|apply never_exits_ret].
  apply never_exits_bind; [|intros alts; apply try_alternatives_never_exits].
  unfold generate_alternative_questions.
  apply never_exits_bind; [apply never_exits_call | intros t; apply never_exits_ret].
Qed.

Lemma answer_follow_ups_never_exits target_year qs acc :
  never_exits (answer_follow_ups target_year qs acc).
Proof.
  revert acc. induction qs as [|q qs IH]; intros acc; cbn [answer_follow_ups].
  - apply never_exits_ret.
  - apply never_exits_bind; [apply fallback_never_exits | intros r; apply IH].
Qed.

Lemma analyze_never_exits q a cs : never_exits (analyze_missing_information q a cs).
Proof.
  unfold analyze_missing_information.
  apply never_exits_bind; [apply never_exits_call | intros t; apply never_exits_ret].
Qed.

Lemma synthesize_never_exits q rs : never_exits (synthesize_final_answer q rs).
Proof. apply never_exits_call. Qed.

Lemma generate_answer_never_exits question retrieved_chunks :
  never_exits (generate_answer question retrieved_chunks).
Proof.
  unfold generate_answer.
  apply never_exits_bind; [apply fallback_never_exits|]. intros r.
  apply never_exits_bind; [apply analyze_never_exits|]. intros a.
  apply never_exits_bind; [apply answer_follow_ups_never_exits|]. intros rs.
  apply synthesize_never_exits.
Qed.

Lemma final_answer_never_exits prompt : never_exits (StreamlitApp.final_answer prompt).
Proof.
  unfold StreamlitApp.final_answer.
  apply never_exits_bind; [apply fallback_never_exits|]. intros r.
  apply never_exits_bind; [apply analyze_never_exits|]. intros a.
  destruct (Utils.nonempty (follow_up_questions a)); [|apply never_exits_ret].
  apply never_exits_bind; [apply answer_follow_ups_never_exits|]. intros rs.
  apply synthesize_never_exits.
Qed.

(** X25: a turn always ends with a text.  Whatever the services do, the
    chat page ends a turn with the final answer or, when anything raised,
    with "Sorry, I encountered an error: " and the message of the
    exception; and a turn of the command-line loop prints the answer under
    "Answer:" or "Error: " and the message.  Neither lets an exception
    through, and neither ends the program. *)
Theorem turns_end_with_a_message (q : str) (w : World) :
  (exists msg w',
     StreamlitApp.assistant_message q w = (Ok msg, w')
     /\ (StreamlitApp.final_answer q w = (Ok msg, w')
         \/ exists e, StreamlitApp.final_answer q w = (Raise e, w')
                      /\ msg = lit "Sorry, I encountered an error: " ++ exn_msg e))
  /\ (exists msg w',
        repl_turn q w = (Ok msg, w')
        /\ ((exists retrieved w1 a,
               retrieve q 4 (extract_year_from_query q) w = (Ok retrieved, w1)
               /\ generate_answer q retrieved w1 = (Ok a, w')
               /\ msg = nl ++ lit "Answer:" ++ nl ++ a)
            \/ exists e,
                 msg = lit "Error: " ++ exn_msg e
                 /\ (retrieve q 4 (extract_year_from_query q) w = (Raise e, w')
                     \/ exists retrieved w1,
                          retrieve q 4 (extract_year_from_query q) w
                          = (Ok retrieved, w1)
                          /\ generate_answer q retrieved w1 = (Raise e, w')))).
Proof.
  split.
  - unfold StreamlitApp.assistant_message, try_except.
    destruct (StreamlitApp.final_answer q w) as [[a|e|n] w1] eqn:Hrun.
    + exists a, w1. split; [done|]. by left.
    + eexists _, w1. split; [reflexivity|]. right. by exists e.
    + by destruct (final_answer_never_exits q w n w1).
  - unfold repl_turn, try_except.
    destruct (retrieve q 4 (extract_year_from_query q) w) as [[hits|e|n] w1] eqn:Hret.
    + rewrite (bind_Ok _ _ _ _ _ Hret).
      destruct (generate_answer q hits w1) as [[a|e|n] w2] eqn:Hgen.
      * rewrite (bind_Ok _ _ _ _ _ Hgen). eexists _, w2. split; [reflexivity|].
        left. by exists hits, w1, a.
      * rewrite (bind_Raise _ _ _ _ _ Hgen). eexists _, w2. split; [reflexivity|].
        right. exists e. split; [done|]. right. by exists hits, w1.
      * by destruct (generate_answer_never_exits q hits w1 n w2).
    + rewrite (bind_Raise _ _ _ _ _ Hret). eexists _, w1. split; [reflexivity|].
      right. exists e. split; [done|]. by left.
    + by destruct (retrieve_never_exits q 4 (extract_year_from_query q) w n w1).
Qed.

End Turns.
